(** * common/tools.py: metric tracking, top-k accuracy and the epoch loops

    A shallow embedding of [AverageMeter], [ProgressMeter], [accuracy],
    [train], [evaluate], the inference helpers and the datasets of
    [common/tools.py], followed by the properties the specification states
    about them.

    Conventions of the embedding.
    - The embedding has two layers.  The first computes with exact
      rationals ([Q]) and gives the classes of equal score the order of
      their indices; it carries the properties that depend on neither the
      rounding nor that order: what is called, raised, printed and returned,
      and for which inputs.  The second, the module [Rounded], rounds as the
      source does (binary64 for Python floats, float32 for the tensors of
      [accuracy]) and takes [torch.topk] by its contract; it carries the
      properties of the numbers themselves.  Equations between computed
      numbers are stated with [==] ([Qeq]).
    - A scalar handed to a meter is either a Python number ([PyNum],
      e.g. [loss.item()]) or a 0-dim torch tensor ([Tensor], e.g. [acc1[0]]).
      The two differ where the source divides: a Python number divided by
      zero raises [ZeroDivisionError], a tensor divided by zero is a
      non-finite tensor and nothing is raised.
    - A raised exception is a value of [exn]; a function that can raise
      returns [result A = exn + A]. *)

From Stdlib Require Import ZArith QArith Qround Qabs Qpower String Ascii.
From Stdlib Require Import Lia Lqa Bool.
From Stdlib Require Import DecimalString Permutation Sorted List.
Import ListNotations.

Local Open Scope Q_scope.

(** ** Exceptions *)

Inductive exn : Type :=
| ZeroDivisionError   (* number / 0 *)
| ValueError          (* max() of an empty sequence *)
| RuntimeError        (* torch: topk index out of range, expand size mismatch *)
| IndexError          (* torch: index or dimension out of range *)
| AttributeError.     (* int has no attribute to / item *)

Definition result (A : Type) : Type := (exn + A)%type.

Definition ret {A : Type} (a : A) : result A := inr a.
Definition raise {A : Type} (e : exn) : result A := inl e.

Definition bind {A B : Type} (r : result A) (k : A -> result B) : result B :=
  match r with
  | inl e => inl e
  | inr a => k a
  end.

Notation "x <- r ;; k" := (bind r (fun x => k))
  (at level 61, r at next level, right associativity).

(** ** Scalars *)

Inductive number : Type :=
| PyNum (q : Q)     (* Python int or float *)
| Tensor (q : Q).   (* 0-dim torch tensor holding a finite value *)

Definition value (x : number) : Q :=
  match x with PyNum q => q | Tensor q => q end.

Definition is_tensor (x : number) : bool :=
  match x with PyNum _ => false | Tensor _ => true end.

(** [a + b] and [a * n]: the result is a tensor as soon as an operand is.
    The values are exact here; [Rounded.add] and [Rounded.mul] round. *)
Definition number_add (a b : number) : number :=
  match a, b with
  | PyNum x, PyNum y => PyNum (x + y)
  | _, _ => Tensor (value a + value b)
  end.

Definition number_mul (a : number) (n : Q) : number :=
  match a with
  | PyNum x => PyNum (x * n)
  | Tensor x => Tensor (x * n)
  end.

(** What [sum / count] can be: a finite scalar, or a tensor holding
    [inf], [-inf] or [nan]. *)
Inductive quotient : Type :=
| Finite (x : number)
| PosInf
| NegInf
| NaN.

(** [s / c] with [c] a Python number. *)
Definition number_div (s : number) (c : Q) : result quotient :=
  match s with
  | PyNum x =>
      if Qeq_bool c 0 then raise ZeroDivisionError
      else ret (Finite (PyNum (x / c)))
  | Tensor x =>
      if Qeq_bool c 0 then
        match x ?= 0 with
        | Gt => ret PosInf
        | Lt => ret NegInf
        | Eq => ret NaN
        end
      else ret (Finite (Tensor (x / c)))
  end.

(** ** AverageMeter *)

Record AverageMeter : Type := mkAverageMeter {
  name : string;
  fmt : string;
  val : number;
  avg : quotient;
  sum : number;
  count : Q
}.

Definition reset (self : AverageMeter) : AverageMeter :=
  {| name := name self; fmt := fmt self;
     val := PyNum 0; avg := Finite (PyNum 0); sum := PyNum 0; count := 0 |}.

(** [AverageMeter(name, fmt)]: stores the two strings, then calls [reset]. *)
Definition AverageMeter_init (name fmt : string) : AverageMeter :=
  reset {| name := name; fmt := fmt;
           val := PyNum 0; avg := Finite (PyNum 0); sum := PyNum 0; count := 0 |}.

(** [update(val, n)].  The weight [n] is a Python number, as at every call
    of the source (the default 1, or a size).  The three assignments before
    the division have taken place when the division raises, so the meter is
    returned in both cases together with the exception, if any. *)
Definition update (self : AverageMeter) (v : number) (n : Q)
  : AverageMeter * option exn :=
  let sum' := number_add (sum self) (number_mul v n) in
  let count' := count self + n in
  match number_div sum' count' with
  | inl e =>
      ({| name := name self; fmt := fmt self;
          val := v; avg := avg self; sum := sum'; count := count' |}, Some e)
  | inr a =>
      ({| name := name self; fmt := fmt self;
          val := v; avg := a; sum := sum'; count := count' |}, None)
  end.

(** A sequence of [update] calls; the first exception ends it. *)
Fixpoint updates (self : AverageMeter) (l : list (number * Q))
  : AverageMeter * option exn :=
  match l with
  | [] => (self, None)
  | (v, n) :: l' =>
      match update self v n with
      | (m, None) => updates m l'
      | (m, Some e) => (m, Some e)
      end
  end.

(** The two sums of the weighted mean. *)
Fixpoint weighted_sum (l : list (number * Q)) : Q :=
  match l with
  | [] => 0
  | (v, n) :: l' => value v * n + weighted_sum l'
  end.

Fixpoint total_weight (l : list (number * Q)) : Q :=
  match l with
  | [] => 0
  | (_, n) :: l' => n + total_weight l'
  end.

(** ** Tensors

    A 2-d tensor is its shape and its entries; entries outside the shape are
    never read. *)

Record tensor2 (A : Type) : Type := mkTensor2 {
  nrows : nat;
  ncols : nat;
  at_ : nat -> nat -> A
}.

Arguments mkTensor2 {A} _ _ _.
Arguments nrows {A} _.
Arguments ncols {A} _.
Arguments at_ {A} _ _ _.

(** The tensor whose rows are the given lists ([torch.tensor(rows)]). *)
Definition tensor_of_rows {A : Type} (d : A) (c : nat) (rows : list (list A))
  : tensor2 A :=
  {| nrows := length rows; ncols := c;
     at_ := fun i j => nth j (nth i rows []) d |}.

(** [t.t()] *)
Definition transpose {A : Type} (t : tensor2 A) : tensor2 A :=
  {| nrows := ncols t; ncols := nrows t; at_ := fun i j => at_ t j i |}.

(** [t[:k]] for [k >= 0]: the first [k] rows, all of them when there are
    fewer. *)
Definition take_rows {A : Type} (k : nat) (t : tensor2 A) : tensor2 A :=
  {| nrows := Nat.min k (nrows t); ncols := ncols t; at_ := at_ t |}.

(** [t.reshape(-1).float().sum(0, keepdim=True)] of a boolean tensor: the
    number of its true entries. *)
Definition count_true (t : tensor2 bool) : nat :=
  list_sum (map (fun i =>
    list_sum (map (fun j => if at_ t i j then 1%nat else 0%nat)
                  (seq 0 (ncols t))))
    (seq 0 (nrows t))).

(** *** torch.Tensor.topk

    Modelled from the library's contract: [t.topk(k, 1, True, True)] raises
    when [k] exceeds the size of dimension 1, and otherwise returns, for every
    row, the column indices of its [k] largest entries, largest first.  The
    order among equal entries is left open by the library; this layer takes
    the one the specification names, the smaller index first, and
    [Rounded.topk] any order within the contract. *)

(** Class [i] comes before class [j] in the descending order of scores [s]. *)
Definition outranks (s : nat -> Q) (i j : nat) : bool :=
  match s i ?= s j with
  | Gt => true
  | Eq => (i <? j)%nat
  | Lt => false
  end.

Fixpoint insert_desc (s : nat -> Q) (i : nat) (l : list nat) : list nat :=
  match l with
  | [] => [i]
  | j :: l' => if outranks s i j then i :: l else j :: insert_desc s i l'
  end.

(** The classes [0 .. c-1] in descending order of score. *)
Definition argsort_desc (s : nat -> Q) (c : nat) : list nat :=
  fold_right (insert_desc s) [] (seq 0 c).

Definition topk (t : tensor2 Q) (k : nat) : result (tensor2 nat) :=
  if (ncols t <? k)%nat then raise RuntimeError
  else ret {| nrows := nrows t; ncols := k;
              at_ := fun i r => nth r (argsort_desc (at_ t i) (ncols t)) 0%nat |}.

(** [target.view(1, -1).expand_as(pred)]: the labels as one row, repeated
    along dimension 0.  A row of length 1 is also broadcast along
    dimension 1; any other length than the number of columns of [pred]
    raises. *)
Definition expand_as {A : Type} (target : list Z) (pred : tensor2 A)
  : result (tensor2 Z) :=
  if (length target =? ncols pred)%nat then
    ret {| nrows := nrows pred; ncols := ncols pred;
           at_ := fun _ j => nth j target 0%Z |}
  else if (length target =? 1)%nat then
    ret {| nrows := nrows pred; ncols := ncols pred;
           at_ := fun _ _ => nth 0 target 0%Z |}
  else raise RuntimeError.

(** [pred.eq(other)] for two tensors of the same shape. *)
Definition tensor_eq (pred : tensor2 nat) (other : tensor2 Z) : tensor2 bool :=
  {| nrows := nrows pred; ncols := ncols pred;
     at_ := fun i j => (Z.of_nat (at_ pred i j) =? at_ other i j)%Z |}.

(** ** accuracy *)

Definition Q_of_nat (n : nat) : Q := inject_Z (Z.of_nat n).

(** [100.0 / batch_size], exactly; [Rounded.percent_unit] rounds. *)
Definition percent_unit (batch_size : nat) : result Q :=
  if (batch_size =? 0)%nat then raise ZeroDivisionError
  else ret (100 / Q_of_nat batch_size).

(** The body of [for k in topk], collecting [res]. *)
Fixpoint accuracy_loop (correct : tensor2 bool) (batch_size : nat)
  (topk : list nat) : result (list Q) :=
  match topk with
  | [] => ret []
  | k :: topk' =>
      let correct_k := count_true (take_rows k correct) in
      u <- percent_unit batch_size ;;
      res <- accuracy_loop correct batch_size topk' ;;
      ret (Q_of_nat correct_k * u :: res)
  end.

(** [accuracy(output, target, topk)].  Every entry of the returned list is
    the value of the 1-element tensor the source appends to [res]. *)
Definition accuracy (output : tensor2 Q) (target : list Z) (topk_ : list nat)
  : result (list Q) :=
  match topk_ with
  | [] => raise ValueError
  | _ :: _ =>
      let maxk := list_max topk_ in
      let batch_size := length target in
      pred <- topk output maxk ;;
      let pred := transpose pred in
      other <- expand_as target pred ;;
      let correct := tensor_eq pred other in
      accuracy_loop correct batch_size topk_
  end.

(** *** Top-k accuracy as the specification words it *)

(** The number of classes that come before class [l]. *)
Definition rank (s : nat -> Q) (c : nat) (l : nat) : nat :=
  length (filter (fun j => outranks s j l) (seq 0 c)).

(** The label is a class, and fewer than [k] classes come before it. *)
Definition among_topk (s : nat -> Q) (c : nat) (label : Z) (k : nat) : bool :=
  (0 <=? label)%Z && (label <? Z.of_nat c)%Z
  && (rank s c (Z.to_nat label) <? k)%nat.

(** The number of examples whose label is among the top [k]. *)
Definition hits (output : tensor2 Q) (target : list Z) (k : nat) : nat :=
  length (filter (fun j => among_topk (at_ output j) (ncols output)
                                       (nth j target 0%Z) k)
                 (seq 0 (nrows output))).

(** ** Text formatting *)

Local Open Scope string_scope.

(** [str(z)] for a Python int. *)
Definition str_int (z : Z) : string := NilZero.string_of_int (Z.to_int z).

Fixpoint fill (c : ascii) (n : nat) : string :=
  match n with
  | O => ""
  | S n' => String c (fill c n')
  end.

(** A number in a field of width [w]: right-aligned, padded with spaces,
    never truncated. *)
Definition rjust (w : nat) (s : string) : string :=
  fill " " (w - String.length s) ++ s.

(** ['{:<w>d}'.format(z)] *)
Definition format_d (w : nat) (z : Z) : string := rjust w (str_int z).

(** Rounding to the nearest integer, ties to the even one. *)
Definition round_half_even (q : Q) : Z :=
  let f := Qfloor q in
  match (q - inject_Z f ?= 1 # 2)%Q with
  | Lt => f
  | Gt => (f + 1)%Z
  | Eq => if Z.even f then f else (f + 1)%Z
  end.

(** ['{:.<p>f}'.format(q)]: fixed point with [p] digits after the point. *)
Definition format_f (p : nat) (q : Q) : string :=
  let unit := (10 ^ Z.of_nat p)%Z in
  let scaled := round_half_even (Qabs q * inject_Z unit)%Q in
  let digits := str_int (scaled mod unit) in
  (if Qnum q <? 0 then "-" else "")%Z
  ++ str_int (scaled / unit)
  ++ (if (p =? 0)%nat then ""
      else "." ++ fill "0" (p - String.length digits) ++ digits).

Definition format_quotient (p : nat) (a : quotient) : string :=
  match a with
  | Finite x => format_f p (value x)
  | PosInf => "inf"
  | NegInf => "-inf"
  | NaN => "nan"
  end.

(** The format specs the model reads: [':f'], [':<width>f'],
    [':<width>.<precision>f'] and [':.<precision>f'], the width without a
    leading zero.  The result is the width (0 when absent) and the
    precision (6 when absent); [None] is any other spec. *)
Definition digit_of (c : ascii) : option nat :=
  let n := nat_of_ascii c in
  if ((48 <=? n) && (n <=? 57))%nat then Some (n - 48)%nat else None.

Fixpoint read_nat (acc : nat) (s : string) : nat * string :=
  match s with
  | String c s' =>
      match digit_of c with
      | Some d => read_nat (10 * acc + d)%nat s'
      | None => (acc, s)
      end
  | EmptyString => (acc, s)
  end.

Definition parse_fmt (f : string) : option (nat * nat) :=
  match f with
  | String ":" (String "0" _) => None
  | String ":" rest =>
      let (w, r1) := read_nat 0 rest in
      match r1 with
      | String "f" EmptyString => Some (w, 6%nat)
      | String "." (String c r2) =>
          match digit_of c with
          | Some _ =>
              let (p, r3) := read_nat 0 (String c r2) in
              match r3 with
              | String "f" EmptyString => Some (w, p)
              | _ => None
              end
          | None => None
          end
      | _ => None
      end
  | _ => None
  end.

(** [AverageMeter.__str__]: the name, a space, and [avg] formatted by the
    spec [fmt]. *)
Definition AverageMeter_str (self : AverageMeter) : option string :=
  match parse_fmt (fmt self) with
  | Some (w, p) => Some (name self ++ " " ++ rjust w (format_quotient p (avg self)))
  | None => None
  end.

(** ** ProgressMeter

    [self.meters] holds the meter objects themselves, not copies: the model
    keeps references, positions in the list of live meters that [display]
    is given. *)

(** ['[{:<num_digits>d}/<total>]'] *)
Record batch_fmt : Type := mkBatchFmt {
  num_digits : nat;
  total_text : string
}.

Record ProgressMeter : Type := mkProgressMeter {
  batch_fmtstr : batch_fmt;
  meters : list nat;
  prefix : string
}.

Definition _get_batch_fmtstr (num_batches : Z) : batch_fmt :=
  let num_digits := String.length (str_int (num_batches / 1)%Z) in
  {| num_digits := num_digits; total_text := format_d num_digits num_batches |}.

Definition ProgressMeter_init (num_batches : Z) (meters : list nat)
  (prefix : string) : ProgressMeter :=
  {| batch_fmtstr := _get_batch_fmtstr num_batches;
     meters := meters; prefix := prefix |}.

Definition batch_fmtstr_format (f : batch_fmt) (batch : Z) : string :=
  "[" ++ format_d (num_digits f) batch ++ "/" ++ total_text f ++ "]".

(** [[str(meter) for meter in self.meters]] *)
Fixpoint meter_entries (live : list AverageMeter) (refs : list nat)
  : option (list string) :=
  match refs with
  | [] => Some []
  | r :: refs' =>
      match nth_error live r with
      | Some m =>
          match AverageMeter_str m, meter_entries live refs' with
          | Some s, Some l => Some (s :: l)
          | _, _ => None
          end
      | None => None
      end
  end.

Definition tab : string := String (ascii_of_nat 9) "".

(** The line [display(batch)] prints; [None] when a meter's format spec is
    outside the ones [parse_fmt] reads, or a reference points at no live
    meter. *)
Definition display_line (self : ProgressMeter) (batch : Z)
  (live : list AverageMeter) : option string :=
  match meter_entries live (meters self) with
  | Some l =>
      let entries := (prefix self ++ batch_fmtstr_format (batch_fmtstr self) batch) :: l in
      Some (String.concat tab entries)
  | None => None
  end.

(** [display(batch)]: the state is the live meters and what was printed. *)
Definition display (self : ProgressMeter) (batch : Z)
  (st : list AverageMeter * list string)
  : option (list AverageMeter * list string) :=
  match display_line self batch (fst st) with
  | Some line => Some (fst st, (snd st ++ [line])%list)
  | None => None
  end.

(** The same line with the batch index padded as the specification words
    it: zeros in front, up to the digit width of the total. *)
Definition zero_padded (w : nat) (z : Z) : string :=
  fill "0" (w - String.length (str_int z)) ++ str_int z.

Definition display_line_zero_padded (num_batches : Z) (prefix : string)
  (batch : Z) (renderings : list string) : string :=
  let w := String.length (str_int num_batches) in
  String.concat tab
    ((prefix ++ "[" ++ zero_padded w batch ++ "/" ++ str_int num_batches ++ "]")
     :: renderings).

(** [str(round(q, 2))] for a float of moderate size: two decimals, rounded
    half to even, the last one dropped when it is a zero. *)
Definition str_round2 (q : Q) : string :=
  let scaled := round_half_even (Qabs q * 100)%Q in
  let f := (scaled mod 100)%Z in
  (if Qnum q <? 0 then "-" else "")%Z
  ++ str_int (scaled / 100) ++ "."
  ++ (if (f mod 10 =? 0)%Z then str_int (f / 10)
      else fill "0" (2 - String.length (str_int f)) ++ str_int f).

Definition str_quotient_round2 (a : quotient) : string :=
  match a with
  | Finite x => str_round2 (value x)
  | PosInf => "inf"
  | NegInf => "-inf"
  | NaN => "nan"
  end.

(** [x.item()] and [x.to("cpu", torch.float).item()]: the Python float a
    0-dim tensor holds; a Python int has neither method. *)
Definition item (a : quotient) : result quotient :=
  match a with
  | Finite (PyNum _) => raise AttributeError
  | Finite (Tensor q) => ret (Finite (PyNum q))
  | other => ret other
  end.

(** [images[0].size(0)]: the first dimension of the first element of the
    batch. *)
Definition first_item_size0 (shape : list nat) : result nat :=
  match shape with
  | d0 :: d1 :: _ => if (d0 =? 0)%nat then raise IndexError else ret d1
  | _ => raise IndexError
  end.

(** [meter.update(v, n)] as a step that can raise. *)
Definition update_or_raise (m : AverageMeter) (v : number) (n : Q)
  : result AverageMeter :=
  match update m v n with
  | (m', None) => ret m'
  | (_, Some e) => raise e
  end.

(** [acc1, acc5 = accuracy(...)] *)
Definition unpack2 (r : result (list Q)) : result (Q * Q) :=
  l <- r ;;
  match l with
  | [a; b] => ret (a, b)
  | _ => raise ValueError
  end.

Local Close Scope string_scope.

(** ** The epoch loops *)

Section EpochRunner.

(** The collaborators.  [World] is all the loops reach through calls only:
    the parameters of the model, the state of the optimizer and of the
    gradient scaler, the device.  Every call is recorded in a log, in
    order, and may change the world. *)
Variables Images World : Type.

Inductive call : Type :=
| ModelTrain                      (* model.train() *)
| ModelEval                       (* model.eval() *)
| NewGradScaler                   (* torch.cuda.amp.GradScaler() *)
| NextBatch                       (* the data source delivers a batch *)
| ToDevice (non_blocking : bool)  (* x.cuda(...) *)
| Forward (autocast : bool) (images : Images)   (* model(images) *)
| Criterion (autocast : bool) (labels : list Z) (* ceriation(logist, labels) *)
| ZeroGrad                        (* optimizer.zero_grad() *)
| Backward                        (* loss.backward() *)
| OptimizerStep                   (* optimizer.step() *)
| ScalerScale                     (* scaler.scale(loss) *)
| ScalerStep                      (* scaler.step(optimizer) *)
| ScalerUpdate.                   (* scaler.update() *)

Variable shape : Images -> list nat.                  (* images.shape *)
Variable effect : call -> World -> World.
Variable logits : World -> bool -> Images -> tensor2 Q.
Variable loss_item : World -> bool -> tensor2 Q -> list Z -> Q.
Variable now : nat -> Q.          (* the successive readings of time.time() *)
Variable stamp : nat -> string.   (* the same readings as getTime() shows them *)

Record env : Type := mkEnv {
  world : World;
  ticks : nat;
  log : list call;
  stdout : list string
}.

(** State and exceptions. *)
Definition M (A : Type) : Type := env -> env * result A.

Definition mret {A : Type} (a : A) : M A := fun e => (e, inr a).

Definition mbind {A B : Type} (m : M A) (k : A -> M B) : M B :=
  fun e =>
    match m e with
    | (e', inr a) => k a e'
    | (e', inl x) => (e', inl x)
    end.

Notation "x <~ m ;; k" := (mbind m (fun x => k))
  (at level 61, m at next level, right associativity).

Definition lift {A : Type} (r : result A) : M A := fun e => (e, r).

Definition emit (c : call) : M unit :=
  fun e =>
    ({| world := effect c (world e); ticks := ticks e;
        log := log e ++ [c]; stdout := stdout e |}, inr tt).

Definition time_time : M Q :=
  fun e =>
    ({| world := world e; ticks := S (ticks e);
        log := log e; stdout := stdout e |}, inr (now (ticks e))).

Definition getTime : M string :=
  fun e =>
    ({| world := world e; ticks := S (ticks e);
        log := log e; stdout := stdout e |}, inr (stamp (ticks e))).

Definition print (line : string) : M unit :=
  fun e =>
    ({| world := world e; ticks := ticks e;
        log := log e; stdout := stdout e ++ [line] |}, inr tt).

Definition model_call (autocast : bool) (images : Images) : M (tensor2 Q) :=
  fun e =>
    match emit (Forward autocast images) e with
    | (e', _) => (e', inr (logits (world e) autocast images))
    end.

(** [ceriation(logist, labels)]; the number is what [loss.item()] gives. *)
Definition ceriation (autocast : bool) (logist : tensor2 Q) (labels : list Z)
  : M Q :=
  fun e =>
    match emit (Criterion autocast labels) e with
    | (e', _) => (e', inr (loss_item (world e) autocast logist labels))
    end.

(** [progress.display(batch)] on the live meters. *)
Definition progress_display (progress : ProgressMeter) (batch : Z)
  (live : list AverageMeter) : M unit :=
  match display_line progress batch live with
  | Some line => print line
  | None => mret tt
  end.

(** *** train *)

Record train_locals : Type := mkTrainLocals {
  batch_time : AverageMeter;
  data_time : AverageMeter;
  losses : AverageMeter;
  top1 : AverageMeter;
  end_ : Q
}.

(** One iteration of the loop of [train]. *)
Definition train_batch (amp : bool) (l : train_locals)
  (batch : Images * list Z) : M train_locals :=
  let (images, labels) := batch in
  _ <~ emit NextBatch ;;
  t <~ time_time ;;
  data_time' <~ lift (update_or_raise (data_time l) (PyNum (t - end_ l)) 1) ;;
  _ <~ emit (ToDevice true) ;;
  _ <~ emit (ToDevice true) ;;
  fwd <~ (if amp then
            logist <~ model_call true images ;;
            loss <~ ceriation true logist labels ;;
            _ <~ emit ZeroGrad ;;
            _ <~ emit ScalerScale ;;
            _ <~ emit Backward ;;
            _ <~ emit ScalerStep ;;
            _ <~ emit ScalerUpdate ;;
            mret (logist, loss)
          else
            logist <~ model_call false images ;;
            loss <~ ceriation false logist labels ;;
            _ <~ emit ZeroGrad ;;
            _ <~ emit Backward ;;
            _ <~ emit OptimizerStep ;;
            mret (logist, loss)) ;;
  let (logist, loss) := fwd : tensor2 Q * Q in
  acc <~ lift (unpack2 (accuracy logist labels [1; 5]%nat)) ;;
  n <~ lift (first_item_size0 (shape images)) ;;
  losses' <~ lift (update_or_raise (losses l) (PyNum loss) (Q_of_nat n)) ;;
  n' <~ lift (first_item_size0 (shape images)) ;;
  top1' <~ lift (update_or_raise (top1 l) (Tensor (fst acc)) (Q_of_nat n')) ;;
  t' <~ time_time ;;
  batch_time' <~ lift (update_or_raise (batch_time l) (PyNum (t' - end_ l)) 1) ;;
  end' <~ time_time ;;
  mret {| batch_time := batch_time'; data_time := data_time';
          losses := losses'; top1 := top1'; end_ := end' |}.

Fixpoint train_loop (amp : bool) (l : train_locals)
  (train_loader : list (Images * list Z)) : M train_locals :=
  match train_loader with
  | [] => mret l
  | batch :: rest =>
      l' <~ train_batch amp l batch ;;
      train_loop amp l' rest
  end.

(** What [train] does before its loop: the meters, the progress line, the
    scaler, [model.train()] and the first clock reading. *)
Definition train_setup (train_loader : list (Images * list Z)) (epoch : Z)
  : M (ProgressMeter * train_locals) :=
  let batch_time := AverageMeter_init "Time" ":6.2f" in
  let data_time := AverageMeter_init "Data" ":6.2f" in
  let losses := AverageMeter_init "Loss" ":6.2f" in
  let top1 := AverageMeter_init "Acc@1" ":6.2f" in
  ts <~ getTime ;;
  let progress :=
    ProgressMeter_init (Z.of_nat (length train_loader)) [0; 1; 2; 3]%nat
      (ts ++ " Train Epoch: [" ++ str_int (epoch + 1) ++ "]")%string in
  _ <~ emit NewGradScaler ;;
  _ <~ emit ModelTrain ;;
  end0 <~ time_time ;;
  mret (progress,
        {| batch_time := batch_time; data_time := data_time;
           losses := losses; top1 := top1; end_ := end0 |}).

Definition train (train_loader : list (Images * list Z)) (epoch : Z)
  (amp : bool) : M (quotient * quotient) :=
  s <~ train_setup train_loader epoch ;;
  let (progress, l0) := s : ProgressMeter * train_locals in
  l <~ train_loop amp l0 train_loader ;;
  _ <~ progress_display progress 0
         [batch_time l; data_time l; losses l; top1 l] ;;
  acc <~ lift (item (avg (top1 l))) ;;
  mret (avg (losses l), acc).

(** *** evaluate *)

Definition evaluate_batch (l : AverageMeter * AverageMeter)
  (batch : Images * list Z) : M (AverageMeter * AverageMeter) :=
  let (images, labels) := batch in
  let (losses, top1) := l in
  _ <~ emit NextBatch ;;
  _ <~ emit (ToDevice false) ;;
  _ <~ emit (ToDevice false) ;;
  logist <~ model_call false images ;;
  loss <~ ceriation false logist labels ;;
  acc <~ lift (unpack2 (accuracy logist labels [1; 5]%nat)) ;;
  n <~ lift (first_item_size0 (shape images)) ;;
  losses' <~ lift (update_or_raise losses (PyNum loss) (Q_of_nat n)) ;;
  n' <~ lift (first_item_size0 (shape images)) ;;
  top1' <~ lift (update_or_raise top1 (Tensor (fst acc)) (Q_of_nat n')) ;;
  mret (losses', top1').

Fixpoint evaluate_loop (l : AverageMeter * AverageMeter)
  (eva_loader : list (Images * list Z)) : M (AverageMeter * AverageMeter) :=
  match eva_loader with
  | [] => mret l
  | batch :: rest =>
      l' <~ evaluate_batch l batch ;;
      evaluate_loop l' rest
  end.

Definition evaluate (eva_loader : list (Images * list Z)) (prefix : string)
  (ignore : Z) : M (quotient * quotient) :=
  let losses := AverageMeter_init "Loss" ":3.2f" in
  let top1 := AverageMeter_init "Acc@1" ":3.2f" in
  _ <~ emit ModelEval ;;
  l <~ evaluate_loop (losses, top1) eva_loader ;;
  _ <~ (if String.eqb prefix "" then mret tt
        else
          ts <~ getTime ;;
          a <~ lift (item (avg (snd l))) ;;
          print (ts ++ " " ++ prefix ++ " " ++ str_quotient_round2 a)%string) ;;
  acc <~ lift (item (avg (snd l))) ;;
  mret (avg (fst l), acc).

(** The calls that ask for a parameter update: [optimizer.step()], and
    [scaler.step(optimizer)], through which the mixed-precision path
    issues it. *)
Definition is_step (c : call) : bool :=
  match c with
  | OptimizerStep | ScalerStep => true
  | _ => false
  end.

Definition is_next_batch (c : call) : bool :=
  match c with
  | NextBatch => true
  | _ => false
  end.

Definition step_calls (l : list call) : nat := length (filter is_step l).

Definition batches_delivered (l : list call) : nat :=
  length (filter is_next_batch l).

End EpochRunner.

Arguments ModelTrain {Images}.
Arguments ModelEval {Images}.
Arguments NewGradScaler {Images}.
Arguments NextBatch {Images}.
Arguments ToDevice {Images} _.
Arguments Forward {Images} _ _.
Arguments Criterion {Images} _ _.
Arguments ZeroGrad {Images}.
Arguments Backward {Images}.
Arguments OptimizerStep {Images}.
Arguments ScalerScale {Images}.
Arguments ScalerStep {Images}.
Arguments ScalerUpdate {Images}.
Arguments mkEnv {Images World} _ _ _ _.
Arguments world {Images World} _.
Arguments ticks {Images World} _.
Arguments log {Images World} _.
Arguments stdout {Images World} _.
Arguments mret {Images World A} _ _.
Arguments mbind {Images World A B} _ _ _.
Arguments lift {Images World A} _ _.
Arguments emit {Images World} _ _ _.
Arguments time_time {Images World} _ _.
Arguments getTime {Images World} _ _.
Arguments print {Images World} _ _.
Arguments model_call {Images World} _ _ _ _ _.
Arguments ceriation {Images World} _ _ _ _ _ _.
Arguments progress_display {Images World} _ _ _ _.
Arguments train_batch {Images World} _ _ _ _ _ _ _ _ _.
Arguments train_loop {Images World} _ _ _ _ _ _ _ _ _.
Arguments train_setup {Images World} _ _ _ _ _ _.
Arguments train {Images World} _ _ _ _ _ _ _ _ _ _.
Arguments evaluate_batch {Images World} _ _ _ _ _ _ _.
Arguments evaluate_loop {Images World} _ _ _ _ _ _ _.
Arguments evaluate {Images World} _ _ _ _ _ _ _ _ _.
Arguments is_step {Images} _.
Arguments is_next_batch {Images} _.
Arguments step_calls {Images} _.
Arguments batches_delivered {Images} _.

(** ** Sample data

    The batches of the specification's scenarios: two examples over two
    classes. *)

Definition scores_distinct : tensor2 Q :=
  tensor_of_rows 0 2 [[1 # 10; 9 # 10]; [8 # 10; 2 # 10]].

Definition scores_same_top : tensor2 Q :=
  tensor_of_rows 0 2 [[9 # 10; 1 # 10]; [8 # 10; 2 # 10]].

Definition sample_labels : list Z := [1; 0]%Z.

(** A batch without examples over two classes. *)
Definition scores_empty : tensor2 Q := tensor_of_rows 0 2 [].

(** The tensor [correct] that [accuracy] builds from the predictions of
    [topk] and the expanded labels. *)
Definition correct_of (output : tensor2 Q) (target : list Z) (maxk : nat)
  : tensor2 bool :=
  tensor_eq
    (transpose {| nrows := nrows output; ncols := maxk;
                  at_ := fun i r =>
                    nth r (argsort_desc (at_ output i) (ncols output)) 0%nat |})
    {| nrows := maxk; ncols := nrows output;
       at_ := fun _ j => nth j target 0%Z |}.

(** Class [i] comes before class [j]. *)
Definition before (s : nat -> Q) (i j : nat) : Prop := outranks s i j = true.

(** *** A small instance of the collaborators

    A batch is its shape and the scores the model gives its examples; the
    world counts the parameter updates made; the loss of a batch is its
    number of examples; the clock advances by one per reading. *)

Record demo_images : Type := mkDemoImages {
  demo_shape : list nat;
  demo_classes : nat;
  demo_scores : list (list Q)
}.

Definition demo_effect (c : call demo_images) (w : nat) : nat :=
  if is_step c then S w else w.

Definition demo_logits (_ : nat) (_ : bool) (images : demo_images) : tensor2 Q :=
  tensor_of_rows 0 (demo_classes images) (demo_scores images).

Definition demo_loss_item (_ : nat) (_ : bool) (logist : tensor2 Q)
  (_ : list Z) : Q :=
  Q_of_nat (nrows logist).

Definition demo_now (n : nat) : Q := Q_of_nat n.

Definition demo_stamp (_ : nat) : string := "12:00:00".

Definition demo_env : env demo_images nat :=
  {| world := 0%nat; ticks := 0%nat; log := []; stdout := [] |}.

(** Two RGB images of one pixel over six classes, then a batch of one. *)
Definition demo_batch_of_two : demo_images * list Z :=
  ({| demo_shape := [2; 3; 1; 1]%nat; demo_classes := 6;
      demo_scores := [[6; 5; 4; 3; 2; 1]; [1; 2; 3; 4; 5; 6]] |},
   [0; 0]%Z).

Definition demo_batch_of_one : demo_images * list Z :=
  ({| demo_shape := [1; 3; 1; 1]%nat; demo_classes := 6;
      demo_scores := [[1; 6; 2; 3; 4; 5]] |},
   [1]%Z).

Definition demo_loader : list (demo_images * list Z) :=
  [demo_batch_of_two; demo_batch_of_one].

(** A batch over three classes only. *)
Definition demo_batch_three_classes : demo_images * list Z :=
  ({| demo_shape := [2; 3; 1; 1]%nat; demo_classes := 3;
      demo_scores := [[3; 2; 1]; [1; 2; 3]] |},
   [0; 0]%Z).

Definition demo_train (train_loader : list (demo_images * list Z)) (amp : bool)
  : env demo_images nat * result (quotient * quotient) :=
  train demo_shape demo_effect demo_logits demo_loss_item demo_now demo_stamp
        train_loader 0 amp demo_env.

Definition demo_evaluate (eva_loader : list (demo_images * list Z))
  (ignore : Z) : env demo_images nat * result (quotient * quotient) :=
  evaluate demo_shape demo_effect demo_logits demo_loss_item demo_stamp
           eva_loader "Test" ignore demo_env.

(** The sample meters of the specification's progress line. *)
Definition sample_loss_meter : AverageMeter :=
  fst (update (AverageMeter_init "Loss" ":3.2f") (PyNum (1 # 4)) 1).

Definition sample_acc_meter : AverageMeter :=
  fst (update (AverageMeter_init "Acc@1" ":3.2f") (Tensor (913 # 10)) 1).

(** [sub in s] for strings. *)
Fixpoint contains (sub s : string) : bool :=
  String.prefix sub s
  || match s with
     | EmptyString => false
     | String _ s' => contains sub s'
     end.

(** The concatenation of a list of strings. *)
Definition flatten (l : list string) : string :=
  fold_right String.append EmptyString l.

(** *** Conditions on the inputs of the loops *)

(** The counts of the four meters of [train] are not negative. *)
Definition counts_nonneg (l : train_locals) : Prop :=
  0 <= count (batch_time l) /\ 0 <= count (data_time l)
  /\ 0 <= count (losses l) /\ 0 <= count (top1 l).

(** A batch the loops accept: whatever the world, the model gives one score
    vector per label, there is a label, and the classes are five at least;
    the images are a tensor of two dimensions at least whose first two sizes
    are positive. *)
Definition accepted {Images World : Type} (shape : Images -> list nat)
  (logits : World -> bool -> Images -> tensor2 Q) (batch : Images * list Z)
  : Prop :=
  (forall w autocast,
      (5 <= ncols (logits w autocast (fst batch)))%nat
      /\ nrows (logits w autocast (fst batch)) <> 0%nat
      /\ length (snd batch) = nrows (logits w autocast (fst batch)))
  /\ exists d0 d1 rest, shape (fst batch) = S d0 :: S d1 :: rest.

(** *** More sums over a run of updates *)

(** Some value of the run is a tensor. *)
Definition any_tensor (l : list (number * Q)) : bool :=
  existsb (fun p => is_tensor (fst p)) l.

(** *** The calls of one iteration *)

(** What an iteration of the loop of [train] calls, in order. *)
Definition train_batch_calls {Images : Type} (amp : bool)
  (batch : Images * list Z) : list (call Images) :=
  [NextBatch; ToDevice true; ToDevice true;
   Forward amp (fst batch); Criterion amp (snd batch); ZeroGrad]
  ++ (if amp then [ScalerScale; Backward; ScalerStep; ScalerUpdate]
      else [Backward; OptimizerStep]).

(** What an iteration of the loop of [evaluate] calls, in order. *)
Definition evaluate_batch_calls {Images : Type} (batch : Images * list Z)
  : list (call Images) :=
  [NextBatch; ToDevice false; ToDevice false;
   Forward false (fst batch); Criterion false (snd batch)].

(** The four meters of [train] carry the names and the format [train] gave
    them. *)
Definition train_meters_named (l : train_locals) : Prop :=
  (name (batch_time l) = "Time"%string /\ fmt (batch_time l) = ":6.2f"%string)
  /\ (name (data_time l) = "Data"%string /\ fmt (data_time l) = ":6.2f"%string)
  /\ (name (losses l) = "Loss"%string /\ fmt (losses l) = ":6.2f"%string)
  /\ (name (top1 l) = "Acc@1"%string /\ fmt (top1 l) = ":6.2f"%string).

(** The progress line of [train]: the time stamp, the epoch counted from 1,
    batch index 0 of the number of batches, and the four averages in a
    field of width 6 with 2 decimals. *)
Definition train_progress_line (ts : string) (epoch : Z) (num_batches : nat)
  (time_avg data_avg loss_avg acc_avg : quotient) : string :=
  ((ts ++ " Train Epoch: [" ++ str_int (epoch + 1) ++ "]")
   ++ "[" ++ rjust (String.length (str_int (Z.of_nat num_batches))) "0"
   ++ "/" ++ str_int (Z.of_nat num_batches) ++ "]"
   ++ flatten (map (append tab)
        ["Time " ++ rjust 6 (format_quotient 2 time_avg);
         "Data " ++ rjust 6 (format_quotient 2 data_avg);
         "Loss " ++ rjust 6 (format_quotient 2 loss_avg);
         "Acc@1 " ++ rjust 6 (format_quotient 2 acc_avg)]))%string.

(** ** Inference helpers

    [predict], [predict_softmax], [predict_repre] and [evaluateWithBoth].
    [F.softmax(x, dim=1)] and [torch.cuda.is_available()] are collaborators
    too.  The log records the kind of a call, not the model that receives
    it: [evaluateWithBoth] logs [ModelEval] and [Forward] once per model. *)

(** [torch.max(t, 1)] of a 2-d tensor: per row the largest entry and the
    index of its first occurrence; it raises when there is no column. *)
Definition argmax_row (t : tensor2 Q) (i : nat) : nat :=
  hd 0%nat (argsort_desc (at_ t i) (ncols t)).

Definition max_dim1 (t : tensor2 Q) : result (list Q * list nat) :=
  if (ncols t =? 0)%nat then raise IndexError
  else ret (map (fun i => at_ t i (argmax_row t i)) (seq 0 (nrows t)),
            map (argmax_row t) (seq 0 (nrows t))).

(** [torch.cat(l, dim=0)] of 1-d tensors.  On an empty list the library
    raises, a [RuntimeError] or a [ValueError] by its version; the
    definition names the first, and no property depends on which. *)
Definition cat1 {A : Type} (l : list (list A)) : result (list A) :=
  match l with
  | [] => raise RuntimeError
  | _ :: _ => ret (concat l)
  end.

(** [torch.cat(l, dim=0)] of 2-d tensors: the rows of all of them, which
    must be of one length. *)
Definition vstack {A : Type} (a b : tensor2 A) : tensor2 A :=
  {| nrows := nrows a + nrows b; ncols := ncols a;
     at_ := fun i j => if (i <? nrows a)%nat then at_ a i j
                       else at_ b (i - nrows a)%nat j |}.

Fixpoint cat2_from {A : Type} (acc : tensor2 A) (l : list (tensor2 A))
  : result (tensor2 A) :=
  match l with
  | [] => ret acc
  | t :: l' =>
      if (ncols t =? ncols acc)%nat then cat2_from (vstack acc t) l'
      else raise RuntimeError
  end.

(** As for [cat1], the exception on an empty list is the library's. *)
Definition cat2 {A : Type} (l : list (tensor2 A)) : result (tensor2 A) :=
  match l with
  | [] => raise RuntimeError
  | t :: l' => cat2_from t l'
  end.

(** Two sizes broadcast when they are equal or one of them is 1. *)
Definition broadcast_size (x y : nat) : result nat :=
  if (x =? y)%nat then ret x
  else if (x =? 1)%nat then ret y
  else if (y =? 1)%nat then ret x
  else raise RuntimeError.

(** [(a + b) / 2], exactly. *)
Definition mean2 (a b : tensor2 Q) : result (tensor2 Q) :=
  r <- broadcast_size (nrows a) (nrows b) ;;
  c <- broadcast_size (ncols a) (ncols b) ;;
  ret {| nrows := r; ncols := c;
         at_ := fun i j =>
           (at_ a (if (nrows a =? 1)%nat then 0%nat else i)
                  (if (ncols a =? 1)%nat then 0%nat else j)
            + at_ b (if (nrows b =? 1)%nat then 0%nat else i)
                    (if (ncols b =? 1)%nat then 0%nat else j)) / 2 |}.

(** The number of positions where the prediction is the label. *)
Definition agreements (preds : list nat) (target : list Z) : nat :=
  length (filter (fun p => (Z.of_nat (fst p) =? snd p)%Z)
                 (combine preds target)).

Section Inference.

Variables Images World : Type.
Variable shape : Images -> list nat.
Variable effect : call Images -> World -> World.
Variable logits : World -> bool -> Images -> tensor2 Q.   (* model, model1 *)
Variable logits2 : World -> bool -> Images -> tensor2 Q.  (* model2 *)
Variable softmax : tensor2 Q -> tensor2 Q.
Variable cuda_is_available : bool.
Variable stamp : nat -> string.

Notation "x <~ m ;; k" := (mbind m (fun x => k))
  (at level 61, m at next level, right associativity).

(** A forward pass of the second model. *)
Definition model2_call (images : Images) : M Images World (tensor2 Q) :=
  fun e =>
    match emit effect (Forward false images) e with
    | (e', _) => (e', inr (logits2 (world e) false images))
    end.

(** *** predict *)

(** One iteration: [(preds, probs)] grow by the batch's. *)
Definition predict_batch {A B : Type}
  (acc : list (list nat) * list (list Q)) (batch : Images * A * B)
  : M Images World (list (list nat) * list (list Q)) :=
  let images := fst (fst batch) in
  _ <~ emit effect NextBatch ;;
  if cuda_is_available then
    _ <~ emit effect (ToDevice false) ;;
    logits_ <~ model_call effect logits false images ;;
    let outputs := softmax logits_ in
    r <~ lift (max_dim1 outputs) ;;
    mret (fst acc ++ [snd r], snd acc ++ [fst r])
  else mret acc.

Fixpoint predict_loop {A B : Type}
  (acc : list (list nat) * list (list Q))
  (predict_loader : list (Images * A * B))
  : M Images World (list (list nat) * list (list Q)) :=
  match predict_loader with
  | [] => mret acc
  | batch :: rest =>
      acc' <~ predict_batch acc batch ;;
      predict_loop acc' rest
  end.

Definition predict {A B : Type} (predict_loader : list (Images * A * B))
  : M Images World (list nat * list Q) :=
  _ <~ emit effect ModelEval ;;
  acc <~ predict_loop ([], []) predict_loader ;;
  preds <~ lift (cat1 (fst acc)) ;;
  probs <~ lift (cat1 (snd acc)) ;;
  mret (preds, probs).

(** *** predict_softmax *)

Definition predict_softmax_batch (softmax_outs : list (tensor2 Q))
  (batch : Images * Images) : M Images World (list (tensor2 Q)) :=
  let (images1, images2) := batch in
  _ <~ emit effect NextBatch ;;
  _ <~ (if cuda_is_available then
          _ <~ emit effect (ToDevice false) ;;
          emit effect (ToDevice false)
        else mret tt) ;;
  logits1 <~ model_call effect logits false images1 ;;
  logits2_ <~ model_call effect logits false images2 ;;
  outputs <~ lift (mean2 (softmax logits1) (softmax logits2_)) ;;
  mret (softmax_outs ++ [outputs]).

Fixpoint predict_softmax_loop (softmax_outs : list (tensor2 Q))
  (predict_loader : list (Images * Images))
  : M Images World (list (tensor2 Q)) :=
  match predict_loader with
  | [] => mret softmax_outs
  | batch :: rest =>
      outs <~ predict_softmax_batch softmax_outs batch ;;
      predict_softmax_loop outs rest
  end.

Definition predict_softmax (predict_loader : list (Images * Images))
  : M Images World (tensor2 Q) :=
  _ <~ emit effect ModelEval ;;
  softmax_outs <~ predict_softmax_loop [] predict_loader ;;
  lift (cat2 softmax_outs).

(** *** predict_repre *)

Definition predict_repre_batch {A : Type} (repres : list (tensor2 Q))
  (batch : Images * A) : M Images World (list (tensor2 Q)) :=
  let images := fst batch in
  _ <~ emit effect NextBatch ;;
  _ <~ emit effect (ToDevice false) ;;
  outputs <~ model_call effect logits false images ;;
  mret (repres ++ [outputs]).

Fixpoint predict_repre_loop {A : Type} (repres : list (tensor2 Q))
  (predict_loader : list (Images * A)) : M Images World (list (tensor2 Q)) :=
  match predict_loader with
  | [] => mret repres
  | batch :: rest =>
      repres' <~ predict_repre_batch repres batch ;;
      predict_repre_loop repres' rest
  end.

Definition predict_repre {A : Type} (predict_loader : list (Images * A))
  : M Images World (tensor2 Q) :=
  _ <~ emit effect ModelEval ;;
  repres <~ predict_repre_loop [] predict_loader ;;
  lift (cat2 repres).

(** *** evaluateWithBoth *)

Definition evaluateWithBoth_batch (top1 : AverageMeter)
  (batch : Images * list Z) : M Images World AverageMeter :=
  let (images, labels) := batch in
  _ <~ emit effect NextBatch ;;
  _ <~ emit effect (ToDevice false) ;;
  _ <~ emit effect (ToDevice false) ;;
  logist1 <~ model_call effect logits false images ;;
  logist2 <~ model2_call images ;;
  logist <~ lift (mean2 (softmax logist1) (softmax logist2)) ;;
  acc <~ lift (unpack2 (accuracy logist labels [1; 5]%nat)) ;;
  n <~ lift (first_item_size0 (shape images)) ;;
  lift (update_or_raise top1 (Tensor (fst acc)) (Q_of_nat n)).

Fixpoint evaluateWithBoth_loop (top1 : AverageMeter)
  (eva_loader : list (Images * list Z)) : M Images World AverageMeter :=
  match eva_loader with
  | [] => mret top1
  | batch :: rest =>
      top1' <~ evaluateWithBoth_batch top1 batch ;;
      evaluateWithBoth_loop top1' rest
  end.

Definition evaluateWithBoth (eva_loader : list (Images * list Z))
  (prefix : string) : M Images World quotient :=
  _ <~ emit effect ModelEval ;;
  _ <~ emit effect ModelEval ;;
  let top1 := AverageMeter_init "Acc@1" ":3.2f" in
  top1' <~ evaluateWithBoth_loop top1 eva_loader ;;
  _ <~ (if String.eqb prefix "" then mret tt
        else
          ts <~ getTime stamp ;;
          a <~ lift (item (avg top1')) ;;
          print (ts ++ " " ++ prefix ++ " " ++ str_quotient_round2 a)%string) ;;
  lift (item (avg top1')).

End Inference.

Arguments model2_call {Images World} _ _ _ _.
Arguments predict_batch {Images World} _ _ _ _ {A B} _ _ _.
Arguments predict_loop {Images World} _ _ _ _ {A B} _ _ _.
Arguments predict {Images World} _ _ _ _ {A B} _ _.
Arguments predict_softmax_batch {Images World} _ _ _ _ _ _ _.
Arguments predict_softmax_loop {Images World} _ _ _ _ _ _ _.
Arguments predict_softmax {Images World} _ _ _ _ _ _.
Arguments predict_repre_batch {Images World} _ _ {A} _ _ _.
Arguments predict_repre_loop {Images World} _ _ {A} _ _ _.
Arguments predict_repre {Images World} _ _ {A} _ _.
Arguments evaluateWithBoth_batch {Images World} _ _ _ _ _ _ _ _.
Arguments evaluateWithBoth_loop {Images World} _ _ _ _ _ _ _ _.
Arguments evaluateWithBoth {Images World} _ _ _ _ _ _ _ _ _.

(** ** Datasets

    The four dataset classes.  Opening an image file and transforming an
    image are collaborators; a transform may draw random numbers, so it
    takes and returns the state of the generator.  The table that
    [pd.read_csv] reads is a collaborator's result too. *)

(** [seq[i]] for a Python list, a numpy array or a positional pandas
    indexer: a negative index counts from the end. *)
Definition py_index {A : Type} (l : list A) (i : Z) : result A :=
  let n := Z.of_nat (length l) in
  let j := if (i <? 0)%Z then (n + i)%Z else i in
  if ((0 <=? j) && (j <? n))%Z then
    match nth_error l (Z.to_nat j) with
    | Some a => ret a
    | None => raise IndexError
    end
  else raise IndexError.

(** [os.path.join(a, b)] on a POSIX system. *)
Definition startswith_sep (s : string) : bool :=
  match s with
  | String c _ => Ascii.eqb c "/"
  | EmptyString => false
  end.

Fixpoint endswith_sep (s : string) : bool :=
  match s with
  | EmptyString => false
  | String c EmptyString => Ascii.eqb c "/"
  | String _ s' => endswith_sep s'
  end.

Definition os_path_join (a b : string) : string :=
  if startswith_sep b then b
  else if (match a with EmptyString => true | _ => false end) || endswith_sep a
       then (a ++ b)%string
       else (a ++ "/" ++ b)%string.

(** [x.astype(np.int8)] for an integer: the low 8 bits, signed. *)
Definition to_int8 (z : Z) : Z := ((z + 128) mod 256 - 128)%Z.

Module Clothing1M_Dataset.
Section WithCollaborators.

Variables Img View Rng : Type.
Variable Image_open_RGB : string -> result Img.   (* Image.open(p).convert('RGB') *)
Variable ToTensor : Img -> Rng -> View * Rng.     (* transforms.ToTensor() *)

Record t : Type := mk {
  data : list string;
  targets : list Z;
  root_dir : string;
  length : nat;
  transform : option (Img -> Rng -> View * Rng);
  target_transform : option (Z -> Z)
}.

Definition __init__ (data_ : list string) (labels : list Z) (root_dir_ : string)
  (transform_ : option (Img -> Rng -> View * Rng))
  (target_transform_ : option (Z -> Z)) : t :=
  {| data := data_; targets := labels; root_dir := root_dir_;
     length := Datatypes.length labels;
     transform := match transform_ with
                  | None => Some ToTensor
                  | Some f => Some f
                  end;
     target_transform := target_transform_ |}.

(** The image is the raw one when there is no transform. *)
Definition __getitem__ (self : t) (index : Z) (rng : Rng)
  : result ((Img + View) * Z * Rng) :=
  img_paths <- py_index (data self) index ;;
  target <- py_index (targets self) index ;;
  let img_paths := os_path_join (root_dir self) img_paths in
  img <- Image_open_RGB img_paths ;;
  let (img', rng') :=
    match transform self with
    | Some f => let (v, r) := f img rng in (inr v, r)
    | None => (inl img, rng)
    end in
  let target' :=
    match target_transform self with
    | Some g => g target
    | None => target
    end in
  ret (img', target', rng').

Definition __len__ (self : t) : nat := length self.

Definition getData (self : t) : list string * list Z :=
  (data self, targets self).

End WithCollaborators.
End Clothing1M_Dataset.

Module Noisy_ostracods.
Section WithCollaborators.

Variables Img View Rng : Type.
Variable Image_open_RGB : string -> result Img.

Record t : Type := mk {
  data : list string;
  fixed_image_base_path : string;
  transform : option (Img -> Rng -> View * Rng);
  labels : list Z;
  root_dir : string
}.

Definition __init__ (data_ : list string) (labels_ : list Z)
  (transform_ : option (Img -> Rng -> View * Rng)) : t :=
  {| data := data_; fixed_image_base_path := "/mnt/x/class_images";
     transform := transform_; labels := labels_;
     root_dir := "/mnt/x/class_images" |}.

Definition __getitem__ (self : t) (index : Z) (rng : Rng)
  : result ((Img + View) * Z * Rng) :=
  img_paths <- py_index (data self) index ;;
  target <- py_index (labels self) index ;;
  let img_paths := os_path_join (root_dir self) img_paths in
  img <- Image_open_RGB img_paths ;;
  let (img', rng') :=
    match transform self with
    | Some f => let (v, r) := f img rng in (inr v, r)
    | None => (inl img, rng)
    end in
  ret (img', target, rng').

(** [self.img_labels] is assigned nowhere in this class. *)
Definition get_plain_item (self : t) (idx : Z) : result (Img * Z) :=
  raise AttributeError.

Definition __len__ (self : t) : nat := Datatypes.length (data self).

End WithCollaborators.
End Noisy_ostracods.

Module Noisy_ostracods_unlabeled.
Section WithCollaborators.

Variables Img View Rng : Type.
Variable Image_open : string -> result Img.                 (* Image.open(p) *)
Variable read_csv : string -> result (list (string * Z)).   (* header=None *)

(** The transform is called without a test, so it is modelled as present. *)
Record t : Type := mk {
  fixed_annotation_path : string;
  fixed_image_base_path : string;
  transform : Img -> Rng -> View * Rng;
  train : string;
  img_labels : list (string * Z);
  targets : list Z;
  root_dir : string
}.

Definition __init__ (train_ : string) (transform_ : Img -> Rng -> View * Rng)
  : result t :=
  let path := ("/mnt/d/Noisy_ostracods/datasets/ostracods_genus_final_"
               ++ train_ ++ ".csv")%string in
  rows <- read_csv path ;;
  ret {| fixed_annotation_path := path;
         fixed_image_base_path := "/mnt/x/class_images";
         transform := transform_; train := train_;
         img_labels := rows;
         targets := map (fun row => to_int8 (snd row)) rows;
         root_dir := "/mnt/x/class_images" |}.

(** The second view is made first; the pair is (later view, earlier
    view). *)
Definition __getitem__ (self : t) (idx : Z) (rng : Rng)
  : result (View * View * Rng) :=
  row <- py_index (img_labels self) idx ;;
  let img_path := os_path_join (fixed_image_base_path self) (fst row) in
  image <- Image_open img_path ;;
  let (img2, rng1) := transform self image rng in
  let (image', rng2) := transform self image rng1 in
  ret (image', img2, rng2).

Definition __len__ (self : t) : nat := Datatypes.length (img_labels self).

End WithCollaborators.
End Noisy_ostracods_unlabeled.

Module Clothing1M_Unlabeled_Dataset.
Section WithCollaborators.

Variables Img View Rng : Type.
Variable Image_open_RGB : string -> result Img.
Variable ToTensor : Img -> Rng -> View * Rng.

(** [__init__] always sets a transform, so the test in [__getitem__]
    always passes; the field holds the transform itself. *)
Record t : Type := mk {
  train_data : list string;
  root_dir : string;
  length : nat;
  transform : Img -> Rng -> View * Rng
}.

Definition __init__ (data : list string) (root_dir_ : string)
  (transform_ : option (Img -> Rng -> View * Rng)) : t :=
  {| train_data := data; root_dir := root_dir_;
     length := Datatypes.length data;
     transform := match transform_ with
                  | None => ToTensor
                  | Some f => f
                  end |}.

Definition __getitem__ (self : t) (index : Z) (rng : Rng)
  : result (View * View * Rng) :=
  img_paths <- py_index (train_data self) index ;;
  let img_paths := os_path_join (root_dir self) img_paths in
  img <- Image_open_RGB img_paths ;;
  let (img1, rng1) := transform self img rng in
  let (img2, rng2) := transform self img rng1 in
  ret (img1, img2, rng2).

Definition __len__ (self : t) : nat := length self.

End WithCollaborators.
End Clothing1M_Unlabeled_Dataset.

(** *** A small instance of the dataset collaborators: an image is its
    path, a view the image and the draw it was made with, the generator a
    counter; every file opens. *)
Definition demo_open (path : string) : result string := ret path.

Definition demo_transform (img : string) (rng : nat) : (string * nat) * nat :=
  ((img, rng), S rng).

(** A table of two rows, the second label beyond the 8-bit range. *)
Definition demo_read_csv (_ : string) : result (list (string * Z)) :=
  ret [("a.png"%string, 5%Z); ("b.png"%string, 128%Z)].

(** * Floating point, and the order among equal scores

    The definitions above compute with exact rationals and give equal
    scores the order of their indices.  The source runs on neither: a Python
    float is a binary64 number, the tensors of [accuracy] hold float32
    numbers, and [torch.topk] promises no order among equal scores, nor the
    same one for two values of [k].  The properties proved over the
    definitions above are those that depend on neither.  The definitions of
    this part follow the arithmetic and the library contract of the source,
    for the properties that do. *)

(** ** Binary floating point

    [round_to p q] is the number nearest to [q] among those with a
    significand of [p] bits, the one with the even significand when two are
    as near (roundTiesToEven of IEEE 754).  The exponent is not bounded: the
    result is the machine's whenever the machine's is zero or normal, that
    is neither subnormal nor infinite. *)

Definition pow2 (z : Z) : Q := 2 ^ z.

(** The exponent [e] with [2^e <= q < 2^(e+1)], for [q > 0]. *)
Definition binade (q : Q) : Z :=
  let e := (Z.log2 (Qnum q) - Z.log2 (Zpos (Qden q)))%Z in
  if Qle_bool (pow2 e) q then e else (e - 1)%Z.

Definition round_pos (p : Z) (q : Q) : Q :=
  let ulp := pow2 (binade q - p + 1) in
  inject_Z (round_half_even (q / ulp)) * ulp.

Definition round_to (p : Z) (q : Q) : Q :=
  match q ?= 0 with
  | Eq => 0
  | Gt => round_pos p q
  | Lt => - round_pos p (- q)
  end.

(** A Python float, and an entry of a float32 tensor. *)
Definition binary64 : Q -> Q := round_to 53.
Definition binary32 : Q -> Q := round_to 24.

(** [(1 + u)^m], and the bound [(1 + u)^m - 1] of the relative error that
    [m] roundings of relative error [u] can add up to. *)
Fixpoint growth (u : Q) (m : nat) : Q :=
  match m with
  | O => 1
  | S m' => (1 + u) * growth u m'
  end.

Definition gamma (u : Q) (m : nat) : Q := growth u m - 1.

(** A binary64 number that is zero or well inside the normal range. *)
Definition moderate_double (v : Q) : Prop :=
  binary64 v == v /\ (v == 0 \/ pow2 (-500) <= Qabs v <= pow2 500).

(** ** torch.topk, whatever it does with equal scores

    [select t k i] stands for row [i] of the indices
    [t.topk(k, 1, True, True)] returns.  The library's contract: the
    indices of [k] entries of the row, each once, no entry left out is
    larger than one taken, and the entries taken come in descending order.
    Which of several equal entries are taken, and in which order, is the
    library's choice; it may depend on [k] and on the whole tensor. *)
Definition topk_contract (select : tensor2 Q -> nat -> nat -> list nat) : Prop :=
  forall (t : tensor2 Q) (k i : nat),
    (k <= ncols t)%nat -> (i < nrows t)%nat ->
    length (select t k i) = k
    /\ NoDup (select t k i)
    /\ (forall x, In x (select t k i) -> (x < ncols t)%nat)
    /\ (forall a b, (a <= b < k)%nat ->
          at_ t i (nth b (select t k i) 0%nat)
          <= at_ t i (nth a (select t k i) 0%nat))
    /\ (forall x y, In x (select t k i) -> (y < ncols t)%nat ->
          ~ In y (select t k i) -> at_ t i y <= at_ t i x).

(** One selection within the contract: the first [k] classes of the
    descending sort, the smaller index first among equal scores. *)
Definition sorted_select (t : tensor2 Q) (k i : nat) : list nat :=
  firstn k (argsort_desc (at_ t i) (ncols t)).

Module Rounded.

(** *** accuracy *)

Section Accuracy.

(** Rounding to a Python float and to float32. *)
Variables double single : Q -> Q.

Variable select : tensor2 Q -> nat -> nat -> list nat.

Definition topk (t : tensor2 Q) (k : nat) : result (tensor2 nat) :=
  if (ncols t <? k)%nat then raise RuntimeError
  else ret {| nrows := nrows t; ncols := k;
              at_ := fun i r => nth r (select t k i) 0%nat |}.

(** [100.0 / batch_size]: a Python float. *)
Definition percent_unit (batch_size : nat) : result Q :=
  if (batch_size =? 0)%nat then raise ZeroDivisionError
  else ret (double (100 / Q_of_nat batch_size)).

(** The body of [for k in topk].  [correct_k] is a float32 tensor of one
    entry, the number of true entries of [correct[:k]] (exactly, up to
    [2^24] of them); [mul_] multiplies it in place by the Python float,
    converted to float32. *)
Fixpoint accuracy_loop (correct : tensor2 bool) (batch_size : nat)
  (topk_ : list nat) : result (list Q) :=
  match topk_ with
  | [] => ret []
  | k :: topk' =>
      let correct_k := count_true (take_rows k correct) in
      u <- percent_unit batch_size ;;
      res <- accuracy_loop correct batch_size topk' ;;
      ret (single (Q_of_nat correct_k * single u) :: res)
  end.

Definition accuracy (output : tensor2 Q) (target : list Z) (topk_ : list nat)
  : result (list Q) :=
  match topk_ with
  | [] => raise ValueError
  | _ :: _ =>
      let maxk := list_max topk_ in
      let batch_size := length target in
      pred <- topk output maxk ;;
      let pred := transpose pred in
      other <- expand_as target pred ;;
      let correct := tensor_eq pred other in
      accuracy_loop correct batch_size topk_
  end.

(** The number of examples whose label is among the first [k] of the
    [maxk] classes selected for them. *)
Definition picked (output : tensor2 Q) (target : list Z) (maxk k : nat) : nat :=
  length (filter (fun j => existsb (fun x => (Z.of_nat x =? nth j target 0%Z)%Z)
                                   (firstn k (select output maxk j)))
                 (seq 0 (nrows output))).

End Accuracy.

(** *** Python numbers and 0-dim float32 tensors *)

(** A Python number is an [int], of any size, or a [float]. *)
Inductive py : Type :=
| PyInt (z : Z)
| PyFloat (q : Q).

(** What a meter is handed and holds: a Python number ([loss.item()], the
    initial 0) or a 0-dim float32 tensor ([acc1[0]]). *)
Inductive scalar : Type :=
| Py (x : py)
| Tensor (q : Q).

Inductive quotient : Type :=
| Finite (x : scalar)
| PosInf
| NegInf
| NaN.

Definition py_value (x : py) : Q :=
  match x with PyInt z => inject_Z z | PyFloat q => q end.

Definition value (x : scalar) : Q :=
  match x with Py p => py_value p | Tensor q => q end.

Definition py_is_zero (x : py) : bool := Qeq_bool (py_value x) 0.

(** *** AverageMeter *)

Record AverageMeter : Type := mkAverageMeter {
  name : string;
  fmt : string;
  val : scalar;
  avg : quotient;
  sum : scalar;
  count : py
}.

Definition reset (self : AverageMeter) : AverageMeter :=
  {| name := name self; fmt := fmt self;
     val := Py (PyInt 0); avg := Finite (Py (PyInt 0));
     sum := Py (PyInt 0); count := PyInt 0 |}.

Definition AverageMeter_init (name fmt : string) : AverageMeter :=
  reset {| name := name; fmt := fmt;
           val := Py (PyInt 0); avg := Finite (Py (PyInt 0));
           sum := Py (PyInt 0); count := PyInt 0 |}.

Section Arithmetic.

Variables double single : Q -> Q.

(** [x / c] for a float32 tensor [x] and a Python number of float32 value
    [c], not zero.  The kernel is the device's: the CPU divides, CUDA
    multiplies by the reciprocal of [c]. *)
Variable tensor_div : Q -> Q -> Q.

(** [float(x)]; an int past the largest float, for which Python raises
    [OverflowError], is outside the embedding. *)
Definition to_float (x : py) : Q :=
  match x with PyInt z => double (inject_Z z) | PyFloat q => q end.

(** Two ints are added and multiplied exactly; a float makes the other
    operand one, and the result is rounded. *)
Definition py_add (a b : py) : py :=
  match a, b with
  | PyInt x, PyInt y => PyInt (x + y)
  | _, _ => PyFloat (double (to_float a + to_float b))
  end.

Definition py_mul (a b : py) : py :=
  match a, b with
  | PyInt x, PyInt y => PyInt (x * y)
  | _, _ => PyFloat (double (to_float a * to_float b))
  end.

(** [a / b]: the quotient of two ints is the float nearest to it. *)
Definition py_div (a b : py) : result py :=
  if py_is_zero b then raise ZeroDivisionError
  else match a, b with
       | PyInt x, PyInt y => ret (PyFloat (double (inject_Z x / inject_Z y)))
       | _, _ => ret (PyFloat (double (to_float a / to_float b)))
       end.

(** A Python number next to a float32 tensor is converted to float32. *)
Definition to_single (x : py) : Q := single (py_value x).

(** [v * n], [a + b] and [s / c], with [n] and [c] Python numbers. *)
Definition mul (v : scalar) (n : py) : scalar :=
  match v with
  | Py x => Py (py_mul x n)
  | Tensor x => Tensor (single (x * to_single n))
  end.

Definition add (a b : scalar) : scalar :=
  match a, b with
  | Py x, Py y => Py (py_add x y)
  | Py x, Tensor y => Tensor (single (to_single x + y))
  | Tensor x, Py y => Tensor (single (x + to_single y))
  | Tensor x, Tensor y => Tensor (single (x + y))
  end.

Definition div (s : scalar) (c : py) : result quotient :=
  match s with
  | Py x => q <- py_div x c ;; ret (Finite (Py q))
  | Tensor x =>
      if py_is_zero c then
        match x ?= 0 with
        | Gt => ret PosInf
        | Lt => ret NegInf
        | Eq => ret NaN
        end
      else ret (Finite (Tensor (tensor_div x (to_single c))))
  end.

(** [update(val, n)], the meter returned together with the exception of
    the division, if any. *)
Definition update (self : AverageMeter) (v : scalar) (n : py)
  : AverageMeter * option exn :=
  let sum' := add (sum self) (mul v n) in
  let count' := py_add (count self) n in
  match div sum' count' with
  | inl e =>
      ({| name := name self; fmt := fmt self;
          val := v; avg := avg self; sum := sum'; count := count' |}, Some e)
  | inr a =>
      ({| name := name self; fmt := fmt self;
          val := v; avg := a; sum := sum'; count := count' |}, None)
  end.

Fixpoint updates (self : AverageMeter) (l : list (scalar * py))
  : AverageMeter * option exn :=
  match l with
  | [] => (self, None)
  | (v, n) :: l' =>
      match update self v n with
      | (m, None) => updates m l'
      | (m, Some e) => (m, Some e)
      end
  end.

End Arithmetic.

End Rounded.

(** *** The counts the entries of [accuracy] lie between *)

(** The classes of a larger score than class [l], and the other classes
    of a score at least as large. *)
Definition above (s : nat -> Q) (c l : nat) : nat :=
  length (filter (fun j => negb (Qle_bool (s j) (s l))) (seq 0 c)).

Definition not_below (s : nat -> Q) (c l : nat) : nat :=
  length (filter (fun j => negb (j =? l)%nat && Qle_bool (s l) (s j)) (seq 0 c)).

(** The label is a class that every selection of [k] largest takes, and
    one that some selection takes. *)
Definition surely_among (s : nat -> Q) (c : nat) (label : Z) (k : nat) : bool :=
  (0 <=? label)%Z && (label <? Z.of_nat c)%Z
  && (not_below s c (Z.to_nat label) <? k)%nat.

Definition possibly_among (s : nat -> Q) (c : nat) (label : Z) (k : nat) : bool :=
  (0 <=? label)%Z && (label <? Z.of_nat c)%Z
  && (above s c (Z.to_nat label) <? k)%nat.

Definition hits_sure (output : tensor2 Q) (target : list Z) (k : nat) : nat :=
  length (filter (fun j => surely_among (at_ output j) (ncols output)
                                         (nth j target 0%Z) k)
                 (seq 0 (nrows output))).

Definition hits_possible (output : tensor2 Q) (target : list Z) (k : nat) : nat :=
  length (filter (fun j => possibly_among (at_ output j) (ncols output)
                                           (nth j target 0%Z) k)
                 (seq 0 (nrows output))).

(** No two classes of an example have the same score. *)
Definition rows_distinct (output : tensor2 Q) : Prop :=
  forall i j1 j2,
    (i < nrows output)%nat -> (j1 < ncols output)%nat -> (j2 < ncols output)%nat ->
    j1 <> j2 -> ~ at_ output i j1 == at_ output i j2.

(** Class [j] of example [i] scores above all the others. *)
Definition strict_max (t : tensor2 Q) (i j : nat) : Prop :=
  (j < ncols t)%nat
  /\ forall j', (j' < ncols t)%nat -> j' <> j -> at_ t i j' < at_ t i j.

(** *** Sample data *)

(** Forty-five examples of one class. *)
Definition scores_one_class : tensor2 Q :=
  {| nrows := 45; ncols := 1; at_ := fun _ _ => 0 |}.

Definition labels_one_class : list Z := repeat 0%Z 45.

(** The binary64 number nearest to one tenth. *)
Definition one_tenth : Q := binary64 (1 # 10).

(** Three updates by [0.1], of weight 1. *)
Definition three_tenths : list (Q * Z) := repeat (one_tenth, 1%Z) 3.

(** The unit roundoff of binary64, [2^-53]. *)
Definition u64 : Q := 1 # 9007199254740992.

(** The running sum after the updates [l], from [s]: every product is
    rounded, and every sum. *)
Fixpoint float_accumulate (s : Q) (l : list (Q * Z)) : Q :=
  match l with
  | [] => s
  | (v, n) :: l' =>
      float_accumulate (binary64 (s + binary64 (v * inject_Z n))) l'
  end.

(** A run of updates by Python floats with int weights: its weighted sum,
    the sum of its weighted magnitudes, and its total weight. *)
Definition float_updates (l : list (Q * Z)) : list (Rounded.scalar * Rounded.py) :=
  map (fun p => (Rounded.Py (Rounded.PyFloat (fst p)), Rounded.PyInt (snd p))) l.

Fixpoint float_weighted_sum (l : list (Q * Z)) : Q :=
  match l with
  | [] => 0
  | (v, n) :: l' => v * inject_Z n + float_weighted_sum l'
  end.

Fixpoint float_weighted_abs (l : list (Q * Z)) : Q :=
  match l with
  | [] => 0
  | (v, n) :: l' => Qabs v * inject_Z n + float_weighted_abs l'
  end.

Fixpoint int_total_weight (l : list (Q * Z)) : Z :=
  match l with
  | [] => 0
  | (_, n) :: l' => n + int_total_weight l'
  end.



(** Updates by [0.1], [0.2] and [0.3] of weight 1, and by [0.1], [0.7] and
    [0.1] of weight 3. *)
Definition tenths_up : list (Q * Z) :=
  [(binary64 (1 # 10), 1%Z); (binary64 (2 # 10), 1%Z); (binary64 (3 # 10), 1%Z)].

Definition tenths_by_three : list (Q * Z) :=
  [(binary64 (1 # 10), 3%Z); (binary64 (7 # 10), 3%Z); (binary64 (1 # 10), 3%Z)].

(** * Properties *)

(** ** AverageMeter *)

Lemma number_add_value (a b : number) :
  value (number_add a b) = value a + value b.
Proof. destruct a, b; reflexivity. Qed.

Lemma number_mul_value (a : number) (n : Q) :
  value (number_mul a n) = value a * n.
Proof. destruct a; reflexivity. Qed.

Lemma number_add_is_tensor (a b : number) :
  is_tensor (number_add a b) = is_tensor a || is_tensor b.
Proof. destruct a, b; reflexivity. Qed.

Lemma number_mul_is_tensor (a : number) (n : Q) :
  is_tensor (number_mul a n) = is_tensor a.
Proof. destruct a; reflexivity. Qed.

Lemma Qeq_bool_false_iff (x y : Q) : Qeq_bool x y = false <-> ~ x == y.
Proof.
  split.
  - apply Qeq_bool_neq.
  - intros H. destruct (Qeq_bool x y) eqn:E; [|reflexivity].
    apply Qeq_bool_eq in E. contradiction.
Qed.

(** Dividing by a nonzero count gives a finite scalar of the same kind. *)
Lemma number_div_nonzero (s : number) (c : Q) :
  ~ c == 0 ->
  exists x, number_div s c = inr (Finite x)
            /\ value x = value s / c /\ is_tensor x = is_tensor s.
Proof.
  intros Hc. apply Qeq_bool_false_iff in Hc.
  destruct s as [q|q]; unfold number_div; rewrite Hc; eexists; repeat split.
Qed.


Lemma update_fields (m : AverageMeter) (v : number) (n : Q) :
  let m' := fst (update m v n) in
  name m' = name m /\ fmt m' = fmt m /\ val m' = v
  /\ sum m' = number_add (sum m) (number_mul v n)
  /\ count m' = count m + n.
Proof.
  unfold update. destruct (number_div _ _); cbn; repeat split.
Qed.

Lemma update_nonzero (m : AverageMeter) (v : number) (n : Q) :
  ~ count m + n == 0 ->
  exists x,
    update m v n
    = ({| name := name m; fmt := fmt m; val := v; avg := Finite x;
          sum := number_add (sum m) (number_mul v n);
          count := count m + n |}, None)
    /\ value x = (value (sum m) + value v * n) / (count m + n)
    /\ is_tensor x = is_tensor (sum m) || is_tensor v.
Proof.
  intros Hc.
  destruct (number_div_nonzero (number_add (sum m) (number_mul v n)) _ Hc)
    as (x & Hx & Hv & Ht).
  exists x. unfold update. rewrite Hx.
  rewrite number_add_value, number_mul_value in Hv.
  rewrite number_add_is_tensor, number_mul_is_tensor in Ht.
  repeat split; assumption.
Qed.

(** [update] raises nothing but [ZeroDivisionError]. *)
Lemma update_raises_only_zero_division (m : AverageMeter) (v : number) (n : Q)
  (e : exn) :
  snd (update m v n) = Some e -> e = ZeroDivisionError.
Proof.
  unfold update, number_div.
  destruct (number_add (sum m) (number_mul v n)) as [q|q];
    destruct (Qeq_bool (count m + n) 0); cbn; try discriminate.
  - now intros [= <-].
  - destruct (q ?= 0); discriminate.
Qed.




(** ** The descending order of scores *)

Section Ranking.

Variable s : nat -> Q.

Lemma outranks_irrefl (i : nat) : outranks s i i = false.
Proof.
  unfold outranks.
  assert (E : (s i ?= s i) = Eq) by (apply Qeq_alt; reflexivity).
  rewrite E. apply Nat.ltb_irrefl.
Qed.

Lemma outranks_asym (i j : nat) :
  outranks s i j = true -> outranks s j i = false.
Proof.
  unfold outranks. rewrite <- (Qcompare_antisym (s i) (s j)).
  destruct (s i ?= s j); cbn; try discriminate; try reflexivity.
  intros H. apply Nat.ltb_lt in H. apply Nat.ltb_ge. lia.
Qed.

Lemma outranks_total (i j : nat) :
  i <> j -> outranks s i j = false -> outranks s j i = true.
Proof.
  unfold outranks. rewrite <- (Qcompare_antisym (s i) (s j)).
  destruct (s i ?= s j); cbn; try discriminate; try reflexivity.
  intros Hij H. apply Nat.ltb_ge in H. apply Nat.ltb_lt. lia.
Qed.

Lemma outranks_trans (i j k : nat) :
  outranks s i j = true -> outranks s j k = true -> outranks s i k = true.
Proof.
  unfold outranks.
  destruct (Qcompare_spec (s i) (s j)) as [Eij|Lij|Gij]; try discriminate;
    destruct (Qcompare_spec (s j) (s k)) as [Ejk|Ljk|Gjk]; try discriminate;
    intros Hij Hjk.
  - assert (E : (s i ?= s k) = Eq) by (apply Qeq_alt; now rewrite Eij).
    rewrite E. apply Nat.ltb_lt in Hij, Hjk. apply Nat.ltb_lt. lia.
  - assert (E : (s i ?= s k) = Gt) by (apply Qgt_alt; now rewrite Eij).
    now rewrite E.
  - assert (E : (s i ?= s k) = Gt) by (apply Qgt_alt; now rewrite <- Ejk).
    now rewrite E.
  - assert (E : (s i ?= s k) = Gt)
      by (apply Qgt_alt; now apply Qlt_trans with (s j)).
    now rewrite E.
Qed.

Lemma insert_desc_perm (i : nat) (l : list nat) :
  Permutation (insert_desc s i l) (i :: l).
Proof.
  induction l as [|j l IH]; cbn.
  - apply Permutation_refl.
  - destruct (outranks s i j).
    + apply Permutation_refl.
    + apply perm_trans with (j :: i :: l).
      * now apply perm_skip.
      * apply perm_swap.
Qed.

Lemma insert_desc_sorted (i : nat) (l : list nat) :
  ~ In i l -> StronglySorted (before s) l ->
  StronglySorted (before s) (insert_desc s i l).
Proof.
  intros Hi Hl. induction Hl as [|j l Hl IH Hj]; cbn.
  - constructor; [constructor|constructor].
  - destruct (outranks s i j) eqn:E.
    + constructor.
      * now constructor.
      * constructor; [exact E|].
        rewrite Forall_forall in *. intros x Hx.
        apply outranks_trans with j; [exact E|now apply Hj].
    + constructor.
      * apply IH. intros H. apply Hi. now right.
      * assert (Hji : before s j i).
        { apply outranks_total; [|exact E]. intros ->. apply Hi. now left. }
        rewrite Forall_forall in *. intros x Hx.
        apply (Permutation_in _ (insert_desc_perm i l)) in Hx.
        destruct Hx as [<-|Hx]; [exact Hji|now apply Hj].
Qed.

Lemma argsort_desc_perm (c : nat) :
  Permutation (argsort_desc s c) (seq 0 c).
Proof.
  unfold argsort_desc. induction (seq 0 c) as [|i l IH]; cbn.
  - apply perm_nil.
  - apply perm_trans with (i :: fold_right (insert_desc s) [] l).
    + apply insert_desc_perm.
    + now apply perm_skip.
Qed.

Lemma argsort_desc_sorted (c : nat) :
  StronglySorted (before s) (argsort_desc s c).
Proof.
  unfold argsort_desc.
  assert (Hnd : NoDup (seq 0 c)) by apply seq_NoDup.
  induction Hnd as [|i l Hi Hnd IH]; cbn.
  - constructor.
  - apply insert_desc_sorted; [|exact IH].
    intros H. apply Hi.
    assert (P : Permutation (fold_right (insert_desc s) [] l) l).
    { clear. induction l as [|j l IH]; cbn; [apply perm_nil|].
      apply perm_trans with (j :: fold_right (insert_desc s) [] l);
        [apply insert_desc_perm|now apply perm_skip]. }
    apply (Permutation_in _ P H).
Qed.

Lemma argsort_desc_length (c : nat) : length (argsort_desc s c) = c.
Proof.
  rewrite (Permutation_length (argsort_desc_perm c)). apply length_seq.
Qed.

Lemma argsort_desc_In (c x : nat) : In x (argsort_desc s c) <-> (x < c)%nat.
Proof.
  split; intros H.
  - apply (Permutation_in _ (argsort_desc_perm c)) in H.
    apply in_seq in H. lia.
  - apply (Permutation_in _ (Permutation_sym (argsort_desc_perm c))).
    apply in_seq. lia.
Qed.

Lemma argsort_desc_NoDup (c : nat) : NoDup (argsort_desc s c).
Proof.
  apply (Permutation_NoDup (Permutation_sym (argsort_desc_perm c))).
  apply seq_NoDup.
Qed.

Lemma filter_length_perm (f : nat -> bool) (l l' : list nat) :
  Permutation l l' -> length (filter f l) = length (filter f l').
Proof.
  induction 1 as [|x l l' _ IH|x y l|l l' l'' _ IH1 _ IH2]; cbn.
  - reflexivity.
  - destruct (f x); cbn; congruence.
  - destruct (f x), (f y); reflexivity.
  - congruence.
Qed.

(** In a sorted list, an element is among the first [k] exactly when
    fewer than [k] elements come before it. *)
Lemma sorted_firstn_iff (l : list nat) :
  StronglySorted (before s) l ->
  forall x k, In x l ->
    (In x (firstn k l)
     <-> (length (filter (fun j => outranks s j x) l) < k)%nat).
Proof.
  induction 1 as [|a l Hl IH Ha]; intros x k Hx; [destruct Hx|].
  rewrite Forall_forall in Ha.
  destruct (Nat.eq_dec a x) as [->|Hax].
  - cbn [filter]. rewrite outranks_irrefl.
    assert (E : filter (fun j => outranks s j x) l = []).
    { clear -Ha. induction l as [|b l IH]; cbn; [reflexivity|].
      rewrite outranks_asym by (apply Ha; now left).
      apply IH. intros y Hy. apply Ha. now right. }
    rewrite E. destruct k; cbn; [lia|]. split; [lia|now left].
  - destruct Hx as [Hx|Hx]; [contradiction|].
    cbn [filter]. rewrite (Ha x Hx : outranks s a x = true).
    destruct k; cbn [firstn length].
    + split; [intros []|lia].
    + specialize (IH x k Hx). split.
      * intros [E|H]; [contradiction|]. apply IH in H. lia.
      * intros H. right. apply IH. lia.
Qed.

(** The label's class is among the first [k] of the sorted classes exactly
    when [among_topk] says so. *)
Lemma among_topk_spec (c : nat) (label : Z) (k : nat) :
  among_topk s c label k = true
  <-> exists x, Z.of_nat x = label /\ In x (firstn k (argsort_desc s c)).
Proof.
  unfold among_topk, rank.
  rewrite !andb_true_iff, Z.leb_le, Z.ltb_lt, Nat.ltb_lt.
  split.
  - intros [[H0 Hc] Hr]. exists (Z.to_nat label). split; [lia|].
    apply sorted_firstn_iff.
    + apply argsort_desc_sorted.
    + apply argsort_desc_In. lia.
    + now rewrite (filter_length_perm _ _ _ (argsort_desc_perm c)).
  - intros (x & <- & Hx).
    assert (Hin : In x (argsort_desc s c)).
    { rewrite <- (firstn_skipn k). apply in_or_app. now left. }
    pose proof (proj1 (argsort_desc_In c x) Hin) as Hlt.
    repeat split; try lia.
    rewrite Nat2Z.id.
    rewrite <- (filter_length_perm _ _ _ (argsort_desc_perm c)).
    apply sorted_firstn_iff;
      [apply argsort_desc_sorted|exact Hin|exact Hx].
Qed.

End Ranking.

(** ** Counting the correct predictions *)

Lemma list_sum_cons (x : nat) (l : list nat) :
  list_sum (x :: l) = (x + list_sum l)%nat.
Proof. reflexivity. Qed.

Lemma list_sum_zero {A : Type} (l : list A) :
  list_sum (map (fun _ => 0%nat) l) = 0%nat.
Proof. induction l as [|a l IH]; [reflexivity|exact IH]. Qed.

Lemma list_sum_plus {A : Type} (f g : A -> nat) (l : list A) :
  list_sum (map (fun x => f x + g x)%nat l)
  = (list_sum (map f l) + list_sum (map g l))%nat.
Proof.
  induction l as [|a l IH]; [reflexivity|].
  cbn [map]. rewrite !list_sum_cons, IH. lia.
Qed.

Lemma list_sum_swap {A B : Type} (f : A -> B -> nat) (la : list A) (lb : list B) :
  list_sum (map (fun a => list_sum (map (f a) lb)) la)
  = list_sum (map (fun b => list_sum (map (fun a => f a b) la)) lb).
Proof.
  induction la as [|a la IH]; cbn [map].
  - now rewrite list_sum_zero.
  - rewrite list_sum_cons, IH.
    rewrite <- list_sum_plus. reflexivity.
Qed.

Lemma list_sum_indicator {A : Type} (f : A -> bool) (l : list A) :
  list_sum (map (fun x => if f x then 1 else 0)%nat l) = length (filter f l).
Proof.
  induction l as [|a l IH]; [reflexivity|].
  cbn [map filter]. rewrite list_sum_cons, IH.
  destruct (f a); reflexivity.
Qed.

Lemma map_nth_seq {A : Type} (d : A) (l : list A) (k : nat) :
  (k <= length l)%nat -> map (fun r => nth r l d) (seq 0 k) = firstn k l.
Proof.
  revert k. induction l as [|a l IH]; intros k Hk; cbn in Hk.
  - assert (k = 0)%nat as -> by lia. reflexivity.
  - destruct k as [|k]; [reflexivity|].
    cbn [seq firstn map nth]. f_equal.
    rewrite <- seq_shift, map_map. apply IH. lia.
Qed.

(** Among distinct classes at most one is the label. *)
Lemma list_sum_match_NoDup (t : Z) (l : list nat) :
  NoDup l ->
  list_sum (map (fun x => if (Z.of_nat x =? t)%Z then 1 else 0)%nat l)
  = if existsb (fun x => (Z.of_nat x =? t)%Z) l then 1%nat else 0%nat.
Proof.
  induction 1 as [|a l Ha Hl IH]; [reflexivity|].
  cbn [map existsb]. rewrite list_sum_cons, IH.
  destruct (Z.of_nat a =? t)%Z eqn:E; cbn [orb]; [|reflexivity].
  destruct (existsb _ l) eqn:Ex; [|reflexivity].
  exfalso. apply existsb_exists in Ex. destruct Ex as (x & Hx & Hxt).
  apply Z.eqb_eq in E, Hxt. apply Ha.
  assert (a = x) as -> by lia. exact Hx.
Qed.

Lemma NoDup_firstn {A : Type} (k : nat) (l : list A) :
  NoDup l -> NoDup (firstn k l).
Proof.
  intros H. revert k. induction H as [|a l Ha Hl IH]; intros [|k]; cbn;
    try constructor.
  - intros Hin. apply Ha. rewrite <- (firstn_skipn k l).
    apply in_or_app. now left.
  - apply IH.
Qed.

(** For one example: the number of the first [k] predictions that equal
    the label is 1 when the label is among the top [k], and 0 otherwise. *)
Lemma row_matches (s : nat -> Q) (c k : nat) (t : Z) :
  (k <= c)%nat ->
  list_sum (map (fun i =>
     if (Z.of_nat (nth i (argsort_desc s c) 0%nat) =? t)%Z then 1 else 0)%nat
     (seq 0 k))
  = if among_topk s c t k then 1%nat else 0%nat.
Proof.
  intros Hk.
  rewrite <- (map_map (fun i => nth i (argsort_desc s c) 0%nat)
                      (fun x => if (Z.of_nat x =? t)%Z then 1 else 0)%nat).
  rewrite map_nth_seq by (rewrite argsort_desc_length; exact Hk).
  rewrite list_sum_match_NoDup
    by (apply NoDup_firstn, argsort_desc_NoDup).
  assert (E : existsb (fun x => (Z.of_nat x =? t)%Z)
                (firstn k (argsort_desc s c)) = among_topk s c t k).
  { apply eq_true_iff_eq. rewrite among_topk_spec, existsb_exists.
    split; intros (x & H1 & H2); exists x.
    - apply Z.eqb_eq in H2. now split.
    - split; [exact H2|now apply Z.eqb_eq]. }
  now rewrite E.
Qed.

Lemma count_true_hits (output : tensor2 Q) (target : list Z) (maxk k : nat) :
  (k <= maxk)%nat -> (maxk <= ncols output)%nat ->
  count_true (take_rows k (correct_of output target maxk))
  = hits output target k.
Proof.
  intros Hk Hmax. unfold count_true, hits. cbn.
  rewrite Nat.min_l by exact Hk.
  rewrite list_sum_swap.
  rewrite <- list_sum_indicator. f_equal.
  apply map_ext. intros j.
  apply (row_matches (at_ output j) (ncols output) k (nth j target 0%Z)).
  lia.
Qed.

Lemma accuracy_loop_ok (correct : tensor2 bool) (batch_size : nat)
  (ks : list nat) :
  batch_size <> 0%nat ->
  accuracy_loop correct batch_size ks
  = inr (map (fun k => Q_of_nat (count_true (take_rows k correct))
                       * (100 / Q_of_nat batch_size)) ks).
Proof.
  intros Hb. induction ks as [|k ks IH]; cbn; [reflexivity|].
  rewrite IH. unfold percent_unit.
  apply Nat.eqb_neq in Hb. rewrite Hb. reflexivity.
Qed.

Lemma list_max_ge (ks : list nat) (k : nat) :
  In k ks -> (k <= list_max ks)%nat.
Proof.
  intros H. pose proof (proj1 (list_max_le ks (list_max ks)) (Nat.le_refl _)) as F.
  rewrite Forall_forall in F. now apply F.
Qed.

(** What [accuracy] returns on a non-empty batch for a non-empty [topk]
    within the number of classes: per [k], the number of examples whose
    label is among the top [k], times [100 / batch_size]. *)
Lemma accuracy_ok (output : tensor2 Q) (target : list Z) (ks : list nat) :
  ks <> [] ->
  Forall (fun k => (k <= ncols output)%nat) ks ->
  length target = nrows output ->
  nrows output <> 0%nat ->
  accuracy output target ks
  = inr (map (fun k => Q_of_nat (hits output target k)
                       * (100 / Q_of_nat (nrows output))) ks).
Proof.
  intros Hks Hle Hlen Hn.
  assert (Hmax : (list_max ks <= ncols output)%nat) by now apply list_max_le.
  unfold accuracy. destruct ks as [|k0 ks0] eqn:Eks; [congruence|].
  rewrite <- Eks in *. clear Hks.
  unfold topk. apply Nat.ltb_ge in Hmax as Hlt. rewrite Hlt. cbn [bind ret].
  unfold expand_as. cbn [ncols transpose nrows].
  rewrite Hlen, Nat.eqb_refl. cbn [bind ret].
  rewrite accuracy_loop_ok by exact Hn.
  f_equal. apply map_ext_in. intros k Hk.
  f_equal. f_equal.
  apply (count_true_hits output target (list_max ks) k);
    [now apply list_max_ge|exact Hmax].
Qed.

(** ** accuracy *)

Lemma Q_of_nat_nonneg (n : nat) : 0 <= Q_of_nat n.
Proof.
  unfold Q_of_nat. change 0 with (inject_Z 0). rewrite <- Zle_Qle. lia.
Qed.

Lemma Q_of_nat_le (a b : nat) : (a <= b)%nat -> Q_of_nat a <= Q_of_nat b.
Proof. intros H. unfold Q_of_nat. rewrite <- Zle_Qle. lia. Qed.

Lemma Q_of_nat_pos (n : nat) : n <> 0%nat -> 0 < Q_of_nat n.
Proof.
  intros H. unfold Q_of_nat. change 0 with (inject_Z 0). rewrite <- Zlt_Qlt. lia.
Qed.

Lemma Q_of_nat_nonzero (n : nat) : n <> 0%nat -> ~ Q_of_nat n == 0.
Proof.
  intros H E. apply Q_of_nat_pos in H. rewrite E in H.
  now apply Qlt_irrefl in H.
Qed.

Lemma percent_unit_nonneg (n : nat) : n <> 0%nat -> 0 <= 100 / Q_of_nat n.
Proof.
  intros H. apply Qlt_le_weak. apply Qlt_shift_div_l.
  - now apply Q_of_nat_pos.
  - reflexivity.
Qed.

Lemma filter_length_mono {A : Type} (f g : A -> bool) (l : list A) :
  (forall x, f x = true -> g x = true) ->
  (length (filter f l) <= length (filter g l))%nat.
Proof.
  intros H. induction l as [|a l IH]; cbn; [lia|].
  destruct (f a) eqn:E.
  - rewrite (H a E). cbn. lia.
  - destruct (g a); cbn; lia.
Qed.

Lemma filter_all {A : Type} (f : A -> bool) (l : list A) :
  (forall x, In x l -> f x = true) -> filter f l = l.
Proof.
  induction l as [|a l IH]; intros H; cbn; [reflexivity|].
  rewrite (H a (or_introl eq_refl)). f_equal. apply IH.
  intros x Hx. apply H. now right.
Qed.

Lemma percentage_bounds (h n : nat) :
  n <> 0%nat -> (h <= n)%nat ->
  0 <= Q_of_nat h * (100 / Q_of_nat n) <= 100.
Proof.
  intros Hn Hh. split.
  - apply Qmult_le_0_compat;
      [apply Q_of_nat_nonneg|now apply percent_unit_nonneg].
  - apply Qle_trans with (Q_of_nat n * (100 / Q_of_nat n)).
    + apply Qmult_le_compat_r;
        [now apply Q_of_nat_le|now apply percent_unit_nonneg].
    + assert (E : Q_of_nat n * (100 / Q_of_nat n) == 100)
        by (field; now apply Q_of_nat_nonzero).
      rewrite E. apply Qle_refl.
Qed.

(** C6.  When some requested [k] exceeds the number of classes, [accuracy]
    raises the error of [topk] and returns nothing. *)
Theorem accuracy_k_exceeds_classes (output : tensor2 Q) (target : list Z)
  (ks : list nat) (k : nat)
  (Hin : In k ks) (Hk : (ncols output < k)%nat) :
  accuracy output target ks = inl RuntimeError.
Proof.
  pose proof (list_max_ge ks k Hin) as Hmax.
  unfold accuracy. destruct ks as [|k0 ks0] eqn:E; [destruct Hin|].
  rewrite <- E in *. unfold topk.
  assert (Hlt : (ncols output <? list_max ks)%nat = true)
    by (apply Nat.ltb_lt; lia).
  rewrite Hlt. reflexivity.
Qed.

Lemma accuracy_k_exceeds_classes_witness :
  accuracy scores_distinct sample_labels [1; 3]%nat = inl RuntimeError.
Proof.
  apply (accuracy_k_exceeds_classes scores_distinct sample_labels [1; 3]%nat 3).
  - cbn. auto.
  - cbn. lia.
Defined.

(** The two scenarios of the specification. *)
Example accuracy_scenario_distinct :
  exists a1 a2,
    accuracy scores_distinct sample_labels [1; 2]%nat = inr [a1; a2]
    /\ a1 == 100 /\ a2 == 100.
Proof. do 2 eexists. split; [reflexivity|]. split; reflexivity. Qed.

Example accuracy_scenario_same_top :
  exists a, accuracy scores_same_top sample_labels [1%nat] = inr [a] /\ a == 50.
Proof. eexists. split; reflexivity. Qed.

(** ** The epoch loops *)

Lemma update_or_raise_nonzero (m : AverageMeter) (v : number) (n : Q) :
  ~ count m + n == 0 ->
  exists m',
    update_or_raise m v n = inr m' /\ count m' = count m + n
    /\ exists x, avg m' = Finite x
                 /\ is_tensor x = is_tensor (sum m) || is_tensor v.
Proof.
  intros H. destruct (update_nonzero m v n H) as (x & Hu & _ & Ht).
  unfold update_or_raise. rewrite Hu. eexists. split; [reflexivity|].
  split; [reflexivity|]. exists x. split; [reflexivity|exact Ht].
Qed.

Lemma count_plus_pos_nonzero (c n : Q) : 0 <= c -> 0 < n -> ~ c + n == 0.
Proof.
  intros H Hn E.
  assert (H1 : 0 < c + n).
  { rewrite Qplus_comm. setoid_replace 0 with (0 + 0) by ring.
    now apply Qplus_lt_le_compat. }
  rewrite E in H1. now apply Qlt_irrefl in H1.
Qed.

Lemma count_plus_pos_nonneg (c n : Q) : 0 <= c -> 0 < n -> 0 <= c + n.
Proof.
  intros H Hn. setoid_replace 0 with (0 + 0) by ring.
  apply Qplus_le_compat; [exact H|now apply Qlt_le_weak].
Qed.

Lemma count_plus_one_nonzero (c : Q) : 0 <= c -> ~ c + 1 == 0.
Proof. intros H. now apply count_plus_pos_nonzero. Qed.

Section EpochProperties.

Context {Images World : Type}.
Variable shape : Images -> list nat.
Variable effect : call Images -> World -> World.
Variable logits : World -> bool -> Images -> tensor2 Q.
Variable loss_item : World -> bool -> tensor2 Q -> list Z -> Q.
Variable now : nat -> Q.
Variable stamp : nat -> string.

Lemma train_batch_log (amp : bool) (l : train_locals) (images : Images)
  (labels : list Z) (e : env Images World) :
  0 <= count (data_time l) ->
  exists evs,
    log (fst (train_batch shape effect logits loss_item now amp l
                          (images, labels) e)) = log e ++ evs
    /\ step_calls evs = 1%nat /\ batches_delivered evs = 1%nat
    /\ forall l',
        snd (train_batch shape effect logits loss_item now amp l
                         (images, labels) e) = inr l' ->
        0 <= count (data_time l').
Proof.
  intros Hc.
  destruct (update_or_raise_nonzero (data_time l)
              (PyNum (now (ticks e) - end_ l)) 1
              (count_plus_one_nonzero _ Hc)) as (dt & Hdt & Hcount & _).
  assert (Hdt0 : 0 <= count dt).
  { rewrite Hcount. setoid_replace 0 with (0 + 0) by ring.
    apply Qplus_le_compat; [exact Hc|discriminate]. }
  unfold train_batch, mbind, lift, emit, time_time, model_call, ceriation, mret.
  cbn -[accuracy unpack2 first_item_size0 update_or_raise].
  rewrite Hdt.
  destruct amp; cbn -[accuracy unpack2 first_item_size0 update_or_raise];
  repeat match goal with
  | |- context [match ?x with _ => _ end] => destruct x eqn:?
  end; cbn -[accuracy unpack2 first_item_size0 update_or_raise].
  all: eexists; split; [rewrite <- !app_assoc; reflexivity|].
  all: split; [reflexivity|]; split; [reflexivity|].
  all: intros l' Hl'; try discriminate.
  all: injection Hl' as <-; exact Hdt0.
Qed.

Lemma step_calls_app (a b : list (call Images)) :
  step_calls (a ++ b) = (step_calls a + step_calls b)%nat.
Proof. unfold step_calls. now rewrite filter_app, length_app. Qed.

Lemma batches_delivered_app (a b : list (call Images)) :
  batches_delivered (a ++ b)
  = (batches_delivered a + batches_delivered b)%nat.
Proof. unfold batches_delivered. now rewrite filter_app, length_app. Qed.

(** The loop of [train] asks for one parameter update per batch it is
    delivered, whether it ends normally or by an exception. *)
Lemma train_loop_log (amp : bool) (train_loader : list (Images * list Z)) :
  forall (l : train_locals) (e : env Images World),
    0 <= count (data_time l) ->
    exists evs,
      log (fst (train_loop shape effect logits loss_item now amp l
                           train_loader e)) = log e ++ evs
      /\ step_calls evs = batches_delivered evs
      /\ forall l',
          snd (train_loop shape effect logits loss_item now amp l
                          train_loader e) = inr l' ->
          batches_delivered evs = length train_loader.
Proof.
  induction train_loader as [|[images labels] rest IH]; intros l e Hc.
  - exists []. cbn. rewrite app_nil_r. repeat split.
  - destruct (train_batch_log amp l images labels e Hc)
      as (evs1 & Hlog1 & Hs1 & Hb1 & Hinv).
    cbn [train_loop]. unfold mbind.
    destruct (train_batch shape effect logits loss_item now amp l
                          (images, labels) e) as [e1 [x|l1]] eqn:E;
      cbn [fst snd] in *.
    + exists evs1. split; [exact Hlog1|]. split; [congruence|].
      intros l' Hl'. discriminate Hl'.
    + destruct (IH l1 e1 (Hinv l1 eq_refl)) as (evs2 & Hlog2 & Hs2 & Hb2).
      exists (evs1 ++ evs2). split; [|split].
      * rewrite Hlog2, Hlog1. symmetry. apply app_assoc.
      * rewrite step_calls_app, batches_delivered_app. lia.
      * intros l' Hl'. rewrite batches_delivered_app, (Hb2 l' Hl'), Hb1.
        reflexivity.
Qed.

Lemma train_batch_ok (amp : bool) (l : train_locals)
  (batch : Images * list Z) (e : env Images World) :
  accepted shape logits batch -> counts_nonneg l ->
  exists l',
    snd (train_batch shape effect logits loss_item now amp l batch e) = inr l'
    /\ counts_nonneg l'
    /\ exists x, avg (top1 l') = Finite x /\ is_tensor x = true.
Proof.
  destruct batch as [images labels].
  intros [Hlg (d0 & d1 & rest & Hsh)] (Hbt & Hdt & Hlo & Ht1).
  cbn [fst snd] in Hlg, Hsh.
  assert (Hd1 : 0 < Q_of_nat (S d1)) by (apply Q_of_nat_pos; discriminate).
  assert (H1 : 0 < 1) by reflexivity.
  unfold train_batch, mbind, lift, emit, time_time, model_call, ceriation, mret.
  cbn -[accuracy unpack2 first_item_size0 update_or_raise].
  rewrite Hsh. cbn [first_item_size0 Nat.eqb ret].
  destruct (update_or_raise_nonzero (data_time l)
              (PyNum (now (ticks e) - end_ l)) 1
              (count_plus_one_nonzero _ Hdt)) as (dt & Edt & Cdt & _).
  rewrite Edt.
  destruct amp; cbn -[accuracy unpack2 first_item_size0 update_or_raise].
  all: match goal with
       | |- context [accuracy (logits ?w ?ac ?im) ?t ?k] =>
           destruct (Hlg w ac) as (Hc5 & Hn0 & Hlen);
           rewrite (accuracy_ok (logits w ac im) t k);
             [|discriminate|repeat constructor; lia|exact Hlen|exact Hn0]
       end.
  all: cbn [unpack2 bind map ret fst snd].
  all: match goal with
       | |- context [update_or_raise (losses _) ?v ?n] =>
           destruct (update_or_raise_nonzero (losses l) v n
                       (count_plus_pos_nonzero _ _ Hlo Hd1))
             as (lo & Elo & Clo & _);
           rewrite Elo
       end.
  all: match goal with
       | |- context [update_or_raise (top1 _) ?v ?n] =>
           destruct (update_or_raise_nonzero (top1 l) v n
                       (count_plus_pos_nonzero _ _ Ht1 Hd1))
             as (t1 & Et1 & Ct1 & x & Hx & Hxt);
           rewrite Et1
       end.
  all: match goal with
       | |- context [update_or_raise (batch_time _) ?v ?n] =>
           destruct (update_or_raise_nonzero (batch_time l) v n
                       (count_plus_one_nonzero _ Hbt))
             as (bt & Ebt & Cbt & _);
           rewrite Ebt
       end.
  all: cbn [snd]; eexists; split; [reflexivity|]; cbn; split.
  all: try (exists x; split; [exact Hx|]; rewrite Hxt; apply orb_true_r).
  all: unfold counts_nonneg; cbn; rewrite Cbt, Cdt, Clo, Ct1;
    repeat split; now apply count_plus_pos_nonneg.
Qed.

Lemma train_loop_ok (amp : bool) (train_loader : list (Images * list Z)) :
  Forall (accepted shape logits) train_loader ->
  forall (l : train_locals) (e : env Images World),
    counts_nonneg l ->
    exists l',
      snd (train_loop shape effect logits loss_item now amp l
                      train_loader e) = inr l'
      /\ counts_nonneg l'
      /\ (train_loader <> [] ->
          exists x, avg (top1 l') = Finite x /\ is_tensor x = true).
Proof.
  induction 1 as [|batch rest Hb Hrest IH]; intros l e Hl.
  - exists l. cbn. repeat split; try apply Hl. congruence.
  - destruct (train_batch_ok amp l batch e Hb Hl) as (l1 & E1 & Hl1 & Hx1).
    cbn [train_loop]. unfold mbind.
    destruct (train_batch shape effect logits loss_item now amp l batch e)
      as [e1 r1]. cbn [snd] in E1. subst r1.
    destruct (IH l1 e1 Hl1) as (l' & E' & Hl' & Hx').
    exists l'. split; [exact E'|]. split; [exact Hl'|]. intros _.
    destruct rest as [|b rest']; [|apply Hx'; discriminate].
    cbn in E'. injection E' as <-. exact Hx1.
Qed.

(** On a non-empty loader of accepted batches [train] returns. *)
Lemma train_ok (train_loader : list (Images * list Z)) (epoch : Z)
  (amp : bool) (e : env Images World) :
  Forall (accepted shape logits) train_loader -> train_loader <> [] ->
  exists x,
    snd (train shape effect logits loss_item now stamp
               train_loader epoch amp e) = inr x.
Proof.
  intros Hacc Hne.
  unfold train, train_setup, mbind, getTime, emit, time_time, mret.
  cbn -[train_loop AverageMeter_init ProgressMeter_init].
  match goal with
  | |- context [train_loop _ _ _ _ _ _ ?l _ ?e0] =>
      destruct (train_loop_ok amp train_loader Hacc l e0) as
        (l1 & E1 & _ & Hx);
      [repeat split; cbn; apply Qle_refl|];
      destruct (train_loop shape effect logits loss_item now amp l
                           train_loader e0) as [e1 r1]
  end.
  cbn [snd] in E1. subst r1. destruct (Hx Hne) as (x & Hx1 & Hx2).
  unfold progress_display.
  destruct (display_line _ _ _); unfold print, mret, lift; rewrite Hx1;
    destruct x as [q|q]; try discriminate; cbn; eexists; reflexivity.
Qed.

Lemma train_log (train_loader : list (Images * list Z)) (epoch : Z)
  (amp : bool) (e : env Images World) :
  exists evs,
    log (fst (train shape effect logits loss_item now stamp
                    train_loader epoch amp e)) = log e ++ evs
    /\ step_calls evs = batches_delivered evs
    /\ forall x,
        snd (train shape effect logits loss_item now stamp
                   train_loader epoch amp e) = inr x ->
        batches_delivered evs = length train_loader.
Proof.
  unfold train, train_setup, mbind, getTime, emit, time_time, mret.
  cbn -[train_loop AverageMeter_init ProgressMeter_init].
  match goal with
  | |- context [train_loop _ _ _ _ _ _ ?l _ ?e0] =>
      destruct (train_loop_log amp train_loader l e0) as
        (evs & Hlog & Hs & Hb); [cbn; apply Qle_refl|];
      destruct (train_loop shape effect logits loss_item now amp l
                           train_loader e0) as [e1 [x|l1]]
  end; cbn [fst snd log] in *.
  - exists ([NewGradScaler; ModelTrain] ++ evs). split; [|split].
    + rewrite Hlog, <- !app_assoc. reflexivity.
    + rewrite step_calls_app, batches_delivered_app, Hs. reflexivity.
    + discriminate.
  - exists ([NewGradScaler; ModelTrain] ++ evs).
    assert (Hlog' : log (fst (progress_display
              (ProgressMeter_init (Z.of_nat (length train_loader))
                 [0; 1; 2; 3]%nat
                 (stamp (ticks e) ++ " Train Epoch: ["
                  ++ str_int (epoch + 1) ++ "]")%string) 0
              [batch_time l1; data_time l1; losses l1; top1 l1] e1))
            = log e1).
    { unfold progress_display. destruct (display_line _ _ _); reflexivity. }
    destruct (progress_display _ _ _ e1) as [e2 [x|[]]] eqn:Ed;
      cbn [fst snd] in *.
    + exfalso. unfold progress_display in Ed.
      destruct (display_line _ _ _); discriminate.
    + unfold lift. destruct (item (avg (top1 l1))); cbn [fst snd];
        (split; [|split]);
        try (rewrite Hlog', Hlog, <- !app_assoc; reflexivity);
        try (rewrite step_calls_app, batches_delivered_app, Hs; reflexivity);
        try discriminate.
      intros _ _. rewrite batches_delivered_app. cbn.
      now apply (Hb l1).
Qed.

Lemma evaluate_batch_log (l : AverageMeter * AverageMeter)
  (batch : Images * list Z) (e : env Images World) :
  exists evs,
    log (fst (evaluate_batch shape effect logits loss_item l batch e))
    = log e ++ evs
    /\ step_calls evs = 0%nat.
Proof.
  destruct batch as [images labels], l as [lo t1].
  unfold evaluate_batch, mbind, lift, emit, model_call, ceriation, mret.
  cbn -[accuracy unpack2 first_item_size0 update_or_raise].
  repeat match goal with
  | |- context [match ?x with _ => _ end] => destruct x eqn:?
  end; cbn -[accuracy unpack2 first_item_size0 update_or_raise].
  all: eexists; split; [rewrite <- !app_assoc; reflexivity|reflexivity].
Qed.

Lemma evaluate_loop_log (eva_loader : list (Images * list Z)) :
  forall (l : AverageMeter * AverageMeter) (e : env Images World),
  exists evs,
    log (fst (evaluate_loop shape effect logits loss_item l eva_loader e))
    = log e ++ evs
    /\ step_calls evs = 0%nat.
Proof.
  induction eva_loader as [|batch rest IH]; intros l e.
  - exists []. cbn. now rewrite app_nil_r.
  - destruct (evaluate_batch_log l batch e) as (evs1 & Hlog1 & Hs1).
    cbn [evaluate_loop]. unfold mbind.
    destruct (evaluate_batch shape effect logits loss_item l batch e)
      as [e1 [x|l1]]; cbn [fst snd] in *.
    + exists evs1. split; assumption.
    + destruct (IH l1 e1) as (evs2 & Hlog2 & Hs2).
      exists (evs1 ++ evs2). split.
      * rewrite Hlog2, Hlog1. symmetry. apply app_assoc.
      * rewrite step_calls_app. lia.
Qed.

Lemma evaluate_log (eva_loader : list (Images * list Z)) (prefix : string)
  (ignore : Z) (e : env Images World) :
  exists evs,
    log (fst (evaluate shape effect logits loss_item stamp
                       eva_loader prefix ignore e)) = log e ++ evs
    /\ step_calls evs = 0%nat.
Proof.
  unfold evaluate, mbind, emit, mret.
  cbn -[evaluate_loop AverageMeter_init].
  match goal with
  | |- context [evaluate_loop _ _ _ _ ?l _ ?e0] =>
      destruct (evaluate_loop_log eva_loader l e0) as (evs & Hlog & Hs);
      destruct (evaluate_loop shape effect logits loss_item l
                              eva_loader e0) as [e1 [x|l1]]
  end; cbn [fst snd log] in *.
  - exists (ModelEval :: evs). split.
    + rewrite Hlog, <- app_assoc. reflexivity.
    + change (ModelEval :: evs) with ([@ModelEval Images] ++ evs).
      rewrite step_calls_app, Hs. reflexivity.
  - exists (ModelEval :: evs).
    assert (Hs' : step_calls (ModelEval :: evs) = 0%nat).
    { change (ModelEval :: evs) with ([@ModelEval Images] ++ evs).
      rewrite step_calls_app, Hs. reflexivity. }
    assert (Hl : log e1 = log e ++ ModelEval :: evs).
    { rewrite Hlog, <- app_assoc. reflexivity. }
    unfold getTime, lift, print.
    destruct (String.eqb prefix ""); cbn [fst snd];
      destruct (item (avg (snd l1))); cbn [fst snd log];
      split; assumption.
Qed.

(** C3.  Whatever the collaborators, the loader and the path (plain or mixed
  precision), the calls [train] makes ask for a parameter update once per
  batch the loader delivered: exactly [B] times when [train] returns from
  a loader of [B] batches, which it does when the loader is not empty and
  its batches are accepted.  [evaluate] never asks for one. *)
Theorem optimizer_step_once_per_batch
(train_loader eva_loader : list (Images * list Z)) (epoch : Z) (amp : bool)
(prefix : string) (ignore : Z) (e : env Images World) :
(exists evs,
    log (fst (train shape effect logits loss_item now stamp
                    train_loader epoch amp e)) = log e ++ evs
    /\ step_calls evs = batches_delivered evs
    /\ forall x,
        snd (train shape effect logits loss_item now stamp
                   train_loader epoch amp e) = inr x ->
        step_calls evs = length train_loader)
/\ (Forall (accepted shape logits) train_loader -> train_loader <> [] ->
    exists x,
      snd (train shape effect logits loss_item now stamp
                 train_loader epoch amp e) = inr x)
/\ (exists evs,
       log (fst (evaluate shape effect logits loss_item stamp
                          eva_loader prefix ignore e)) = log e ++ evs
       /\ step_calls evs = 0%nat).
Proof.
split; [|split].
- destruct (train_log train_loader epoch amp e) as (evs & Hlog & Hs & Hb).
  exists evs. split; [exact Hlog|]. split; [exact Hs|].
  intros x Hx. rewrite Hs. now apply (Hb x).
- apply train_ok.
- apply evaluate_log.
Qed.

(** C9.  [evaluate] does not read [ignore]: two calls that differ in it
  only do the same and return the same pair. *)
Theorem evaluate_ignores_ignore
(eva_loader : list (Images * list Z)) (prefix : string)
(ignore1 ignore2 : Z) (e : env Images World) :
evaluate shape effect logits loss_item stamp eva_loader prefix ignore1 e
= evaluate shape effect logits loss_item stamp eva_loader prefix ignore2 e.
Proof. reflexivity. Qed.

End EpochProperties.

Lemma optimizer_step_once_per_batch_witness :
  exists x, snd (demo_train demo_loader true) = inr x.
Proof.
  apply (proj1 (proj2 (optimizer_step_once_per_batch
    demo_shape demo_effect demo_logits demo_loss_item demo_now demo_stamp
    demo_loader [] 0 true "" 0 demo_env))).
  - repeat constructor; cbn; try lia; try discriminate;
      do 3 eexists; reflexivity.
  - discriminate.
Defined.

(** Both paths on the sample loader of two batches: two requests for a
    parameter update; none from [evaluate]. *)
Example step_calls_on_demo_loader :
  step_calls (log (fst (demo_train demo_loader false))) = 2%nat
  /\ step_calls (log (fst (demo_train demo_loader true))) = 2%nat
  /\ step_calls (log (fst (demo_evaluate demo_loader 0))) = 0%nat.
Proof. split; [|split]; vm_compute; reflexivity. Qed.

(** With fewer than five classes [accuracy] raises in the first iteration,
    after the parameter update of that iteration. *)
Example train_aborts_below_five_classes :
  snd (demo_train [demo_batch_three_classes; demo_batch_of_one] false)
  = inl RuntimeError
  /\ step_calls
       (log (fst (demo_train [demo_batch_three_classes; demo_batch_of_one]
                             false))) = 1%nat.
Proof. split; vm_compute; reflexivity. Qed.

(** ** The weight of a batch in the meters *)

(** C4 fails on the code.  The weight handed to [losses.update] and
    [top1.update] is [images[0].size(0)], the first dimension of one image
    (3 for an RGB image), not the number of examples of the batch.  On the
    sample loader, a batch of two and a batch of one, both meters count 3
    per batch, and the averages [train] returns are the plain means over
    the batches, not the means weighted by the numbers of examples. *)
Theorem train_weighs_by_image_channels :
  first_item_size0 (demo_shape (fst demo_batch_of_two)) = inr 3%nat
  /\ length (snd demo_batch_of_two) = 2%nat
  /\ first_item_size0 (demo_shape (fst demo_batch_of_one)) = inr 3%nat
  /\ length (snd demo_batch_of_one) = 1%nat
  /\ exists a b,
      snd (demo_train demo_loader false) = inr (Finite (PyNum a), Finite (PyNum b))
      /\ a == weighted_sum [(PyNum 2, 3); (PyNum 1, 3)]
              / total_weight [(PyNum 2, 3); (PyNum 1, 3)]
      /\ ~ a == weighted_sum [(PyNum 2, 2); (PyNum 1, 1)]
                / total_weight [(PyNum 2, 2); (PyNum 1, 1)]
      /\ b == weighted_sum [(Tensor 50, 3); (Tensor 100, 3)]
              / total_weight [(Tensor 50, 3); (Tensor 100, 3)]
      /\ ~ b == weighted_sum [(Tensor 50, 2); (Tensor 100, 1)]
                / total_weight [(Tensor 50, 2); (Tensor 100, 1)].
Proof.
  do 4 (split; [reflexivity|]).
  do 2 eexists. split; [vm_compute; reflexivity|].
  split; [vm_compute; reflexivity|].
  split; [intros H; vm_compute in H; discriminate H|].
  split; [vm_compute; reflexivity|].
  intros H; vm_compute in H; discriminate H.
Qed.

(** ** ProgressMeter *)

Local Open Scope string_scope.

Lemma append_assoc (a b c : string) : (a ++ b) ++ c = a ++ b ++ c.
Proof. induction a as [|x a IH]; cbn; [reflexivity|now rewrite IH]. Qed.

Lemma length_append (a b : string) :
  String.length (a ++ b) = (String.length a + String.length b)%nat.
Proof. induction a as [|x a IH]; cbn; [reflexivity|now rewrite IH]. Qed.

Lemma length_fill (c : ascii) (n : nat) : String.length (fill c n) = n.
Proof. induction n as [|n IH]; cbn; [reflexivity|now rewrite IH]. Qed.

Lemma length_rjust (w : nat) (s : string) :
  String.length (rjust w s) = Nat.max w (String.length s).
Proof. unfold rjust. rewrite length_append, length_fill. lia. Qed.

Lemma rjust_own_width (s : string) : rjust (String.length s) s = s.
Proof. unfold rjust. now rewrite Nat.sub_diag. Qed.

Lemma concat_tab (x : string) (l : list string) :
  String.concat tab (x :: l) = x ++ flatten (map (append tab) l).
Proof.
  revert x. induction l as [|y l IH]; intros x.
  - cbn. induction x as [|c x IHx]; cbn; [reflexivity|now rewrite <- IHx].
  - change (String.concat tab (x :: y :: l))
      with (x ++ tab ++ String.concat tab (y :: l)).
    rewrite IH. cbn [map flatten fold_right].
    now rewrite append_assoc.
Qed.

Lemma meter_entries_Forall2 (live : list AverageMeter) (refs : list nat)
  (strs : list string) :
  Forall2 (fun r s => exists m, nth_error live r = Some m
                                /\ AverageMeter_str m = Some s) refs strs ->
  meter_entries live refs = Some strs.
Proof.
  induction 1 as [|r s refs strs (m & Hm & Hs) _ IH]; cbn; [reflexivity|].
  now rewrite Hm, Hs, IH.
Qed.

Lemma display_line_renders (num_batches batch : Z) (pre : string)
  (refs : list nat) (live : list AverageMeter) (strs : list string) :
  Forall2 (fun r s => exists m, nth_error live r = Some m
                                /\ AverageMeter_str m = Some s) refs strs ->
  display_line (ProgressMeter_init num_batches refs pre) batch live
  = Some (pre ++ "["
          ++ rjust (String.length (str_int num_batches)) (str_int batch)
          ++ "/" ++ str_int num_batches ++ "]"
          ++ flatten (map (append tab) strs)).
Proof.
  intros H. unfold display_line. cbn [meters prefix batch_fmtstr ProgressMeter_init].
  rewrite (meter_entries_Forall2 _ _ _ H), concat_tab.
  unfold batch_fmtstr_format, _get_batch_fmtstr, format_d.
  cbn [num_digits total_text]. rewrite Z.div_1_r, rjust_own_width.
  now rewrite !append_assoc.
Qed.

(** C5, with the padding the code has.  [display(batch)] prints one line:
    the prefix, then [[batch/total]] where the batch index is right-aligned
    in a field as wide as the total has characters, filled with spaces, not
    zeros, and never cut, then a tab and the rendering of each meter, in
    order.  The meters are left as they were.  With total 100, batch 7 and
    the meters [Loss] (avg 0.25) and [Acc@1] (avg 91.3) of format [:3.2f]
    the line is the prefix followed by [[  7/100]], [Loss 0.25] and
    [Acc@1 91.30], tab-separated. *)
Theorem display_renders (num_batches batch : Z) (pre : string)
  (refs : list nat) (live : list AverageMeter) (out strs : list string)
  (Hstr : Forall2 (fun r s => exists m, nth_error live r = Some m
                                        /\ AverageMeter_str m = Some s)
                  refs strs) :
  let w := String.length (str_int num_batches) in
  let field := fill " " (w - String.length (str_int batch)) ++ str_int batch in
  let line := pre ++ "[" ++ field ++ "/" ++ str_int num_batches ++ "]"
              ++ flatten (map (append tab) strs) in
  display (ProgressMeter_init num_batches refs pre) batch (live, out)
  = Some (live, (out ++ [line])%list)
  /\ String.length field = Nat.max w (String.length (str_int batch))
  /\ display_line (ProgressMeter_init 100 [0; 1]%nat pre) 7
       [sample_loss_meter; sample_acc_meter]
     = Some (pre ++ "[  7/100]" ++ tab ++ "Loss 0.25" ++ tab ++ "Acc@1 91.30").
Proof.
  intros w field line. split; [|split].
  - unfold display. cbn [fst snd].
    now rewrite (display_line_renders _ _ _ _ _ _ Hstr).
  - apply length_rjust.
  - rewrite (display_line_renders 100 7 pre [0; 1]%nat
               [sample_loss_meter; sample_acc_meter]
               ["Loss 0.25"; "Acc@1 91.30"]).
    + reflexivity.
    + repeat constructor; eexists; (split; [reflexivity|]);
        vm_compute; reflexivity.
Qed.

Lemma display_renders_witness :
  exists line,
    display (ProgressMeter_init 100 [0; 1]%nat "Test: ") 7
            ([sample_loss_meter; sample_acc_meter], [])
    = Some ([sample_loss_meter; sample_acc_meter], [line])
    /\ contains "[  7/100]" line = true
    /\ contains "Loss 0.25" line = true
    /\ contains "Acc@1 91.30" line = true.
Proof.
  eexists. split.
  - apply (proj1 (display_renders 100 7 "Test: " [0; 1]%nat
                    [sample_loss_meter; sample_acc_meter] []
                    ["Loss 0.25"; "Acc@1 91.30"]
                    ltac:(repeat constructor; eexists;
                          (split; [reflexivity|]); vm_compute; reflexivity))).
  - repeat split; vm_compute; reflexivity.
Defined.

(** C5 as stated fails: the batch index is padded with spaces, not with
    zeros. *)
Lemma display_pads_with_spaces :
  display_line (ProgressMeter_init 100 [0; 1]%nat "") 7
    [sample_loss_meter; sample_acc_meter]
  = Some ("[  7/100]" ++ tab ++ "Loss 0.25" ++ tab ++ "Acc@1 91.30")
  /\ display_line_zero_padded 100 "" 7 ["Loss 0.25"; "Acc@1 91.30"]
     = "[007/100]" ++ tab ++ "Loss 0.25" ++ tab ++ "Acc@1 91.30"
  /\ ~ (forall (num_batches batch : Z) (pre : string) (refs : list nat)
               (live : list AverageMeter) (strs : list string),
           Forall2 (fun r s => exists m, nth_error live r = Some m
                                         /\ AverageMeter_str m = Some s)
                   refs strs ->
           display_line (ProgressMeter_init num_batches refs pre) batch live
           = Some (display_line_zero_padded num_batches pre batch strs)).
Proof.
  split; [vm_compute; reflexivity|]. split; [vm_compute; reflexivity|].
  intros H.
  specialize (H 100%Z 7%Z "" [0; 1]%nat [sample_loss_meter; sample_acc_meter]
                ["Loss 0.25"; "Acc@1 91.30"]).
  assert (F : Forall2 (fun r s => exists m,
                nth_error [sample_loss_meter; sample_acc_meter] r = Some m
                /\ AverageMeter_str m = Some s)
              [0; 1]%nat ["Loss 0.25"; "Acc@1 91.30"]).
  { repeat constructor; eexists; (split; [reflexivity|]);
      vm_compute; reflexivity. }
  specialize (H F). vm_compute in H. discriminate H.
Qed.

(** The formats [train] gives its meters put more spaces between the name
    and the number. *)
Example display_with_train_format :
  AverageMeter_str
    (fst (update (AverageMeter_init "Loss" ":6.2f") (PyNum (1 # 4)) 1))
  = Some "Loss   0.25".
Proof. vm_compute. reflexivity. Qed.

Local Close Scope string_scope.

(** * Further properties of the code *)

(** ** accuracy: when it returns, and what it raises *)

Lemma accuracy_loop_length (correct : tensor2 bool) (batch_size : nat)
  (ks : list nat) (res : list Q) :
  accuracy_loop correct batch_size ks = inr res -> length res = length ks.
Proof.
  revert res. induction ks as [|k ks IH]; intros res; cbn.
  - now intros [= <-].
  - destruct (percent_unit batch_size) as [e|u]; cbn; [discriminate|].
    destruct (accuracy_loop correct batch_size ks) as [e|r]; cbn;
      [discriminate|].
    intros [= <-]. cbn. f_equal. now apply IH.
Qed.

Lemma accuracy_loop_empty_batch (correct : tensor2 bool) (ks : list nat) :
  ks <> [] -> accuracy_loop correct 0 ks = inl ZeroDivisionError.
Proof. destruct ks as [|k ks]; [congruence|reflexivity]. Qed.

(** The steps of [accuracy] once [max] and [topk] have passed. *)
Lemma accuracy_after_topk (output : tensor2 Q) (target : list Z)
  (ks : list nat) :
  ks <> [] -> (list_max ks <= ncols output)%nat ->
  accuracy output target ks
  = (let pred := transpose
       {| nrows := nrows output; ncols := list_max ks;
          at_ := fun i r =>
            nth r (argsort_desc (at_ output i) (ncols output)) 0%nat |} in
     other <- expand_as target pred ;;
     accuracy_loop (tensor_eq pred other) (length target) ks).
Proof.
  intros Hks Hmax. unfold accuracy.
  destruct ks as [|k0 ks0] eqn:E; [congruence|]. rewrite <- E in *.
  unfold topk. apply Nat.ltb_ge in Hmax. now rewrite Hmax.
Qed.

Lemma accuracy_returns_cases (output : tensor2 Q) (target : list Z)
  (ks : list nat) :
  ((exists res, accuracy output target ks = inr res)
   <-> ks <> []
       /\ Forall (fun k => (k <= ncols output)%nat) ks
       /\ (length target = nrows output \/ length target = 1%nat)
       /\ target <> [])
  /\ (forall res, accuracy output target ks = inr res ->
                  length res = length ks).
Proof.
  split.
  - split.
    + intros [res Hres].
      destruct ks as [|k0 ks0] eqn:E; [discriminate Hres|]. rewrite <- E in *.
      assert (Hks : ks <> []) by (rewrite E; discriminate).
      destruct (Nat.ltb (ncols output) (list_max ks)) eqn:Hlt.
      { unfold accuracy in Hres. rewrite E in Hres. rewrite <- E in Hres.
        unfold topk in Hres. rewrite Hlt in Hres. discriminate Hres. }
      apply Nat.ltb_ge in Hlt.
      rewrite (accuracy_after_topk _ _ _ Hks Hlt) in Hres. cbn zeta in Hres.
      unfold expand_as in Hres. cbn [ncols nrows transpose] in Hres.
      split; [exact Hks|]. split; [now apply list_max_le|].
      destruct target as [|t0 target'].
      { exfalso.
        destruct (Nat.eqb (length (@nil Z)) (nrows output)); cbn in Hres;
          try (rewrite (accuracy_loop_empty_batch _ _ Hks) in Hres;
               discriminate Hres).
        discriminate Hres. }
      split; [|discriminate].
      destruct (Nat.eqb_spec (length (t0 :: target')) (nrows output)) as [H|H];
        [now left|].
      destruct (Nat.eqb_spec (length (t0 :: target')) 1) as [H1|H1];
        [now right|].
      discriminate Hres.
    + intros (Hks & Hle & Hlen & Ht).
      assert (Hmax : (list_max ks <= ncols output)%nat) by now apply list_max_le.
      rewrite (accuracy_after_topk _ _ _ Hks Hmax). cbn zeta.
      assert (Hb : length target <> 0%nat)
        by (destruct target; [congruence|discriminate]).
      unfold expand_as. cbn [ncols nrows transpose].
      destruct (Nat.eqb_spec (length target) (nrows output)) as [H|H];
        cbn [bind ret].
      * rewrite accuracy_loop_ok by exact Hb. eexists. reflexivity.
      * destruct Hlen as [Hlen|Hlen]; [contradiction|].
        rewrite Hlen. cbn [Nat.eqb bind ret].
        rewrite accuracy_loop_ok by discriminate. eexists. reflexivity.
  - intros res Hres.
    destruct ks as [|k0 ks0] eqn:E; [discriminate Hres|]. rewrite <- E in *.
    unfold accuracy in Hres. rewrite E in Hres. rewrite <- E in Hres.
    destruct (topk output (list_max ks)) as [e|pred]; [discriminate Hres|].
    cbn [bind] in Hres.
    destruct (expand_as target (transpose pred)) as [e|other];
      [discriminate Hres|].
    cbn [bind] in Hres. now apply accuracy_loop_length in Hres.
Qed.

(** X1.  [accuracy] returns exactly when [topk] is not empty, no [k] exceeds the
    number of classes, and the labels are as many as the score vectors, or
    one label, but not none; it then returns one entry per [k]. *)
Theorem accuracy_returns_iff (output : tensor2 Q) (target : list Z)
  (ks : list nat) :
  ((exists res, accuracy output target ks = inr res)
   <-> ks <> []
       /\ Forall (fun k => (k <= ncols output)%nat) ks
       /\ (length target = nrows output \/ length target = 1%nat)
       /\ target <> [])
  /\ (forall res, accuracy output target ks = inr res ->
                  length res = length ks).
Proof. apply accuracy_returns_cases. Qed.

Lemma accuracy_returns_iff_witness :
  exists res, accuracy scores_same_top [1%Z] [1; 2]%nat = inr res.
Proof.
  apply (proj1 (accuracy_returns_iff scores_same_top [1%Z] [1; 2]%nat)).
  split; [discriminate|]. split; [repeat constructor|].
  split; [now right|discriminate].
Defined.

(** X2.  Labels that are neither as many as the score vectors nor a single one
    make [accuracy] raise, whatever the scores. *)
Theorem accuracy_label_count_mismatch (output : tensor2 Q) (target : list Z)
  (ks : list nat)
  (Hks : ks <> [])
  (Hle : Forall (fun k => (k <= ncols output)%nat) ks)
  (Hn : length target <> nrows output)
  (H1 : length target <> 1%nat) :
  accuracy output target ks = inl RuntimeError.
Proof.
  assert (Hmax : (list_max ks <= ncols output)%nat) by now apply list_max_le.
  rewrite (accuracy_after_topk _ _ _ Hks Hmax). cbn zeta.
  unfold expand_as. cbn [ncols nrows transpose].
  apply Nat.eqb_neq in Hn, H1. now rewrite Hn, H1.
Qed.

Lemma accuracy_label_count_mismatch_witness :
  accuracy scores_same_top [1; 0; 1]%Z [1%nat] = inl RuntimeError.
Proof.
  apply accuracy_label_count_mismatch.
  - discriminate.
  - repeat constructor.
  - discriminate.
  - discriminate.
Defined.

(** X3.  On a batch without examples [accuracy] raises [ZeroDivisionError], for
    every non-empty [topk] within the number of classes. *)
Theorem accuracy_empty_batch (output : tensor2 Q) (ks : list nat)
  (Hks : ks <> [])
  (Hle : Forall (fun k => (k <= ncols output)%nat) ks)
  (Hn : nrows output = 0%nat) :
  accuracy output [] ks = inl ZeroDivisionError.
Proof.
  assert (Hmax : (list_max ks <= ncols output)%nat) by now apply list_max_le.
  rewrite (accuracy_after_topk _ _ _ Hks Hmax). cbn zeta.
  unfold expand_as. cbn [ncols nrows transpose length]. rewrite Hn.
  cbn [Nat.eqb bind ret]. now apply accuracy_loop_empty_batch.
Qed.

Lemma accuracy_empty_batch_witness :
  accuracy scores_empty [] [1; 2]%nat = inl ZeroDivisionError.
Proof.
  apply accuracy_empty_batch.
  - discriminate.
  - repeat constructor.
  - reflexivity.
Defined.

(** ** accuracy reads the scores through their order only *)




Lemma list_sum_map_ext_in {A : Type} (f g : A -> nat) (l : list A) :
  (forall x, In x l -> f x = g x) -> list_sum (map f l) = list_sum (map g l).
Proof. intros H. f_equal. now apply map_ext_in. Qed.

Lemma count_true_ext (t1 t2 : tensor2 bool) :
  nrows t1 = nrows t2 -> ncols t1 = ncols t2 ->
  (forall i j, (i < nrows t1)%nat -> (j < ncols t1)%nat ->
               at_ t1 i j = at_ t2 i j) ->
  count_true t1 = count_true t2.
Proof.
  intros Hr Hc H. unfold count_true. rewrite <- Hr, <- Hc.
  apply list_sum_map_ext_in. intros i Hi. apply in_seq in Hi.
  apply list_sum_map_ext_in. intros j Hj. apply in_seq in Hj.
  rewrite H by lia. reflexivity.
Qed.

Lemma accuracy_loop_ext (c1 c2 : tensor2 bool) (batch_size : nat)
  (ks : list nat) :
  (forall k, count_true (take_rows k c1) = count_true (take_rows k c2)) ->
  accuracy_loop c1 batch_size ks = accuracy_loop c2 batch_size ks.
Proof.
  intros H. induction ks as [|k ks IH]; cbn [accuracy_loop]; [reflexivity|].
  now rewrite IH, H.
Qed.




(** ** accuracy with a single label *)

Lemma nth_repeat_lt {A : Type} (a d : A) (n j : nat) :
  (j < n)%nat -> nth j (repeat a n) d = a.
Proof.
  revert j. induction n as [|n IH]; intros j Hj; [lia|].
  destruct j as [|j]; cbn; [reflexivity|]. apply IH. lia.
Qed.

(** ** AverageMeter: order, bounds, composition, kinds *)

(** A run of updates can be cut anywhere: the second part continues from
    the meter the first part leaves, and is not run when the first part
    raises. *)
Theorem updates_app (m : AverageMeter) (l1 l2 : list (number * Q)) :
  updates m (l1 ++ l2)
  = match updates m l1 with
    | (m1, None) => updates m1 l2
    | (m1, Some e) => (m1, Some e)
    end.
Proof.
  revert m. induction l1 as [|[v n] l1 IH]; intros m; cbn [app updates].
  - reflexivity.
  - destruct (update m v n) as [m1 [e|]]; [reflexivity|apply IH].
Qed.

Lemma updates_kind (l : list (number * Q)) :
  Forall (fun p => 0 < snd p) l ->
  forall m0, 0 <= count m0 ->
  exists m,
    updates m0 l = (m, None)
    /\ is_tensor (sum m) = is_tensor (sum m0) || any_tensor l
    /\ (l <> [] ->
        exists x, avg m = Finite x /\ is_tensor x = is_tensor (sum m)).
Proof.
  induction 1 as [|[v n] l Hn Hl IH]; intros m0 H0.
  - exists m0. cbn. rewrite orb_false_r. repeat split. congruence.
  - cbn in Hn.
    destruct (update_nonzero m0 v n (count_plus_pos_nonzero _ _ H0 Hn))
      as (x & Hu & _ & Hx).
    cbn [updates]. rewrite Hu.
    set (m1 := {| name := name m0; fmt := fmt m0; val := v; avg := Finite x;
                  sum := number_add (sum m0) (number_mul v n);
                  count := count m0 + n |}) in *.
    destruct (IH m1) as (m & Hm & Hk & Ha).
    { cbn. now apply count_plus_pos_nonneg. }
    exists m. split; [exact Hm|].
    cbn in Hk. rewrite number_add_is_tensor, number_mul_is_tensor in Hk.
    split.
    + rewrite Hk. unfold any_tensor. cbn. now rewrite orb_assoc.
    + intros _. destruct l as [|p l'].
      * cbn in Hm. injection Hm as <-. exists x. split; [reflexivity|].
        cbn. now rewrite number_add_is_tensor, number_mul_is_tensor.
      * apply Ha. discriminate.
Qed.

(** X9.  The average of a meter is a tensor as soon as one value fed was one, and
    a Python number otherwise: reading it with [.item()], as [train] and
    [evaluate] read [top1.avg], raises [AttributeError] exactly when no
    tensor was fed, in particular when nothing was fed. *)
Theorem item_of_avg (nm f : string) (l : list (number * Q))
  (Hpos : Forall (fun p => 0 < snd p) l) :
  exists m,
    updates (AverageMeter_init nm f) l = (m, None)
    /\ (item (avg m) = inl AttributeError <-> any_tensor l = false)
    /\ (any_tensor l = true -> exists q, item (avg m) = inr (Finite (PyNum q))).
Proof.
  destruct (updates_kind l Hpos (AverageMeter_init nm f)) as (m & Hm & Hk & Ha);
    [cbn; apply Qle_refl|].
  exists m. split; [exact Hm|]. cbn in Hk.
  destruct l as [|p l'].
  - cbn in Hm. injection Hm as <-. cbn. repeat split; discriminate.
  - destruct Ha as (x & Hx & Hxk); [discriminate|].
    rewrite Hx. rewrite Hk in Hxk.
    destruct x as [q|q]; cbn [is_tensor sum AverageMeter_init reset orb] in Hxk;
      rewrite <- Hxk; cbn.
    + repeat split; discriminate.
    + split; [split; discriminate|]. intros _. eexists. reflexivity.
Qed.

Lemma item_of_avg_witness :
  exists m,
    updates (AverageMeter_init "Acc@1" ":3.2f") [(Tensor 50, 3)] = (m, None)
    /\ exists q, item (avg m) = inr (Finite (PyNum q)).
Proof.
  destruct (item_of_avg "Acc@1" ":3.2f" [(Tensor 50, 3)])
    as (m & Hm & _ & Hq).
  - repeat constructor.
  - exists m. split; [exact Hm|]. now apply Hq.
Defined.

(** ** The epoch loops: what they call, print and raise *)

Lemma accuracy_below_five_classes (output : tensor2 Q) (target : list Z) :
  (ncols output < 5)%nat ->
  accuracy output target [1; 5]%nat = inl RuntimeError.
Proof.
  intros H. unfold accuracy, topk. cbn [list_max fold_right Nat.max].
  apply Nat.ltb_lt in H. now rewrite H.
Qed.

Section EpochTraces.

Context {Images World : Type}.
Variable shape : Images -> list nat.
Variable effect : call Images -> World -> World.
Variable logits : World -> bool -> Images -> tensor2 Q.
Variable loss_item : World -> bool -> tensor2 Q -> list Z -> Q.
Variable now : nat -> Q.
Variable stamp : nat -> string.

Lemma train_batch_trace (amp : bool) (l : train_locals)
  (batch : Images * list Z) (e : env Images World) :
  0 <= count (data_time l) ->
  log (fst (train_batch shape effect logits loss_item now amp l batch e))
  = log e ++ train_batch_calls amp batch
  /\ stdout (fst (train_batch shape effect logits loss_item now amp l batch e))
     = stdout e
  /\ forall l',
      snd (train_batch shape effect logits loss_item now amp l batch e)
      = inr l' ->
      0 <= count (data_time l').
Proof.
  destruct batch as [images labels]. intros Hc.
  destruct (update_or_raise_nonzero (data_time l)
              (PyNum (now (ticks e) - end_ l)) 1
              (count_plus_one_nonzero _ Hc)) as (dt & Hdt & Hcount & _).
  assert (Hdt0 : 0 <= count dt).
  { rewrite Hcount. now apply count_plus_pos_nonneg. }
  unfold train_batch, mbind, lift, emit, time_time, model_call, ceriation, mret.
  cbn -[accuracy unpack2 first_item_size0 update_or_raise].
  rewrite Hdt.
  destruct amp; cbn -[accuracy unpack2 first_item_size0 update_or_raise];
  repeat match goal with
  | |- context [match ?x with _ => _ end] => destruct x eqn:?
  end; cbn -[accuracy unpack2 first_item_size0 update_or_raise].
  all: split; [rewrite <- !app_assoc; reflexivity|].
  all: split; [reflexivity|].
  all: intros l' Hl'; try discriminate.
  all: injection Hl' as <-; exact Hdt0.
Qed.

Lemma train_loop_trace (amp : bool) (train_loader : list (Images * list Z)) :
  forall (l : train_locals) (e : env Images World),
    0 <= count (data_time l) ->
    exists d,
      (d <= length train_loader)%nat
      /\ log (fst (train_loop shape effect logits loss_item now amp l
                              train_loader e))
         = log e ++ flat_map (train_batch_calls amp) (firstn d train_loader)
      /\ stdout (fst (train_loop shape effect logits loss_item now amp l
                                 train_loader e)) = stdout e
      /\ forall l',
          snd (train_loop shape effect logits loss_item now amp l
                          train_loader e) = inr l' ->
          d = length train_loader.
Proof.
  induction train_loader as [|batch rest IH]; intros l e Hc.
  - exists 0%nat. cbn. rewrite app_nil_r. repeat split. lia.
  - destruct (train_batch_trace amp l batch e Hc) as (Hlog1 & Hout1 & Hinv).
    cbn [train_loop]. unfold mbind.
    destruct (train_batch shape effect logits loss_item now amp l batch e)
      as [e1 [x|l1]]; cbn [fst snd] in *.
    + exists 1%nat. cbn [firstn flat_map length]. rewrite app_nil_r.
      split; [lia|]. split; [exact Hlog1|]. split; [exact Hout1|].
      intros l' Hl'. discriminate Hl'.
    + destruct (IH l1 e1 (Hinv l1 eq_refl)) as (d & Hd & Hlog & Hout & Hret).
      exists (S d). cbn [firstn flat_map length].
      split; [lia|]. split; [|split].
      * rewrite Hlog, Hlog1. symmetry. apply app_assoc.
      * now rewrite Hout.
      * intros l' Hl'. now rewrite (Hret l' Hl').
Qed.

Lemma evaluate_batch_trace (l : AverageMeter * AverageMeter)
  (batch : Images * list Z) (e : env Images World) :
  log (fst (evaluate_batch shape effect logits loss_item l batch e))
  = log e ++ evaluate_batch_calls batch
  /\ stdout (fst (evaluate_batch shape effect logits loss_item l batch e))
     = stdout e
  /\ ticks (fst (evaluate_batch shape effect logits loss_item l batch e))
     = ticks e.
Proof.
  destruct batch as [images labels], l as [lo t1].
  unfold evaluate_batch, mbind, lift, emit, model_call, ceriation, mret.
  cbn -[accuracy unpack2 first_item_size0 update_or_raise].
  repeat match goal with
  | |- context [match ?x with _ => _ end] => destruct x eqn:?
  end; cbn -[accuracy unpack2 first_item_size0 update_or_raise].
  all: split; [rewrite <- !app_assoc; reflexivity|]; split; reflexivity.
Qed.

Lemma evaluate_loop_trace (eva_loader : list (Images * list Z)) :
  forall (l : AverageMeter * AverageMeter) (e : env Images World),
    exists d,
      (d <= length eva_loader)%nat
      /\ log (fst (evaluate_loop shape effect logits loss_item l eva_loader e))
         = log e ++ flat_map evaluate_batch_calls (firstn d eva_loader)
      /\ stdout (fst (evaluate_loop shape effect logits loss_item l
                                    eva_loader e)) = stdout e
      /\ ticks (fst (evaluate_loop shape effect logits loss_item l
                                   eva_loader e)) = ticks e
      /\ forall l',
          snd (evaluate_loop shape effect logits loss_item l eva_loader e)
          = inr l' ->
          d = length eva_loader.
Proof.
  induction eva_loader as [|batch rest IH]; intros l e.
  - exists 0%nat. cbn. rewrite app_nil_r. repeat split. lia.
  - destruct (evaluate_batch_trace l batch e) as (Hlog1 & Hout1 & Ht1).
    cbn [evaluate_loop]. unfold mbind.
    destruct (evaluate_batch shape effect logits loss_item l batch e)
      as [e1 [x|l1]]; cbn [fst snd] in *.
    + exists 1%nat. cbn [firstn flat_map length]. rewrite app_nil_r.
      split; [lia|]. split; [exact Hlog1|]. split; [exact Hout1|].
      split; [exact Ht1|]. intros l' Hl'. discriminate Hl'.
    + destruct (IH l1 e1) as (d & Hd & Hlog & Hout & Ht & Hret).
      exists (S d). cbn [firstn flat_map length].
      split; [lia|]. split; [|split; [|split]].
      * rewrite Hlog, Hlog1. symmetry. apply app_assoc.
      * now rewrite Hout.
      * now rewrite Ht.
      * intros l' Hl'. now rewrite (Hret l' Hl').
Qed.

(** X11.  The calls of [train], exactly: the scaler is built (on the plain path
    too) and the model set to training mode; then, for every batch
    delivered, the transfer, the forward pass, the loss, [zero_grad],
    [backward] and the step, in this order, with the scaler's [scale],
    [step] and [update] around them on the mixed-precision path and no call
    of the scaler on the plain path.  All batches are delivered when
    [train] returns. *)
Theorem train_calls (train_loader : list (Images * list Z)) (epoch : Z)
  (amp : bool) (e : env Images World) :
  exists d,
    (d <= length train_loader)%nat
    /\ log (fst (train shape effect logits loss_item now stamp
                       train_loader epoch amp e))
       = log e ++ [NewGradScaler; ModelTrain]
         ++ flat_map (train_batch_calls amp) (firstn d train_loader)
    /\ forall x,
        snd (train shape effect logits loss_item now stamp
                   train_loader epoch amp e) = inr x ->
        d = length train_loader.
Proof.
  unfold train, train_setup, mbind, getTime, emit, time_time, mret.
  cbn -[train_loop AverageMeter_init ProgressMeter_init].
  match goal with
  | |- context [train_loop _ _ _ _ _ _ ?l _ ?e0] =>
      destruct (train_loop_trace amp train_loader l e0) as
        (d & Hd & Hlog & _ & Hret); [cbn; apply Qle_refl|];
      destruct (train_loop shape effect logits loss_item now amp l
                           train_loader e0) as [e1 [x|l1]]
  end; cbn [fst snd log] in *; exists d; (split; [exact Hd|]).
  - split; [|intros y Hy; discriminate Hy].
    rewrite Hlog, <- !app_assoc. reflexivity.
  - unfold progress_display, print, mret, lift.
    destruct (display_line _ _ _); destruct (item (avg (top1 l1)));
      cbn [fst snd log]; (split; [rewrite Hlog, <- !app_assoc; reflexivity|]);
      intros y Hy; try discriminate Hy; now apply (Hret l1).
Qed.

(** X12.  The calls of [evaluate], exactly: the model is set to evaluation mode;
    then, for every batch delivered, the transfer, the forward pass without
    autocast and the loss.  It never calls the optimizer, the scaler or
    [backward]. *)
Theorem evaluate_calls (eva_loader : list (Images * list Z)) (prefix : string)
  (ignore : Z) (e : env Images World) :
  exists d,
    (d <= length eva_loader)%nat
    /\ log (fst (evaluate shape effect logits loss_item stamp
                          eva_loader prefix ignore e))
       = log e ++ [ModelEval]
         ++ flat_map evaluate_batch_calls (firstn d eva_loader)
    /\ forall x,
        snd (evaluate shape effect logits loss_item stamp
                      eva_loader prefix ignore e) = inr x ->
        d = length eva_loader.
Proof.
  unfold evaluate, mbind, emit, mret.
  cbn -[evaluate_loop AverageMeter_init].
  match goal with
  | |- context [evaluate_loop _ _ _ _ ?l _ ?e0] =>
      destruct (evaluate_loop_trace eva_loader l e0) as
        (d & Hd & Hlog & _ & _ & Hret);
      destruct (evaluate_loop shape effect logits loss_item l
                              eva_loader e0) as [e1 [x|l1]]
  end; cbn [fst snd log] in *; exists d; (split; [exact Hd|]).
  - split; [|intros y Hy; discriminate Hy].
    rewrite Hlog, <- !app_assoc. reflexivity.
  - unfold getTime, lift, print.
    destruct (String.eqb prefix ""); cbn [fst snd];
      destruct (item (avg (snd l1))); cbn [fst snd log];
      (split; [rewrite Hlog, <- !app_assoc; reflexivity|]);
      intros y Hy; try discriminate Hy; now apply (Hret l1).
Qed.

Lemma update_or_raise_labels (m m' : AverageMeter) (v : number) (n : Q) :
  update_or_raise m v n = inr m' -> name m' = name m /\ fmt m' = fmt m.
Proof.
  unfold update_or_raise.
  destruct (update_fields m v n) as (Hn & Hf & _).
  destruct (update m v n) as [m1 [x|]]; [discriminate|].
  intros [= <-]. cbn in Hn, Hf. now split.
Qed.

Lemma train_batch_named (amp : bool) (l l' : train_locals)
  (batch : Images * list Z) (e : env Images World) :
  train_meters_named l ->
  snd (train_batch shape effect logits loss_item now amp l batch e) = inr l' ->
  train_meters_named l'.
Proof.
  destruct batch as [images labels].
  intros ((Hb1 & Hb2) & (Hd1 & Hd2) & (Hl1 & Hl2) & (Ht1 & Ht2)).
  unfold train_batch, mbind, lift, emit, time_time, model_call, ceriation, mret.
  cbn -[accuracy unpack2 first_item_size0 update_or_raise].
  destruct amp; cbn -[accuracy unpack2 first_item_size0 update_or_raise];
  repeat match goal with
  | |- context [match ?x with _ => _ end] => destruct x eqn:?
  end; cbn -[accuracy unpack2 first_item_size0 update_or_raise];
  intros Hl'; try discriminate Hl'; injection Hl' as <-;
  repeat match goal with
  | H : update_or_raise _ _ _ = inr _ |- _ =>
      apply update_or_raise_labels in H; destruct H
  end;
  unfold train_meters_named; cbn; repeat split; congruence.
Qed.

Lemma train_loop_named (amp : bool) (train_loader : list (Images * list Z)) :
  forall (l l' : train_locals) (e : env Images World),
    train_meters_named l ->
    snd (train_loop shape effect logits loss_item now amp l train_loader e)
    = inr l' ->
    train_meters_named l'.
Proof.
  induction train_loader as [|batch rest IH]; intros l l' e Hl.
  - cbn. now intros [= <-].
  - cbn [train_loop]. unfold mbind.
    pose proof (train_batch_named amp l) as Hb.
    destruct (train_batch shape effect logits loss_item now amp l batch e)
      as [e1 [x|l1]] eqn:E; cbn [snd]; [discriminate|].
    apply IH. apply (Hb l1 batch e Hl). now rewrite E.
Qed.

Lemma AverageMeter_str_6_2f (m : AverageMeter) :
  fmt m = ":6.2f"%string ->
  AverageMeter_str m
  = Some (name m ++ " " ++ rjust 6 (format_quotient 2 (avg m)))%string.
Proof. intros Hf. unfold AverageMeter_str. now rewrite Hf. Qed.

Lemma format_quotient_item (p : nat) (a b : quotient) :
  item a = inr b -> format_quotient p b = format_quotient p a.
Proof.
  destruct a as [[q|q]| | |]; cbn; try discriminate; now intros [= <-].
Qed.

Lemma item_raises_only_attribute_error (a : quotient) (x : exn) :
  item a = inl x -> x = AttributeError.
Proof.
  destruct a as [[q|q]| | |]; unfold item, raise, ret; congruence.
Qed.

Lemma str_quotient_round2_item (a b : quotient) :
  item a = inr b -> str_quotient_round2 b = str_quotient_round2 a.
Proof.
  destruct a as [[q|q]| | |]; cbn; try discriminate; now intros [= <-].
Qed.

(** X13.  When [train] returns it has printed one line, after the last batch:
    the progress line with batch index 0 and the two averages it returns.
    When it raises anything but the [AttributeError] of the final read, it
    has printed nothing. *)
Theorem train_prints (train_loader : list (Images * list Z)) (epoch : Z)
  (amp : bool) (e : env Images World) :
  (forall loss_avg acc_avg,
      snd (train shape effect logits loss_item now stamp
                 train_loader epoch amp e) = inr (loss_avg, acc_avg) ->
      exists time_avg data_avg,
        stdout (fst (train shape effect logits loss_item now stamp
                           train_loader epoch amp e))
        = stdout e
          ++ [train_progress_line (stamp (ticks e)) epoch (length train_loader)
                time_avg data_avg loss_avg acc_avg])
  /\ (forall x,
         snd (train shape effect logits loss_item now stamp
                    train_loader epoch amp e) = inl x ->
         x <> AttributeError ->
         stdout (fst (train shape effect logits loss_item now stamp
                            train_loader epoch amp e)) = stdout e).
Proof.
  unfold train, train_setup, mbind, getTime, emit, time_time, mret.
  cbn -[train_loop AverageMeter_init ProgressMeter_init].
  match goal with
  | |- context [train_loop _ _ _ _ _ _ ?l _ ?e0] =>
      destruct (train_loop_trace amp train_loader l e0) as
        (d & _ & _ & Hout & _); [cbn; apply Qle_refl|];
      pose proof (train_loop_named amp train_loader l) as Hnamed;
      destruct (train_loop shape effect logits loss_item now amp l
                           train_loader e0) as [e1 [x|l1]] eqn:E
  end; cbn [fst snd stdout] in *.
  - split; [intros ? ? H; discriminate H|]. intros y _ _. exact Hout.
  - specialize (Hnamed l1 _ ltac:(repeat split) ltac:(rewrite E; reflexivity)).
    destruct Hnamed as ((Hb1 & Hb2) & (Hd1 & Hd2) & (Hl1 & Hl2) & (Ht1 & Ht2)).
    unfold progress_display.
    rewrite (display_line_renders _ 0 _ [0; 1; 2; 3]%nat
               [batch_time l1; data_time l1; losses l1; top1 l1]
               ["Time " ++ rjust 6 (format_quotient 2 (avg (batch_time l1)));
                "Data " ++ rjust 6 (format_quotient 2 (avg (data_time l1)));
                "Loss " ++ rjust 6 (format_quotient 2 (avg (losses l1)));
                "Acc@1 " ++ rjust 6 (format_quotient 2 (avg (top1 l1)))]%string).
    2:{ repeat (constructor; [eexists; split; [reflexivity|]|]);
        [| | | |constructor];
        (rewrite AverageMeter_str_6_2f by assumption);
        first [rewrite Hb1|rewrite Hd1|rewrite Hl1|rewrite Ht1]; reflexivity. }
    unfold print, lift.
    destruct (item (avg (top1 l1))) as [x|a] eqn:Ei; cbn [fst snd stdout].
    + split; [intros ? ? H; discriminate H|].
      intros y [= <-] Hy. exfalso. apply Hy.
      now apply (item_raises_only_attribute_error _ _ Ei).
    + split; [|intros y H; discriminate H].
      intros loss_avg acc_avg [= <- <-].
      exists (avg (batch_time l1)), (avg (data_time l1)).
      rewrite Hout. unfold train_progress_line.
      now rewrite (format_quotient_item 2 _ _ Ei).
Qed.

Lemma train_batch_few_classes (amp : bool) (l : train_locals)
  (images : Images) (labels : list Z) (e : env Images World) :
  (forall w autocast, (ncols (logits w autocast images) < 5)%nat) ->
  0 <= count (data_time l) ->
  snd (train_batch shape effect logits loss_item now amp l (images, labels) e)
  = inl RuntimeError.
Proof.
  intros Hfew Hc.
  destruct (update_or_raise_nonzero (data_time l)
              (PyNum (now (ticks e) - end_ l)) 1
              (count_plus_one_nonzero _ Hc)) as (dt & Hdt & _).
  unfold train_batch, mbind, lift, emit, time_time, model_call, ceriation, mret.
  cbn -[accuracy unpack2 first_item_size0 update_or_raise].
  rewrite Hdt.
  destruct amp; cbn -[accuracy unpack2 first_item_size0 update_or_raise];
    rewrite accuracy_below_five_classes by apply Hfew; reflexivity.
Qed.

(** X14.  A model with fewer than five classes cannot be trained or evaluated by
    these loops: [accuracy] is asked for the top 5, so the first batch
    raises, in [train] after the parameter update of that batch and before
    anything is printed. *)
Theorem loops_need_five_classes (images : Images) (labels : list Z)
  (rest : list (Images * list Z)) (epoch : Z) (amp : bool) (prefix : string)
  (ignore : Z) (e : env Images World)
  (Hfew : forall w autocast, (ncols (logits w autocast images) < 5)%nat) :
  snd (train shape effect logits loss_item now stamp
             ((images, labels) :: rest) epoch amp e) = inl RuntimeError
  /\ log (fst (train shape effect logits loss_item now stamp
                     ((images, labels) :: rest) epoch amp e))
     = log e ++ [NewGradScaler; ModelTrain]
       ++ train_batch_calls amp (images, labels)
  /\ stdout (fst (train shape effect logits loss_item now stamp
                        ((images, labels) :: rest) epoch amp e)) = stdout e
  /\ snd (evaluate shape effect logits loss_item stamp
                   ((images, labels) :: rest) prefix ignore e)
     = inl RuntimeError.
Proof.
  split; [|split; [|split]].
  1-3: unfold train, train_setup, mbind, getTime, emit, time_time, mret;
    cbn -[train_batch AverageMeter_init ProgressMeter_init];
    unfold mbind;
    match goal with
    | |- context [train_batch _ _ _ _ _ _ ?l _ ?e0] =>
        pose proof (train_batch_few_classes amp l images labels e0 Hfew
                      ltac:(cbn; apply Qle_refl)) as Hr;
        destruct (train_batch_trace amp l (images, labels) e0
                    ltac:(cbn; apply Qle_refl)) as (Hlog & Hout & _);
        destruct (train_batch shape effect logits loss_item now amp l
                              (images, labels) e0) as [e1 r1]
    end; cbn [fst snd] in *; subst r1; cbn [fst snd].
  - reflexivity.
  - rewrite Hlog. cbn [log]. now rewrite <- !app_assoc.
  - exact Hout.
  - unfold evaluate, mbind, emit, mret.
    cbn -[accuracy unpack2 first_item_size0 update_or_raise AverageMeter_init].
    unfold evaluate_batch, mbind, lift, emit, model_call, ceriation, mret.
    cbn -[accuracy unpack2 first_item_size0 update_or_raise AverageMeter_init].
    rewrite accuracy_below_five_classes by apply Hfew. reflexivity.
Qed.

(** X15.  On an empty loader both loops raise [AttributeError] at the end: no
    tensor was fed to [top1], whose average is still the integer 0.
    [train] has printed its progress line by then. *)
Theorem loops_on_empty_loader (epoch : Z) (amp : bool) (prefix : string)
  (ignore : Z) (e : env Images World) :
  snd (train shape effect logits loss_item now stamp [] epoch amp e)
  = inl AttributeError
  /\ stdout (fst (train shape effect logits loss_item now stamp
                        [] epoch amp e))
     = stdout e
       ++ [train_progress_line (stamp (ticks e)) epoch 0
             (Finite (PyNum 0)) (Finite (PyNum 0))
             (Finite (PyNum 0)) (Finite (PyNum 0))]
  /\ snd (evaluate shape effect logits loss_item stamp [] prefix ignore e)
     = inl AttributeError
  /\ log (fst (evaluate shape effect logits loss_item stamp
                        [] prefix ignore e)) = log e ++ [ModelEval].
Proof.
  split; [|split; [|split]].
  1-2: unfold train, train_setup, mbind, getTime, emit, time_time, mret;
    cbn -[AverageMeter_init ProgressMeter_init display_line];
    unfold progress_display;
    rewrite (display_line_renders _ 0 _ [0; 1; 2; 3]%nat _
               ["Time " ++ rjust 6 (format_quotient 2 (Finite (PyNum 0)));
                "Data " ++ rjust 6 (format_quotient 2 (Finite (PyNum 0)));
                "Loss " ++ rjust 6 (format_quotient 2 (Finite (PyNum 0)));
                "Acc@1 " ++ rjust 6 (format_quotient 2 (Finite (PyNum 0)))]%string)
      by (repeat (constructor;
                  [eexists; split; [reflexivity|vm_compute; reflexivity]|]);
          constructor);
    reflexivity.
  1-2: unfold evaluate, mbind, emit, mret, getTime, lift, print;
    cbn -[String.eqb]; destruct (String.eqb prefix ""); reflexivity.
Qed.

(** X16.  What [evaluate] prints: nothing for an empty [prefix] (the clock is
    not read either); otherwise, when it returns, one line with the time
    stamp, the prefix and the accuracy it returns, rounded to two
    decimals. *)
Theorem evaluate_prints (eva_loader : list (Images * list Z))
  (prefix : string) (ignore : Z) (e : env Images World) :
  (String.eqb prefix "" = true ->
   stdout (fst (evaluate shape effect logits loss_item stamp
                         eva_loader prefix ignore e)) = stdout e
   /\ ticks (fst (evaluate shape effect logits loss_item stamp
                           eva_loader prefix ignore e)) = ticks e)
  /\ (forall loss_avg acc_avg,
         String.eqb prefix "" = false ->
         snd (evaluate shape effect logits loss_item stamp
                       eva_loader prefix ignore e) = inr (loss_avg, acc_avg) ->
         stdout (fst (evaluate shape effect logits loss_item stamp
                               eva_loader prefix ignore e))
         = stdout e
           ++ [(stamp (ticks e) ++ " " ++ prefix ++ " "
                ++ str_quotient_round2 acc_avg)%string]).
Proof.
  unfold evaluate, mbind, emit, mret.
  cbn -[evaluate_loop AverageMeter_init String.eqb].
  match goal with
  | |- context [evaluate_loop _ _ _ _ ?l _ ?e0] =>
      destruct (evaluate_loop_trace eva_loader l e0) as
        (d & _ & _ & Hout & Ht & _);
      destruct (evaluate_loop shape effect logits loss_item l
                              eva_loader e0) as [e1 [x|l1]]
  end; cbn [fst snd stdout ticks] in *.
  - split; [intros _; now split|]. intros ? ? _ H. discriminate H.
  - unfold getTime, lift, print.
    destruct (String.eqb prefix ""); cbn [fst snd];
      destruct (item (avg (snd l1))) as [x|a] eqn:Ei; cbn [fst snd stdout ticks].
    + split; [intros _; now split|]. intros ? ? H. discriminate H.
    + split; [intros _; now split|]. intros ? ? H. discriminate H.
    + split; [intros H; discriminate H|]. intros ? ? _ H. discriminate H.
    + split; [intros H; discriminate H|].
      intros loss_avg acc_avg _ [= <- <-]. now rewrite Hout, Ht.
Qed.

End EpochTraces.

Lemma loops_need_five_classes_witness :
  snd (demo_train [demo_batch_three_classes; demo_batch_of_one] true)
  = inl RuntimeError.
Proof.
  apply (loops_need_five_classes demo_shape demo_effect demo_logits
           demo_loss_item demo_now demo_stamp
           (fst demo_batch_three_classes) (snd demo_batch_three_classes)
           [demo_batch_of_one] 0 true "" 0 demo_env).
  intros w autocast. cbn. lia.
Defined.

(** ** Inference helpers *)

Section InferenceProperties.

Context {Images World : Type}.
Variable shape : Images -> list nat.
Variable effect : call Images -> World -> World.
Variable logits : World -> bool -> Images -> tensor2 Q.
Variable logits2 : World -> bool -> Images -> tensor2 Q.
Variable softmax : tensor2 Q -> tensor2 Q.
Variable stamp : nat -> string.

(** X17.  On an empty loader none of the three [predict] helpers returns:
    [torch.cat] raises on an empty list of tensors, with the exception of
    the installed library.  [evaluateWithBoth] raises the [AttributeError]
    of reading the average of a meter that was never fed, the int 0. *)
Theorem inference_on_empty_loader (cuda : bool) (A B : Type) (prefix : string)
  (e : env Images World) :
  (exists x, snd (predict effect logits softmax cuda (@nil (Images * A * B)) e)
             = inl x)
  /\ (exists x, snd (predict_softmax effect logits softmax cuda [] e) = inl x)
  /\ (exists x, snd (predict_repre effect logits (@nil (Images * A)) e) = inl x)
  /\ snd (evaluateWithBoth shape effect logits logits2 softmax stamp
                           [] prefix e) = inl AttributeError.
Proof.
  split; [eexists; reflexivity|]. split; [eexists; reflexivity|].
  split; [eexists; reflexivity|].
  unfold evaluateWithBoth, mbind, emit, mret, getTime, lift, print.
  cbn -[String.eqb]. destruct (String.eqb prefix ""); reflexivity.
Qed.

Lemma predict_loop_no_cuda (A B : Type) (loader : list (Images * A * B)) :
  forall (acc : list (list nat) * list (list Q)) (e : env Images World),
    snd (predict_loop effect logits softmax false acc loader e) = inr acc
    /\ log (fst (predict_loop effect logits softmax false acc loader e))
       = log e ++ repeat NextBatch (length loader).
Proof.
  induction loader as [|batch rest IH]; intros acc e.
  - cbn. now rewrite app_nil_r.
  - cbn [predict_loop]. unfold mbind at 1. unfold predict_batch, mbind, emit, mret.
    cbn [fst snd]. destruct (IH acc
      {| world := effect NextBatch (world e); ticks := ticks e;
         log := log e ++ [NextBatch]; stdout := stdout e |}) as [Hr Hl].
    split; [exact Hr|]. rewrite Hl. cbn [log length repeat].
    now rewrite <- app_assoc.
Qed.

(** X18.  Without CUDA [predict] never returns: it skips every batch, the model
    is not called once, and [torch.cat] raises on the empty list of
    predictions, with the exception of the installed library. *)
Theorem predict_requires_cuda (A B : Type) (loader : list (Images * A * B))
  (e : env Images World) :
  (exists x, snd (predict effect logits softmax false loader e) = inl x)
  /\ log (fst (predict effect logits softmax false loader e))
     = log e ++ ModelEval :: repeat NextBatch (length loader).
Proof.
  unfold predict, mbind, emit, mret, lift. cbn [fst snd].
  match goal with
  | |- context [predict_loop _ _ _ _ ?acc _ ?e0] =>
      destruct (predict_loop_no_cuda A B loader acc e0) as [Hr Hl];
      destruct (predict_loop effect logits softmax false acc loader e0)
        as [e1 r1]
  end. cbn [fst snd] in *. subst r1. cbn [fst cat1]. unfold raise.
  cbn [fst snd].
  split; [eexists; reflexivity|].
  rewrite Hl. cbn [log]. now rewrite <- app_assoc.
Qed.

Lemma max_dim1_lengths (t : tensor2 Q) (r : list Q * list nat) :
  max_dim1 t = inr r -> length (fst r) = length (snd r).
Proof.
  unfold max_dim1. destruct (ncols t =? 0)%nat; [discriminate|].
  intros [= <-]. cbn. now rewrite !length_map.
Qed.

Lemma predict_loop_aligned (cuda : bool) (A B : Type)
  (loader : list (Images * A * B)) :
  forall (acc acc' : list (list nat) * list (list Q)) (e : env Images World),
    Forall2 (fun a b => length a = length b) (fst acc) (snd acc) ->
    snd (predict_loop effect logits softmax cuda acc loader e) = inr acc' ->
    Forall2 (fun a b => length a = length b) (fst acc') (snd acc').
Proof.
  induction loader as [|batch rest IH]; intros acc acc' e Hacc.
  - cbn. now intros [= <-].
  - cbn [predict_loop]. unfold mbind at 1.
    destruct (predict_batch effect logits softmax cuda acc batch e)
      as [e1 [x|acc1]] eqn:E; cbn [snd]; [discriminate|].
    apply IH.
    revert E. unfold predict_batch, mbind, lift, model_call, emit, mret.
    destruct cuda; cbn -[max_dim1].
    + match goal with
      | |- context [max_dim1 ?t] => destruct (max_dim1 t) as [x|r] eqn:Er
      end; [discriminate|].
      intros [= _ <-]. cbn [fst snd].
      apply Forall2_app; [exact Hacc|].
      constructor; [|constructor].
      symmetry. now apply (max_dim1_lengths _ _ Er).
    + now intros [= _ <-].
Qed.

Lemma concat_lengths_aligned {X Y : Type} (l1 : list (list X))
  (l2 : list (list Y)) :
  Forall2 (fun a b => length a = length b) l1 l2 ->
  length (concat l1) = length (concat l2).
Proof.
  induction 1 as [|a b l1 l2 Hab _ IH]; cbn; [reflexivity|].
  now rewrite !length_app, Hab, IH.
Qed.

(** X19.  What [predict] returns is aligned: as many probabilities as
    predictions, whatever the batches. *)
Theorem predict_aligned (cuda : bool) (A B : Type)
  (loader : list (Images * A * B)) (e : env Images World)
  (preds : list nat) (probs : list Q)
  (Hret : snd (predict effect logits softmax cuda loader e)
          = inr (preds, probs)) :
  length preds = length probs.
Proof.
  revert Hret. unfold predict, mbind, emit, mret, lift. cbn [fst snd].
  match goal with
  | |- context [predict_loop _ _ _ _ ?acc _ ?e0] =>
      pose proof (predict_loop_aligned cuda A B loader acc) as Hal;
      destruct (predict_loop effect logits softmax cuda acc loader e0)
        as [e1 [x|acc1]] eqn:E
  end; cbn [snd]; [discriminate|].
  specialize (Hal acc1 _ ltac:(constructor) ltac:(rewrite E; reflexivity)).
  destruct acc1 as [ps qs]. cbn [fst snd] in *.
  destruct ps as [|p ps]; [discriminate|].
  destruct qs as [|q qs]; [discriminate|].
  cbn [cat1 ret snd]. intros [= <- <-].
  now apply (concat_lengths_aligned (p :: ps) (q :: qs)).
Qed.

End InferenceProperties.

Lemma predict_aligned_witness :
  length [0; 5; 1]%nat = length [6; 6; 6].
Proof.
  apply (predict_aligned demo_effect demo_logits (fun t => t) true
           unit unit
           [(fst demo_batch_of_two, tt, tt); (fst demo_batch_of_one, tt, tt)]
           demo_env).
  vm_compute. reflexivity.
Defined.

(** ** The ensemble and the top-1 prediction *)

Lemma filter_combine_seq (g : nat -> nat) (target : list Z) :
  forall a,
    length (filter (fun p => (Z.of_nat (fst p) =? snd p)%Z)
                   (combine (map g (seq a (length target))) target))
    = length (filter (fun j => (Z.of_nat (g j) =? nth (j - a) target 0%Z)%Z)
                     (seq a (length target))).
Proof.
  induction target as [|t target IH]; intros a; [reflexivity|].
  cbn [length seq map combine filter fst snd]. rewrite Nat.sub_diag.
  change (nth 0 (t :: target) 0%Z) with t.
  assert (E : filter (fun j => (Z.of_nat (g j) =? nth (j - a) (t :: target) 0)%Z)
                (seq (S a) (length target))
              = filter (fun j => (Z.of_nat (g j) =? nth (j - S a) target 0)%Z)
                  (seq (S a) (length target))).
  { apply filter_ext_in. intros j Hj. apply in_seq in Hj.
    replace (j - a)%nat with (S (j - S a)) by lia. reflexivity. }
  rewrite E. destruct (Z.of_nat (g a) =? t)%Z; cbn [length]; now rewrite IH.
Qed.

(** ** Datasets *)

Lemma py_index_out_of_range {A : Type} (l : list A) (i : Z) :
  (i < - Z.of_nat (length l) \/ Z.of_nat (length l) <= i)%Z ->
  py_index l i = inl IndexError.
Proof.
  intros H. unfold py_index.
  destruct (Z.ltb_spec i 0);
    match goal with
    | |- context [(?a && ?b)%bool] =>
        assert (E : (a && b)%bool = false)
          by (apply andb_false_iff; rewrite Z.leb_gt, Z.ltb_ge; lia);
        rewrite E
    end; reflexivity.
Qed.

Lemma py_index_negative {A : Type} (l : list A) (i : Z) :
  (- Z.of_nat (length l) <= i < 0)%Z ->
  py_index l i = py_index l (Z.of_nat (length l) + i).
Proof.
  intros H. unfold py_index.
  destruct (Z.ltb_spec i 0); [|lia].
  destruct (Z.ltb_spec (Z.of_nat (length l) + i) 0); [lia|reflexivity].
Qed.

Lemma py_index_in_range {A : Type} (l : list A) (i : Z) :
  (0 <= i < Z.of_nat (length l))%Z ->
  exists a, py_index l i = inr a /\ nth_error l (Z.to_nat i) = Some a.
Proof.
  intros H. unfold py_index.
  destruct (Z.ltb_spec i 0); [lia|].
  assert (E : ((0 <=? i) && (i <? Z.of_nat (length l)))%Z = true)
    by (apply andb_true_iff; rewrite Z.leb_le, Z.ltb_lt; lia).
  rewrite E.
  destruct (nth_error l (Z.to_nat i)) as [a|] eqn:En.
  - exists a. now split.
  - apply nth_error_None in En. lia.
Qed.

Lemma py_index_returns_iff {A : Type} (l : list A) (i : Z) :
  (exists a, py_index l i = inr a)
  <-> (- Z.of_nat (length l) <= i < Z.of_nat (length l))%Z.
Proof.
  split.
  - intros [a Ha].
    destruct (Z_lt_le_dec i (- Z.of_nat (length l))) as [H1|H1];
      [rewrite py_index_out_of_range in Ha by lia; discriminate|].
    destruct (Z_lt_le_dec i (Z.of_nat (length l))) as [H2|H2]; [lia|].
    rewrite py_index_out_of_range in Ha by lia. discriminate.
  - intros H. destruct (Z_lt_le_dec i 0) as [Hneg|Hpos].
    + rewrite py_index_negative by lia.
      destruct (py_index_in_range l (Z.of_nat (length l) + i)) as (a & Ha & _);
        [lia|]. now exists a.
    + destruct (py_index_in_range l i) as (a & Ha & _); [lia|]. now exists a.
Qed.

Section DatasetProperties.

Variables Img View Rng : Type.
Variable Image_open_RGB : string -> result Img.
Variable ToTensor : Img -> Rng -> View * Rng.

(** X22.  An item of a [Clothing1M_Dataset] of [n] paths and [n] labels: an
    index outside [[-n, n)] raises [IndexError], whatever the files; a
    negative index [i] down to [-n] reads item [n + i]. *)
Theorem Clothing1M_getitem_index (data : list string) (labels : list Z)
  (root_dir : string) (transform : option (Img -> Rng -> View * Rng))
  (target_transform : option (Z -> Z)) (i : Z) (rng : Rng)
  (Hlen : length data = length labels) :
  let ds := Clothing1M_Dataset.__init__ Img View Rng ToTensor data labels
              root_dir transform target_transform in
  let n := Z.of_nat (Clothing1M_Dataset.__len__ Img View Rng ds) in
  ((i < - n \/ n <= i)%Z ->
   Clothing1M_Dataset.__getitem__ Img View Rng Image_open_RGB ds i rng
   = inl IndexError)
  /\ ((- n <= i < 0)%Z ->
      Clothing1M_Dataset.__getitem__ Img View Rng Image_open_RGB ds i rng
      = Clothing1M_Dataset.__getitem__ Img View Rng Image_open_RGB ds
          (n + i) rng).
Proof.
  intros ds n. subst ds n. unfold Clothing1M_Dataset.__getitem__. cbn.
  split; intros H.
  - rewrite py_index_out_of_range by (rewrite Hlen; exact H). reflexivity.
  - rewrite (py_index_negative data) by (rewrite Hlen; exact H).
    rewrite (py_index_negative labels) by exact H.
    now rewrite Hlen.
Qed.

(** X23.  [len] counts the labels in [Clothing1M_Dataset] and the paths in
    [Noisy_ostracods], and an item needs both: when every file opens,
    every index in [range(len(ds))] yields an item exactly when the paths
    are at least as many as the labels, respectively the labels at least
    as many as the paths. *)
Theorem len_and_getitem (data : list string) (labels : list Z)
  (root_dir : string) (transform : option (Img -> Rng -> View * Rng))
  (target_transform : option (Z -> Z)) (rng : Rng)
  (Hopen : forall p, exists img, Image_open_RGB p = inr img) :
  ((forall i,
       (0 <= i < Z.of_nat (Clothing1M_Dataset.__len__ Img View Rng
          (Clothing1M_Dataset.__init__ Img View Rng ToTensor data labels
             root_dir transform target_transform)))%Z ->
       exists item,
         Clothing1M_Dataset.__getitem__ Img View Rng Image_open_RGB
           (Clothing1M_Dataset.__init__ Img View Rng ToTensor data labels
              root_dir transform target_transform) i rng = inr item)
   <-> (length labels <= length data)%nat)
  /\ ((forall i,
          (0 <= i < Z.of_nat (Noisy_ostracods.__len__ Img View Rng
             (Noisy_ostracods.__init__ Img View Rng data labels
                transform)))%Z ->
          exists item,
            Noisy_ostracods.__getitem__ Img View Rng Image_open_RGB
              (Noisy_ostracods.__init__ Img View Rng data labels transform)
              i rng = inr item)
      <-> (length data <= length labels)%nat).
Proof.
  assert (Hget : forall (ps : list string) (ts : list Z) i,
    (0 <= i < Z.of_nat (length ps))%Z -> (0 <= i < Z.of_nat (length ts))%Z ->
    exists p t, py_index ps i = inr p /\ py_index ts i = inr t).
  { intros ps ts i Hp Ht.
    destruct (py_index_in_range ps i Hp) as (p & Ep & _).
    destruct (py_index_in_range ts i Ht) as (t & Et & _).
    now exists p, t. }
  split; split.
  - intros H. destruct (le_lt_dec (length labels) (length data)) as [|Hlt];
      [assumption|exfalso].
    destruct (H (Z.of_nat (length data))) as [item Hitem]; [cbn; lia|].
    unfold Clothing1M_Dataset.__getitem__ in Hitem. cbn in Hitem.
    rewrite py_index_out_of_range in Hitem by lia. discriminate.
  - intros Hle i Hi. cbn in Hi.
    destruct (Hget data labels i) as (p & t & Ep & Et); [lia|lia|].
    unfold Clothing1M_Dataset.__getitem__. cbn. rewrite Ep, Et. cbn.
    destruct (Hopen (os_path_join root_dir p)) as [img ->]. cbn.
    destruct transform as [f|]; cbn;
      [destruct (f img rng)|destruct (ToTensor img rng)];
      eexists; reflexivity.
  - intros H. destruct (le_lt_dec (length data) (length labels)) as [|Hlt];
      [assumption|exfalso].
    destruct (H (Z.of_nat (length labels))) as [item Hitem]; [cbn; lia|].
    unfold Noisy_ostracods.__getitem__ in Hitem. cbn in Hitem.
    destruct (py_index_in_range data (Z.of_nat (length labels))) as (p & Ep & _);
      [lia|].
    rewrite Ep in Hitem. cbn in Hitem.
    rewrite py_index_out_of_range in Hitem by lia. discriminate.
  - intros Hle i Hi. cbn in Hi.
    destruct (Hget data labels i) as (p & t & Ep & Et); [lia|lia|].
    unfold Noisy_ostracods.__getitem__. cbn. rewrite Ep, Et. cbn.
    destruct (Hopen (os_path_join "/mnt/x/class_images" p)) as [img ->]. cbn.
    destruct transform as [f|]; cbn; [destruct (f img rng)|];
      eexists; reflexivity.
Qed.

(** X24.  An image path that starts with [/] is opened as it is: the item does
    not depend on [root_dir]. *)
Theorem Clothing1M_absolute_path (data : list string) (labels : list Z)
  (root_dir root_dir' : string)
  (transform : option (Img -> Rng -> View * Rng))
  (target_transform : option (Z -> Z)) (i : Z) (rng : Rng) (p : string)
  (Hp : py_index data i = inr p)
  (Habs : startswith_sep p = true) :
  Clothing1M_Dataset.__getitem__ Img View Rng Image_open_RGB
    (Clothing1M_Dataset.__init__ Img View Rng ToTensor data labels
       root_dir transform target_transform) i rng
  = Clothing1M_Dataset.__getitem__ Img View Rng Image_open_RGB
      (Clothing1M_Dataset.__init__ Img View Rng ToTensor data labels
         root_dir' transform target_transform) i rng.
Proof.
  unfold Clothing1M_Dataset.__getitem__. cbn. rewrite Hp. cbn.
  unfold os_path_join. now rewrite Habs.
Qed.

End DatasetProperties.

Lemma to_int8_range (z : Z) : (-128 <= to_int8 z <= 127)%Z.
Proof.
  unfold to_int8. pose proof (Z.mod_pos_bound (z + 128) 256). lia.
Qed.

Lemma to_int8_fixed (z : Z) : to_int8 z = z <-> (-128 <= z <= 127)%Z.
Proof.
  split.
  - intros <-. apply to_int8_range.
  - intros H. unfold to_int8. rewrite Z.mod_small by lia. lia.
Qed.

(** X25.  The labels of a [Noisy_ostracods_unlabeled] are stored as 8-bit
    integers: every target is in [[-128, 127]] and agrees with the label
    of the table modulo 256, so a label is kept exactly when it is in
    that range; 128 becomes -128. *)
Theorem unlabeled_targets_int8 (Img View Rng : Type)
  (read_csv : string -> result (list (string * Z)))
  (train : string) (transform : Img -> Rng -> View * Rng)
  (ds : Noisy_ostracods_unlabeled.t Img View Rng)
  (Hinit : Noisy_ostracods_unlabeled.__init__ Img View Rng read_csv
             train transform = inr ds) :
  length (Noisy_ostracods_unlabeled.targets Img View Rng ds)
  = Noisy_ostracods_unlabeled.__len__ Img View Rng ds
  /\ forall i path label,
      nth_error (Noisy_ostracods_unlabeled.img_labels Img View Rng ds) i
      = Some (path, label) ->
      exists target,
        nth_error (Noisy_ostracods_unlabeled.targets Img View Rng ds) i
        = Some target
        /\ (-128 <= target <= 127)%Z
        /\ ((target - label) mod 256 = 0)%Z
        /\ (target = label <-> (-128 <= label <= 127)%Z).
Proof.
  unfold Noisy_ostracods_unlabeled.__init__ in Hinit.
  destruct (read_csv _) as [x|rows]; [discriminate|].
  cbn in Hinit. injection Hinit as <-. cbn. split.
  - unfold Noisy_ostracods_unlabeled.__len__. cbn. apply length_map.
  - intros i path label Hi. exists (to_int8 label). split; [|split; [|split]].
    + rewrite nth_error_map, Hi. reflexivity.
    + apply to_int8_range.
    + unfold to_int8.
      replace ((label + 128) mod 256 - 128 - label)%Z
        with ((label + 128) mod 256 - (label + 128))%Z by lia.
      rewrite Zminus_mod, Z.mod_mod, Z.sub_diag by lia. reflexivity.
    + apply to_int8_fixed.
Qed.

Lemma Clothing1M_getitem_index_witness :
  Clothing1M_Dataset.__getitem__ string (string * nat) nat demo_open
    (Clothing1M_Dataset.__init__ string (string * nat) nat demo_transform
       ["a.jpg"; "b.jpg"]%string [3; 7]%Z "root"%string None None) (-1) 0%nat
  = Clothing1M_Dataset.__getitem__ string (string * nat) nat demo_open
      (Clothing1M_Dataset.__init__ string (string * nat) nat demo_transform
         ["a.jpg"; "b.jpg"]%string [3; 7]%Z "root"%string None None)
      (Z.of_nat 2 + -1) 0%nat.
Proof.
  apply (proj2 (Clothing1M_getitem_index string (string * nat) nat demo_open
                  demo_transform ["a.jpg"; "b.jpg"]%string [3; 7]%Z
                  "root"%string None None (-1) 0%nat eq_refl)).
  cbn. lia.
Defined.

Lemma len_and_getitem_witness :
  exists item,
    Clothing1M_Dataset.__getitem__ string (string * nat) nat demo_open
      (Clothing1M_Dataset.__init__ string (string * nat) nat demo_transform
         ["a.jpg"; "b.jpg"]%string [3; 7]%Z "root"%string None None) 1 0%nat
    = inr item.
Proof.
  apply (proj2 (proj1 (len_and_getitem string (string * nat) nat demo_open
                         demo_transform ["a.jpg"; "b.jpg"]%string [3; 7]%Z
                         "root"%string None None 0%nat
                         (fun p => ex_intro _ p eq_refl)))).
  - cbn. lia.
  - cbn. lia.
Defined.

Lemma Clothing1M_absolute_path_witness :
  Clothing1M_Dataset.__getitem__ string (string * nat) nat demo_open
    (Clothing1M_Dataset.__init__ string (string * nat) nat demo_transform
       ["/data/a.jpg"]%string [3]%Z "root"%string None None) 0 0%nat
  = Clothing1M_Dataset.__getitem__ string (string * nat) nat demo_open
      (Clothing1M_Dataset.__init__ string (string * nat) nat demo_transform
         ["/data/a.jpg"]%string [3]%Z "elsewhere"%string None None) 0 0%nat.
Proof.
  apply (Clothing1M_absolute_path string (string * nat) nat demo_open
           demo_transform ["/data/a.jpg"]%string [3]%Z "root"%string
           "elsewhere"%string None None 0 0%nat "/data/a.jpg"%string);
    reflexivity.
Defined.

Lemma unlabeled_targets_int8_witness :
  exists ds,
    Noisy_ostracods_unlabeled.__init__ string (string * nat) nat
      demo_read_csv "train" demo_transform = inr ds
    /\ exists target,
        nth_error (Noisy_ostracods_unlabeled.targets string (string * nat) nat ds)
          1 = Some target
        /\ (-128 <= target <= 127)%Z
        /\ ((target - 128) mod 256 = 0)%Z
        /\ (target = 128%Z <-> (-128 <= 128 <= 127)%Z).
Proof.
  eexists. split; [reflexivity|].
  exact (proj2 (unlabeled_targets_int8 string (string * nat) nat
                  demo_read_csv "train" demo_transform _ eq_refl)
               1%nat "b.png"%string 128%Z eq_refl).
Defined.

(** X26.  With the default transform, which draws nothing at random, the two
    views a [Clothing1M_Unlabeled_Dataset] returns for an index in
    [range(len(ds))] whose file opens are the same view. *)
Theorem unlabeled_default_views (Img View Rng : Type)
  (Image_open_RGB : string -> result Img)
  (ToTensor : Img -> Rng -> View * Rng)
  (data : list string) (root_dir : string) (i : Z) (rng : Rng)
  (Hdet : forall img r r', fst (ToTensor img r) = fst (ToTensor img r'))
  (Hopen : forall p, exists img, Image_open_RGB p = inr img)
  (Hi : (0 <= i < Z.of_nat
           (Clothing1M_Unlabeled_Dataset.__len__ Img View Rng
              (Clothing1M_Unlabeled_Dataset.__init__ Img View Rng ToTensor
                 data root_dir None)))%Z) :
  exists view rng',
    Clothing1M_Unlabeled_Dataset.__getitem__ Img View Rng Image_open_RGB
      (Clothing1M_Unlabeled_Dataset.__init__ Img View Rng ToTensor
         data root_dir None) i rng
    = inr (view, view, rng').
Proof.
  cbn in Hi.
  destruct (py_index_in_range data i Hi) as (p & Ep & _).
  unfold Clothing1M_Unlabeled_Dataset.__getitem__. cbn. rewrite Ep. cbn.
  destruct (Hopen (os_path_join root_dir p)) as [img ->]. cbn.
  pose proof (Hdet img rng (snd (ToTensor img rng))) as H.
  destruct (ToTensor img rng) as [v1 r1]. cbn in H.
  destruct (ToTensor img r1) as [v2 r2]. cbn in H. subst v2.
  now exists v1, r2.
Qed.

Lemma unlabeled_default_views_witness :
  exists view rng',
    Clothing1M_Unlabeled_Dataset.__getitem__ string string nat demo_open
      (Clothing1M_Unlabeled_Dataset.__init__ string string nat
         (fun img r => (img, r)) ["a.jpg"; "b.jpg"]%string "root"%string None)
      1 0%nat
    = inr (view, view, rng').
Proof.
  apply unlabeled_default_views.
  - reflexivity.
  - intros p. now exists p.
  - cbn. lia.
Defined.

(** * Properties of the rounded arithmetic *)

(** ** Rounding to the nearest *)

Lemma pow2_pos (z : Z) : 0 < pow2 z.
Proof. apply Qpower_0_lt. reflexivity. Qed.

Lemma pow2_add (a b : Z) : pow2 (a + b) == pow2 a * pow2 b.
Proof. apply Qpower_plus. discriminate. Qed.

Lemma pow2_le (a b : Z) : (a <= b)%Z -> pow2 a <= pow2 b.
Proof. intros H. apply Qpower_le_compat_l; [assumption | discriminate]. Qed.

Lemma pow2_lt_inv (a b : Z) : pow2 a < pow2 b -> (a < b)%Z.
Proof. intros H. apply (Qpower_lt_compat_l_inv 2); [assumption | reflexivity]. Qed.

Lemma pow2_Z (z : Z) : (0 <= z)%Z -> pow2 z == inject_Z (2 ^ z).
Proof. intros H. unfold pow2. rewrite Zpower_Qpower by assumption. reflexivity. Qed.

Lemma pow2_sub (a b : Z) :
  (0 <= a)%Z -> (0 <= b)%Z -> pow2 (a - b) == inject_Z (2 ^ a) / inject_Z (2 ^ b).
Proof.
  intros Ha Hb. unfold pow2. rewrite Qpower_minus by discriminate.
  rewrite !Zpower_Qpower by assumption. reflexivity.
Qed.

Lemma Qdiv_le_cross (a b c d : Z) :
  (0 < b)%Z -> (0 < d)%Z -> (a * d <= c * b)%Z ->
  inject_Z a / inject_Z b <= inject_Z c / inject_Z d.
Proof.
  intros Hb Hd H.
  assert (Hb' : 0 < inject_Z b) by (unfold Qlt; cbn; lia).
  assert (Hd' : 0 < inject_Z d) by (unfold Qlt; cbn; lia).
  apply Qle_shift_div_r; [assumption |].
  setoid_replace (inject_Z c / inject_Z d * inject_Z b)
    with ((inject_Z c * inject_Z b) / inject_Z d)
    by (field; intro E; rewrite E in Hd'; discriminate).
  apply Qle_shift_div_l; [assumption |].
  rewrite <- !inject_Z_mult, <- Zle_Qle. exact H.
Qed.

Lemma Qdiv_lt_cross (a b c d : Z) :
  (0 < b)%Z -> (0 < d)%Z -> (a * d < c * b)%Z ->
  inject_Z a / inject_Z b < inject_Z c / inject_Z d.
Proof.
  intros Hb Hd H.
  assert (Hb' : 0 < inject_Z b) by (unfold Qlt; cbn; lia).
  assert (Hd' : 0 < inject_Z d) by (unfold Qlt; cbn; lia).
  apply Qlt_shift_div_r; [assumption |].
  setoid_replace (inject_Z c / inject_Z d * inject_Z b)
    with ((inject_Z c * inject_Z b) / inject_Z d)
    by (field; intro E; rewrite E in Hd'; discriminate).
  apply Qlt_shift_div_l; [assumption |].
  rewrite <- !inject_Z_mult, <- Zlt_Qlt. exact H.
Qed.

(** The binade of a positive number: [2^e <= q < 2^(e+1)]. *)
Lemma binade_spec (q : Q) :
  0 < q -> pow2 (binade q) <= q /\ q < pow2 (binade q + 1).
Proof.
  intros Hq.
  destruct q as [n d].
  assert (Hn : (0 < n)%Z).
  { unfold Qlt in Hq. cbn in Hq. lia. }
  pose proof (Z.log2_spec n Hn) as [Ha1 Ha2].
  pose proof (Z.log2_spec (Zpos d) (Pos2Z.is_pos d)) as [Hb1 Hb2].
  pose proof (Z.log2_nonneg n) as Ha0.
  pose proof (Z.log2_nonneg (Zpos d)) as Hb0.
  set (a := Z.log2 n) in *. set (b := Z.log2 (Zpos d)) in *.
  assert (Eq : n # d == inject_Z n / inject_Z (Zpos d)) by apply Qmake_Qdiv.
  assert (Pa : (0 < 2 ^ a)%Z) by (apply Z.pow_pos_nonneg; lia).
  assert (Pb : (0 < 2 ^ b)%Z) by (apply Z.pow_pos_nonneg; lia).
  assert (Pa1 : (0 < 2 ^ Z.succ a)%Z) by (apply Z.pow_pos_nonneg; lia).
  assert (Pb1 : (0 < 2 ^ Z.succ b)%Z) by (apply Z.pow_pos_nonneg; lia).
  assert (Lo : pow2 (a - b - 1) <= n # d).
  { replace (a - b - 1)%Z with (a - Z.succ b)%Z by lia.
    rewrite pow2_sub by lia. rewrite Eq.
    apply Qdiv_le_cross; [assumption | reflexivity |].
    nia. }
  assert (Hi : n # d < pow2 (a - b + 1)).
  { replace (a - b + 1)%Z with (Z.succ a - b)%Z by lia.
    rewrite pow2_sub by lia. rewrite Eq.
    apply Qdiv_lt_cross; [reflexivity | assumption |].
    nia. }
  unfold binade. cbn [Qnum Qden]. fold a b.
  destruct (Qle_bool (pow2 (a - b)) (n # d)) eqn:T.
  - apply Qle_bool_iff in T. split; assumption.
  - split; [exact Lo |].
    replace (a - b - 1 + 1)%Z with (a - b)%Z by lia.
    apply Qnot_le_lt. intro H. apply Qle_bool_iff in H. congruence.
Qed.

(** Rounding to the nearest integer moves a number by at most a half. *)
Lemma round_half_even_near (q : Q) :
  Qabs (inject_Z (round_half_even q) - q) <= 1 # 2.
Proof.
  pose proof (Qfloor_le q) as Hl. pose proof (Qlt_floor q) as Hu.
  rewrite inject_Z_plus in Hu.
  change (inject_Z 1) with 1 in Hu.
  unfold round_half_even.
  apply Qabs_Qle_condition.
  destruct (q - inject_Z (Qfloor q) ?= 1 # 2) eqn:C.
  - apply Qeq_alt in C.
    destruct (Z.even (Qfloor q)); [| rewrite inject_Z_plus; change (inject_Z 1) with 1];
      split; lra.
  - apply Qlt_alt in C. split; lra.
  - apply Qgt_alt in C. rewrite inject_Z_plus. change (inject_Z 1) with 1. split; lra.
Qed.

(** It is monotone, and fixes the integers. *)
Lemma round_half_even_le_int (q : Q) (z : Z) :
  q <= inject_Z z -> (round_half_even q <= z)%Z.
Proof.
  intros H.
  pose proof (round_half_even_near q) as N. apply Qabs_Qle_condition in N.
  assert (L : inject_Z (round_half_even q) < inject_Z (z + 1)).
  { rewrite inject_Z_plus. change (inject_Z 1) with 1. lra. }
  rewrite <- Zlt_Qlt in L. lia.
Qed.

Lemma round_half_even_ge_int (q : Q) (z : Z) :
  inject_Z z <= q -> (z <= round_half_even q)%Z.
Proof.
  intros H.
  pose proof (round_half_even_near q) as N. apply Qabs_Qle_condition in N.
  assert (L : inject_Z (z - 1) < inject_Z (round_half_even q)).
  { unfold Z.sub. rewrite inject_Z_plus. change (inject_Z (- (1))) with (-1 # 1). lra. }
  rewrite <- Zlt_Qlt in L. lia.
Qed.

Lemma round_half_even_mono (x y : Q) :
  x <= y -> (round_half_even x <= round_half_even y)%Z.
Proof.
  intros H.
  destruct (Z_le_gt_dec (round_half_even x) (round_half_even y)) as [|G]; [assumption |].
  exfalso.
  (* the two results differ by at least one, each is within a half of its
     argument: x and y are both the midpoint, and the results are equal *)
  pose proof (round_half_even_near x) as Nx. apply Qabs_Qle_condition in Nx.
  pose proof (round_half_even_near y) as Ny. apply Qabs_Qle_condition in Ny.
  assert (G' : inject_Z (round_half_even y) + 1 <= inject_Z (round_half_even x)).
  { change 1 with (inject_Z 1). rewrite <- inject_Z_plus, <- Zle_Qle. lia. }
  assert (E : x == y) by lra.
  assert (E' : round_half_even x = round_half_even y).
  { unfold round_half_even. rewrite (Qfloor_comp _ _ E).
    assert (E2 : x - inject_Z (Qfloor y) == y - inject_Z (Qfloor y)) by (rewrite E; reflexivity).
    rewrite (Qcompare_comp _ _ E2 (1#2) (1#2) (Qeq_refl _)). reflexivity. }
  lia.
Qed.

Lemma pow2_double (z : Z) : pow2 (z + 1) == 2 * pow2 z.
Proof. rewrite pow2_add. change (pow2 1) with 2. ring. Qed.

(** The binade is determined by the two bounds. *)
Lemma binade_unique (q : Q) (e : Z) :
  pow2 e <= q -> q < pow2 (e + 1) -> binade q = e.
Proof.
  intros Hl Hu.
  assert (Hq : 0 < q) by (pose proof (pow2_pos e); lra).
  destruct (binade_spec q Hq) as [Bl Bu].
  assert (L1 : (binade q < e + 1)%Z) by (apply pow2_lt_inv; lra).
  assert (L2 : (e < binade q + 1)%Z) by (apply pow2_lt_inv; lra).
  lia.
Qed.

Lemma binade_comp (x y : Q) : 0 < x -> x == y -> binade x = binade y.
Proof.
  intros Hx E. destruct (binade_spec x Hx) as [Bl Bu].
  symmetry. apply binade_unique; rewrite <- E; assumption.
Qed.

Lemma binade_mono (x y : Q) : 0 < x -> x <= y -> (binade x <= binade y)%Z.
Proof.
  intros Hx H.
  destruct (binade_spec x Hx) as [Bl _].
  destruct (binade_spec y) as [_ Bu]; [lra |].
  assert (L : (binade x < binade y + 1)%Z) by (apply pow2_lt_inv; lra).
  lia.
Qed.

Lemma round_half_even_comp (x y : Q) : x == y -> round_half_even x = round_half_even y.
Proof.
  intros E. unfold round_half_even. rewrite (Qfloor_comp _ _ E).
  assert (E2 : x - inject_Z (Qfloor y) == y - inject_Z (Qfloor y)) by (rewrite E; reflexivity).
  rewrite (Qcompare_comp _ _ E2 (1#2) (1#2) (Qeq_refl _)). reflexivity.
Qed.

Lemma round_pos_comp (p : Z) (x y : Q) : 0 < x -> x == y -> round_pos p x == round_pos p y.
Proof.
  intros Hx E. unfold round_pos. rewrite (binade_comp x y Hx E).
  rewrite (round_half_even_comp (x / pow2 (binade y - p + 1)) (y / pow2 (binade y - p + 1)))
    by (rewrite E; reflexivity).
  reflexivity.
Qed.

#[export] Instance round_to_comp : Proper (eq ==> Qeq ==> Qeq) round_to.
Proof.
  intros p p' <- x y E. unfold round_to.
  rewrite (Qcompare_comp x y E 0 0 (Qeq_refl 0)).
  destruct (y ?= 0) eqn:C.
  - reflexivity.
  - apply Qlt_alt in C.
    rewrite (round_pos_comp p (- x) (- y)); [reflexivity | lra | rewrite E; reflexivity].
  - apply Qgt_alt in C.
    apply round_pos_comp; [lra | exact E].
Qed.

(** A positive number and its rounding, in units of the last place. *)
Lemma round_pos_near (p : Z) (q : Q) :
  0 < q -> Qabs (round_pos p q - q) <= q * pow2 (- p).
Proof.
  intros Hq. destruct (binade_spec q Hq) as [Bl _].
  unfold round_pos.
  set (e := binade q) in *. set (ulp := pow2 (e - p + 1)).
  assert (Hulp : 0 < ulp) by apply pow2_pos.
  pose proof (round_half_even_near (q / ulp)) as N.
  set (m := inject_Z (round_half_even (q / ulp))) in *.
  assert (Ey : q == (q / ulp) * ulp) by (field; lra).
  set (y := q / ulp) in *.
  assert (Eu : ulp == 2 * (pow2 e * pow2 (- p))).
  { unfold ulp. replace (e - p + 1)%Z with ((e + - p) + 1)%Z by lia.
    rewrite pow2_double, pow2_add. reflexivity. }
  pose proof (pow2_pos (- p)) as Hp.
  apply Qabs_Qle_condition in N. apply Qabs_Qle_condition.
  assert (B : pow2 e * pow2 (- p) <= q * pow2 (- p)).
  { apply Qmult_le_compat_r; lra. }
  assert (M1 : (m - y) * ulp <= (1 # 2) * ulp).
  { apply Qmult_le_compat_r; lra. }
  assert (M2 : (- (1 # 2)) * ulp <= (m - y) * ulp).
  { apply Qmult_le_compat_r; lra. }
  assert (E1 : m * ulp - q == (m - y) * ulp) by (rewrite Ey at 1; ring).
  rewrite E1. split; lra.
Qed.

(** The relative error of one rounding is at most [2^-p]. *)
Lemma round_to_near (p : Z) (q : Q) :
  Qabs (round_to p q - q) <= Qabs q * pow2 (- p).
Proof.
  unfold round_to. destruct (q ?= 0) eqn:C.
  - apply Qeq_alt in C.
    assert (E : 0 - q == 0) by lra. rewrite E, C.
    apply Qle_trans with 0; [apply Qle_refl |].
    apply Qmult_le_0_compat; [apply Qabs_nonneg | apply Qlt_le_weak, pow2_pos].
  - apply Qlt_alt in C.
    pose proof (round_pos_near p (- q)) as H.
    rewrite (Qabs_neg q) by lra.
    setoid_replace (- round_pos p (- q) - q) with (- (round_pos p (- q) - - q)) by ring.
    rewrite Qabs_opp. apply H. lra.
  - apply Qgt_alt in C.
    rewrite (Qabs_pos q) by lra. apply round_pos_near. exact C.
Qed.

Lemma round_pos_nonneg (p : Z) (q : Q) : 0 < q -> 0 <= round_pos p q.
Proof.
  intros Hq. unfold round_pos.
  apply Qmult_le_0_compat; [| apply Qlt_le_weak, pow2_pos].
  change 0 with (inject_Z 0). rewrite <- Zle_Qle.
  apply round_half_even_ge_int. change (inject_Z 0) with 0.
  apply Qlt_le_weak. apply Qlt_shift_div_l; [apply pow2_pos | lra].
Qed.

Lemma round_to_nonneg (p : Z) (q : Q) : 0 <= q -> 0 <= round_to p q.
Proof.
  intros Hq. unfold round_to. destruct (q ?= 0) eqn:C.
  - apply Qle_refl.
  - apply Qlt_alt in C. lra.
  - apply Qgt_alt in C. now apply round_pos_nonneg.
Qed.

(** A rounded positive number stays within its binade, ends included. *)
Lemma round_pos_binade (p : Z) (q : Q) :
  (0 < p)%Z -> 0 < q ->
  pow2 (binade q) <= round_pos p q <= pow2 (binade q + 1).
Proof.
  intros Hp Hq. destruct (binade_spec q Hq) as [Bl Bu].
  unfold round_pos.
  set (e := binade q) in *. set (ulp := pow2 (e - p + 1)).
  assert (Hulp : 0 < ulp) by apply pow2_pos.
  assert (El : pow2 e == inject_Z (2 ^ (p - 1)) * ulp).
  { unfold ulp. rewrite <- pow2_Z by lia. rewrite <- pow2_add.
    replace (p - 1 + (e - p + 1))%Z with e by lia. reflexivity. }
  assert (Eu : pow2 (e + 1) == inject_Z (2 ^ p) * ulp).
  { unfold ulp. rewrite <- pow2_Z by lia. rewrite <- pow2_add.
    replace (p + (e - p + 1))%Z with (e + 1)%Z by lia. reflexivity. }
  split.
  - rewrite El. apply Qmult_le_compat_r; [| lra].
    rewrite <- Zle_Qle. apply round_half_even_ge_int.
    apply Qle_shift_div_l; [exact Hulp | lra].
  - rewrite Eu. apply Qmult_le_compat_r; [| lra].
    rewrite <- Zle_Qle. apply round_half_even_le_int.
    apply Qle_shift_div_r; [exact Hulp | lra].
Qed.

Lemma round_pos_mono (p : Z) (x y : Q) :
  (0 < p)%Z -> 0 < x -> x <= y -> round_pos p x <= round_pos p y.
Proof.
  intros Hp Hx H.
  assert (Hy : 0 < y) by lra.
  pose proof (binade_mono x y Hx H) as B.
  destruct (Z.eq_dec (binade x) (binade y)) as [E | NE].
  - unfold round_pos. rewrite E.
    apply Qmult_le_compat_r; [| apply Qlt_le_weak, pow2_pos].
    rewrite <- Zle_Qle. apply round_half_even_mono.
    apply Qmult_le_compat_r; [exact H |].
    apply Qlt_le_weak, Qinv_lt_0_compat, pow2_pos.
  - destruct (round_pos_binade p x Hp Hx) as [_ Ux].
    destruct (round_pos_binade p y Hp Hy) as [Ly _].
    assert (L : pow2 (binade x + 1) <= pow2 (binade y)) by (apply pow2_le; lia).
    lra.
Qed.

Lemma round_to_mono (p : Z) (x y : Q) :
  (0 < p)%Z -> 0 <= x -> x <= y -> round_to p x <= round_to p y.
Proof.
  intros Hp Hx H. unfold round_to.
  destruct (x ?= 0) eqn:Cx.
  - apply (round_to_nonneg p y). lra.
  - apply Qlt_alt in Cx. lra.
  - apply Qgt_alt in Cx.
    destruct (y ?= 0) eqn:Cy.
    + apply Qeq_alt in Cy. lra.
    + apply Qlt_alt in Cy. lra.
    + now apply round_pos_mono.
Qed.

(** ** The selections of topk *)

Lemma outranks_le (s : nat -> Q) (i j : nat) :
  outranks s i j = true -> s j <= s i.
Proof.
  unfold outranks. destruct (Qcompare_spec (s i) (s j)) as [E|L|G].
  - intros _. rewrite E. apply Qle_refl.
  - discriminate.
  - intros _. now apply Qlt_le_weak.
Qed.

Lemma StronglySorted_app_inv {A : Type} (R : A -> A -> Prop) (l1 l2 : list A) :
  StronglySorted R (l1 ++ l2) ->
  forall x y, In x l1 -> In y l2 -> R x y.
Proof.
  induction l1 as [|a l1 IH]; cbn; intros H x y Hx Hy; [destruct Hx|].
  inversion H as [|? ? Hs Hf]; subst.
  destruct Hx as [->|Hx].
  - rewrite Forall_forall in Hf. apply Hf. apply in_or_app. now right.
  - now apply IH.
Qed.

Lemma StronglySorted_nth {A : Type} (R : A -> A -> Prop) (d : A) (l : list A) :
  StronglySorted R l ->
  forall a b, (a < b < length l)%nat -> R (nth a l d) (nth b l d).
Proof.
  induction 1 as [|x l Hs IH Hf]; cbn; intros a b Hab; [lia|].
  destruct b as [|b]; [lia|]. destruct a as [|a].
  - rewrite Forall_forall in Hf. apply Hf. apply nth_In. lia.
  - apply IH. lia.
Qed.

Lemma nth_firstn_lt {A : Type} (d : A) (k : nat) (l : list A) (a : nat) :
  (a < k)%nat -> nth a (firstn k l) d = nth a l d.
Proof.
  revert k l. induction a as [|a IH]; intros k l Hk;
    (destruct k as [|k]; [lia|]); destruct l as [|x l]; cbn; try reflexivity.
  apply IH. lia.
Qed.

Lemma In_firstn_nth {A : Type} (d : A) (k : nat) (l : list A) (x : A) :
  In x (firstn k l) -> exists a, (a < k)%nat /\ (a < length l)%nat /\ nth a l d = x.
Proof.
  intros H. destruct (In_nth _ _ d H) as (a & Ha & E).
  rewrite length_firstn in Ha. exists a. repeat split; try lia.
  rewrite nth_firstn_lt in E by lia. exact E.
Qed.

Lemma In_skipn_nth {A : Type} (d : A) (k : nat) (l : list A) (x : A) :
  In x (skipn k l) -> exists b, (k <= b < length l)%nat /\ nth b l d = x.
Proof.
  intros H. destruct (In_nth _ _ d H) as (b & Hb & E).
  rewrite length_skipn in Hb. exists (k + b)%nat. split; [lia|].
  rewrite nth_skipn in E. exact E.
Qed.

Lemma In_firstn_In {A : Type} (k : nat) (l : list A) (x : A) :
  In x (firstn k l) -> In x l.
Proof.
  intros H. rewrite <- (firstn_skipn k l). apply in_or_app. now left.
Qed.

(** The sort above is a selection within the contract. *)
Lemma sorted_select_contract : topk_contract sorted_select.
Proof.
  intros t k i Hk Hi. unfold sorted_select.
  set (s := at_ t i). set (c := ncols t) in *.
  pose proof (argsort_desc_sorted s c) as Hs.
  pose proof (argsort_desc_length s c) as Hl.
  repeat split.
  - rewrite length_firstn, Hl. lia.
  - apply NoDup_firstn, argsort_desc_NoDup.
  - intros x Hx. apply (argsort_desc_In s c). now apply In_firstn_In in Hx.
  - intros a b Hab. rewrite !nth_firstn_lt by lia.
    destruct (Nat.eq_dec a b) as [->|Hne]; [apply Qle_refl|].
    apply outranks_le.
    apply (StronglySorted_nth (before s) 0%nat _ Hs). lia.
  - intros x y Hx Hy Hny.
    apply outranks_le.
    apply (StronglySorted_app_inv (before s) (firstn k (argsort_desc s c))
             (skipn k (argsort_desc s c))).
    + now rewrite firstn_skipn.
    + exact Hx.
    + assert (Hin : In y (argsort_desc s c)) by now apply argsort_desc_In.
      rewrite <- (firstn_skipn k) in Hin. apply in_app_or in Hin.
      destruct Hin as [Hin|Hin]; [contradiction|exact Hin].
Qed.

Section Selection.

Variable select : tensor2 Q -> nat -> nat -> list nat.
Hypothesis Hsel : topk_contract select.

Variables (t : tensor2 Q) (maxk i : nat).
Hypothesis Hmaxk : (maxk <= ncols t)%nat.
Hypothesis Hi : (i < nrows t)%nat.

(** The first [k] of the classes selected are [k] largest as well. *)
Lemma select_prefix_largest (k x y : nat) :
  In x (firstn k (select t maxk i)) -> (y < ncols t)%nat ->
  ~ In y (firstn k (select t maxk i)) ->
  at_ t i y <= at_ t i x.
Proof.
  intros Hx Hy Hny.
  destruct (Hsel t maxk i Hmaxk Hi) as (Hlen & Hnd & Hlt & Hsorted & Hrest).
  destruct (In_firstn_nth 0%nat _ _ _ Hx) as (a & Hak & Hal & Ea).
  destruct (in_dec Nat.eq_dec y (select t maxk i)) as [Hin|Hnin].
  - rewrite <- (firstn_skipn k) in Hin. apply in_app_or in Hin.
    destruct Hin as [Hin|Hin]; [contradiction|].
    destruct (In_skipn_nth 0%nat _ _ _ Hin) as (b & Hb & Eb).
    rewrite <- Ea, <- Eb. apply Hsorted. lia.
  - apply Hrest; [|exact Hy|exact Hnin].
    now apply In_firstn_In in Hx.
Qed.

Lemma select_prefix_length (k : nat) :
  (k <= maxk)%nat -> length (firstn k (select t maxk i)) = k.
Proof.
  intros Hk.
  destruct (Hsel t maxk i Hmaxk Hi) as (Hlen & _).
  rewrite length_firstn, Hlen. lia.
Qed.

Lemma select_prefix_NoDup (k : nat) : NoDup (firstn k (select t maxk i)).
Proof.
  destruct (Hsel t maxk i Hmaxk Hi) as (_ & Hnd & _).
  now apply NoDup_firstn.
Qed.

Lemma select_prefix_lt (k x : nat) :
  In x (firstn k (select t maxk i)) -> (x < ncols t)%nat.
Proof.
  intros Hx. destruct (Hsel t maxk i Hmaxk Hi) as (_ & _ & Hlt & _).
  apply Hlt. now apply In_firstn_In in Hx.
Qed.

(** A class among the first [k] has fewer than [k] classes above it. *)
Lemma select_prefix_above (k x : nat) :
  (k <= maxk)%nat ->
  In x (firstn k (select t maxk i)) ->
  (above (at_ t i) (ncols t) x < k)%nat.
Proof.
  intros Hk Hx. unfold above.
  set (f := fun j => negb (Qle_bool (at_ t i j) (at_ t i x))).
  assert (Hnd : NoDup (x :: filter f (seq 0 (ncols t)))).
  { constructor.
    - intros H. apply filter_In in H. destruct H as [_ H]. unfold f in H.
      assert (E : Qle_bool (at_ t i x) (at_ t i x) = true)
        by (apply Qle_bool_iff, Qle_refl).
      rewrite E in H. discriminate.
    - apply NoDup_filter, seq_NoDup. }
  assert (Hincl : incl (x :: filter f (seq 0 (ncols t)))
                       (firstn k (select t maxk i))).
  { intros j [<-|Hj]; [exact Hx|].
    apply filter_In in Hj. destruct Hj as [Hj Hf]. apply in_seq in Hj.
    destruct (in_dec Nat.eq_dec j (firstn k (select t maxk i))) as [|Hn];
      [assumption|].
    exfalso. unfold f in Hf. apply negb_true_iff in Hf.
    assert (L : at_ t i j <= at_ t i x)
      by (apply (select_prefix_largest k); [exact Hx|lia|exact Hn]).
    apply Qle_bool_iff in L. congruence. }
  pose proof (NoDup_incl_length Hnd Hincl) as L.
  rewrite select_prefix_length in L by exact Hk. cbn in L. lia.
Qed.

(** A class with fewer than [k] others at its level or above is among the
    first [k]. *)
Lemma select_prefix_not_below (k l : nat) :
  (k <= maxk)%nat -> (l < ncols t)%nat ->
  (not_below (at_ t i) (ncols t) l < k)%nat ->
  In l (firstn k (select t maxk i)).
Proof.
  intros Hk Hl Hnb.
  destruct (in_dec Nat.eq_dec l (firstn k (select t maxk i))) as [|Hn];
    [assumption|].
  exfalso. unfold not_below in Hnb.
  set (f := fun j => negb (j =? l)%nat && Qle_bool (at_ t i l) (at_ t i j)) in Hnb.
  assert (Hincl : incl (firstn k (select t maxk i)) (filter f (seq 0 (ncols t)))).
  { intros x Hx. apply filter_In. split.
    - apply in_seq. pose proof (select_prefix_lt k x Hx). lia.
    - unfold f. apply andb_true_iff. split.
      + apply negb_true_iff, Nat.eqb_neq. intros ->. contradiction.
      + apply Qle_bool_iff. now apply (select_prefix_largest k). }
  pose proof (NoDup_incl_length (select_prefix_NoDup k) Hincl) as L.
  rewrite select_prefix_length in L by exact Hk. lia.
Qed.

(** With all the classes selected, every class is. *)
Lemma select_all_classes (l : nat) :
  maxk = ncols t -> (l < ncols t)%nat -> In l (select t maxk i).
Proof.
  intros E Hl.
  destruct (Hsel t maxk i Hmaxk Hi) as (Hlen & Hnd & Hlt & _).
  assert (Hincl : incl (select t maxk i) (seq 0 (ncols t))).
  { intros x Hx. apply in_seq. specialize (Hlt x Hx). lia. }
  assert (Hback : incl (seq 0 (ncols t)) (select t maxk i)).
  { apply NoDup_length_incl; [exact Hnd| |exact Hincl].
    rewrite length_seq, Hlen. lia. }
  apply Hback. apply in_seq. lia.
Qed.

End Selection.

(** ** accuracy: the count of each entry *)

Lemma filter_length_mono_in {A : Type} (f g : A -> bool) (l : list A) :
  (forall x, In x l -> f x = true -> g x = true) ->
  (length (filter f l) <= length (filter g l))%nat.
Proof.
  induction l as [|a l IH]; intros H; cbn; [lia|].
  assert (IH' : (length (filter f l) <= length (filter g l))%nat).
  { apply IH. intros x Hx. apply H. now right. }
  destruct (f a) eqn:E.
  - rewrite (H a (or_introl eq_refl) E). cbn. lia.
  - destruct (g a); cbn; lia.
Qed.

Lemma existsb_firstn_mono {A : Type} (f : A -> bool) (k1 k2 : nat) (l : list A) :
  (k1 <= k2)%nat -> existsb f (firstn k1 l) = true -> existsb f (firstn k2 l) = true.
Proof.
  intros Hk H. apply existsb_exists in H. destruct H as (x & Hx & Hf).
  apply existsb_exists. exists x. split; [|exact Hf].
  apply (In_firstn_In k1). rewrite firstn_firstn, Nat.min_l by exact Hk. exact Hx.
Qed.

Section Picked.

Variable select : tensor2 Q -> nat -> nat -> list nat.
Hypothesis Hsel : topk_contract select.

Variables (output : tensor2 Q) (target : list Z) (maxk : nat).
Hypothesis Hmaxk : (maxk <= ncols output)%nat.

(** The true entries of [correct[:k]] are the examples whose label is
    among the first [k] classes selected for them. *)
Lemma count_true_picked (k : nat) :
  (k <= maxk)%nat ->
  count_true
    (take_rows k
       (tensor_eq
          (transpose {| nrows := nrows output; ncols := maxk;
                        at_ := fun i r => nth r (select output maxk i) 0%nat |})
          {| nrows := maxk; ncols := nrows output;
             at_ := fun _ j => nth j target 0%Z |}))
  = Rounded.picked select output target maxk k.
Proof.
  intros Hk. unfold count_true, Rounded.picked. cbn.
  rewrite Nat.min_l by exact Hk.
  rewrite list_sum_swap.
  rewrite <- list_sum_indicator. f_equal.
  apply map_ext_in. intros j Hj. apply in_seq in Hj.
  destruct (Hsel output maxk j Hmaxk) as (Hlen & Hnd & _); [lia|].
  rewrite <- (map_map (fun i => nth i (select output maxk j) 0%nat)
                      (fun x => if (Z.of_nat x =? nth j target 0%Z)%Z
                                then 1 else 0)%nat).
  rewrite map_nth_seq by lia.
  apply list_sum_match_NoDup. now apply NoDup_firstn.
Qed.

Lemma picked_le (k : nat) :
  (Rounded.picked select output target maxk k <= nrows output)%nat.
Proof.
  unfold Rounded.picked.
  pose proof (filter_length_le
    (fun j => existsb (fun x => (Z.of_nat x =? nth j target 0%Z)%Z)
                      (firstn k (select output maxk j)))
    (seq 0 (nrows output))) as H.
  now rewrite length_seq in H.
Qed.

Lemma picked_mono (k1 k2 : nat) :
  (k1 <= k2)%nat ->
  (Rounded.picked select output target maxk k1
   <= Rounded.picked select output target maxk k2)%nat.
Proof.
  intros Hk. unfold Rounded.picked. apply filter_length_mono.
  intros j. now apply existsb_firstn_mono.
Qed.

(** Whatever the selection does with equal scores, the count lies between
    the examples whose label every selection takes and those whose label
    some selection takes. *)
Lemma picked_between (k : nat) :
  (k <= maxk)%nat ->
  (hits_sure output target k <= Rounded.picked select output target maxk k
   <= hits_possible output target k)%nat.
Proof.
  intros Hk. unfold hits_sure, hits_possible, Rounded.picked. split.
  - apply filter_length_mono_in. intros j Hj. apply in_seq in Hj.
    unfold surely_among.
    rewrite !andb_true_iff, Z.leb_le, Z.ltb_lt, Nat.ltb_lt.
    intros [[H0 Hc] Hnb].
    apply existsb_exists. exists (Z.to_nat (nth j target 0%Z)). split.
    + apply (select_prefix_not_below select Hsel output maxk j Hmaxk); lia.
    + apply Z.eqb_eq. lia.
  - apply filter_length_mono_in. intros j Hj. apply in_seq in Hj.
    intros H. apply existsb_exists in H. destruct H as (x & Hx & E).
    apply Z.eqb_eq in E.
    assert (Hj' : (j < nrows output)%nat) by lia.
    pose proof (select_prefix_lt select Hsel output maxk j Hmaxk Hj' k x Hx) as Hlt.
    pose proof (select_prefix_above select Hsel output maxk j Hmaxk Hj' k x Hk Hx)
      as Hab.
    unfold possibly_among.
    rewrite !andb_true_iff, Z.leb_le, Z.ltb_lt, Nat.ltb_lt.
    rewrite <- E, Nat2Z.id. repeat split; try lia.
Qed.

(** With all the classes selected, every label in range is found. *)
Lemma picked_all_classes :
  maxk = ncols output ->
  length target = nrows output ->
  Forall (fun t => 0 <= t < Z.of_nat (ncols output))%Z target ->
  Rounded.picked select output target maxk maxk = nrows output.
Proof.
  intros E Hlen Hlab. unfold Rounded.picked.
  rewrite filter_all; [apply length_seq|].
  intros j Hj. apply in_seq in Hj. rewrite Forall_forall in Hlab.
  assert (Ht : (0 <= nth j target 0 < Z.of_nat (ncols output))%Z).
  { apply Hlab. apply nth_In. lia. }
  apply existsb_exists. exists (Z.to_nat (nth j target 0%Z)). split.
  - rewrite firstn_all2.
    + apply (select_all_classes select Hsel output maxk j Hmaxk); lia.
    + destruct (Hsel output maxk j Hmaxk) as (Hl & _); lia.
  - apply Z.eqb_eq. lia.
Qed.

End Picked.

(** ** accuracy: what it returns *)

Section RoundedAccuracy.

Variables double single : Q -> Q.
Variable select : tensor2 Q -> nat -> nat -> list nat.
Hypothesis Hsel : topk_contract select.

Lemma rounded_accuracy_loop_ok (correct : tensor2 bool) (batch_size : nat)
  (ks : list nat) :
  batch_size <> 0%nat ->
  Rounded.accuracy_loop double single correct batch_size ks
  = inr (map (fun k => single (Q_of_nat (count_true (take_rows k correct))
                               * single (double (100 / Q_of_nat batch_size))))
             ks).
Proof.
  intros Hb. induction ks as [|k ks IH]; cbn; [reflexivity|].
  rewrite IH. unfold Rounded.percent_unit.
  apply Nat.eqb_neq in Hb. rewrite Hb. reflexivity.
Qed.

(** On a non-empty batch, for a non-empty [topk] within the number of
    classes: per [k], the float32 product of the count and of
    [100.0 / batch_size]. *)
Lemma rounded_accuracy_ok (output : tensor2 Q) (target : list Z) (ks : list nat) :
  ks <> [] ->
  Forall (fun k => (k <= ncols output)%nat) ks ->
  length target = nrows output ->
  nrows output <> 0%nat ->
  Rounded.accuracy double single select output target ks
  = inr (map (fun k =>
               single (Q_of_nat (Rounded.picked select output target (list_max ks) k)
                       * single (double (100 / Q_of_nat (nrows output)))))
             ks).
Proof.
  intros Hks Hle Hlen Hn.
  assert (Hmax : (list_max ks <= ncols output)%nat) by now apply list_max_le.
  unfold Rounded.accuracy. destruct ks as [|k0 ks0] eqn:Eks; [congruence|].
  rewrite <- Eks in *. clear Hks.
  unfold Rounded.topk. apply Nat.ltb_ge in Hmax as Hlt. rewrite Hlt. cbn [bind ret].
  unfold expand_as. cbn [ncols transpose nrows].
  rewrite Hlen, Nat.eqb_refl. cbn [bind ret].
  rewrite rounded_accuracy_loop_ok by exact Hn.
  f_equal. apply map_ext_in. intros k Hk.
  f_equal. f_equal. f_equal.
  apply (count_true_picked select Hsel output target (list_max ks) Hmax k).
  now apply list_max_ge.
Qed.

End RoundedAccuracy.

(** ** accuracy: the rounding of an entry *)

Lemma round_to_between (p : Z) (x : Q) :
  0 <= x ->
  x * (1 - pow2 (- p)) <= round_to p x <= x * (1 + pow2 (- p)).
Proof.
  intros Hx. pose proof (round_to_near p x) as H.
  rewrite (Qabs_pos x) in H by exact Hx.
  apply Qabs_Qle_condition in H. split; lra.
Qed.

Lemma binary64_between (x : Q) :
  0 <= x ->
  x * (1 - (1 # 9007199254740992)) <= binary64 x
  <= x * (1 + (1 # 9007199254740992)).
Proof. apply (round_to_between 53). Qed.

Lemma binary32_between (x : Q) :
  0 <= x ->
  x * (1 - (1 # 16777216)) <= binary32 x <= x * (1 + (1 # 16777216)).
Proof. apply (round_to_between 24). Qed.

Lemma binary32_mono (x y : Q) : 0 <= x -> x <= y -> binary32 x <= binary32 y.
Proof. apply round_to_mono. reflexivity. Qed.

(** [100.0 / n] as a float32 number. *)
Lemma percent_unit32_between (n : nat) :
  n <> 0%nat ->
  let r := 100 / Q_of_nat n in
  let u := binary32 (binary64 r) in
  0 <= u
  /\ r * ((1 - (1 # 9007199254740992)) * (1 - (1 # 16777216))) <= u
  /\ u <= r * ((1 + (1 # 9007199254740992)) * (1 + (1 # 16777216))).
Proof.
  intros Hn r u.
  assert (Hr : 0 <= r) by now apply percent_unit_nonneg.
  pose proof (binary64_between r Hr) as [D1 D2].
  assert (Hd : 0 <= binary64 r) by now apply round_to_nonneg.
  pose proof (binary32_between (binary64 r) Hd) as [U1 U2].
  fold u in U1, U2.
  split; [now apply round_to_nonneg|]. split; lra.
Qed.

(** An entry of the result: the float32 product of a count [h <= n] and of
    [100.0 / n] is [100 * h / n] up to a relative error of [2^-22], and
    lies in [[0, 100 * (1 + 2^-22)]]. *)
Lemma entry_bounds (h n : nat) :
  n <> 0%nat -> (h <= n)%nat ->
  let a := binary32 (Q_of_nat h * binary32 (binary64 (100 / Q_of_nat n))) in
  Qabs (a - 100 * (Q_of_nat h / Q_of_nat n))
  <= 100 * (Q_of_nat h / Q_of_nat n) * pow2 (-22)
  /\ 0 <= a <= 100 * (1 + pow2 (-22)).
Proof.
  intros Hn Hh a.
  assert (E22 : pow2 (-22) == 1 # 4194304) by reflexivity.
  rewrite E22.
  destruct (percent_unit32_between n Hn) as (U0 & U1 & U2).
  set (r := 100 / Q_of_nat n) in *.
  set (u := binary32 (binary64 r)) in *.
  pose proof (Q_of_nat_nonneg h) as H0.
  assert (Hx : 0 <= Q_of_nat h * u) by now apply Qmult_le_0_compat.
  pose proof (binary32_between (Q_of_nat h * u) Hx) as [A1 A2].
  fold a in A1, A2.
  assert (X1 : Q_of_nat h * (r * ((1 - (1 # 9007199254740992)) * (1 - (1 # 16777216))))
               <= Q_of_nat h * u).
  { rewrite !(Qmult_comm (Q_of_nat h)). now apply Qmult_le_compat_r. }
  assert (X2 : Q_of_nat h * u
               <= Q_of_nat h * (r * ((1 + (1 # 9007199254740992)) * (1 + (1 # 16777216))))).
  { rewrite !(Qmult_comm (Q_of_nat h)). now apply Qmult_le_compat_r. }
  assert (ET : 100 * (Q_of_nat h / Q_of_nat n) == Q_of_nat h * r).
  { unfold r. field. now apply Q_of_nat_nonzero. }
  assert (T0 : 0 <= Q_of_nat h * r).
  { apply Qmult_le_0_compat; [exact H0|now apply percent_unit_nonneg]. }
  assert (T100 : Q_of_nat h * r <= 100).
  { unfold r. now apply percentage_bounds. }
  rewrite ET.
  set (T := Q_of_nat h * r) in *. set (X := Q_of_nat h * u) in *.
  assert (X1' : T * ((1 - (1 # 9007199254740992)) * (1 - (1 # 16777216))) <= X)
    by (unfold T; lra).
  assert (X2' : X <= T * ((1 + (1 # 9007199254740992)) * (1 + (1 # 16777216))))
    by (unfold T; lra).
  split.
  - apply Qabs_Qle_condition. split; lra.
  - split; [now apply round_to_nonneg|]. lra.
Qed.

(** ** accuracy: percentages, monotonicity, all classes *)

(** Where no two classes score alike, the label that some selection takes
    is the label every selection takes. *)
Lemma hits_sure_possible_distinct (output : tensor2 Q) (target : list Z) (k : nat) :
  rows_distinct output ->
  hits_sure output target k = hits_possible output target k.
Proof.
  intros Hd. unfold hits_sure, hits_possible. f_equal.
  apply filter_ext_in. intros i Hi. apply in_seq in Hi.
  unfold surely_among, possibly_among.
  destruct ((0 <=? nth i target 0)%Z && (nth i target 0 <? Z.of_nat (ncols output))%Z)
    eqn:R; [|reflexivity].
  cbn [andb]. f_equal.
  apply andb_true_iff in R. destruct R as [R0 Rc].
  apply Z.leb_le in R0. apply Z.ltb_lt in Rc.
  set (l := Z.to_nat (nth i target 0%Z)).
  assert (Hl : (l < ncols output)%nat) by (unfold l; lia).
  unfold not_below, above. f_equal.
  apply filter_ext_in. intros j Hj. apply in_seq in Hj.
  destruct (Nat.eqb_spec j l) as [->|Hne]; cbn [negb andb].
  - assert (E : Qle_bool (at_ output i l) (at_ output i l) = true)
      by (apply Qle_bool_iff, Qle_refl).
    now rewrite E.
  - assert (Hneq : ~ at_ output i j == at_ output i l)
      by (apply Hd; lia).
    destruct (Qle_bool (at_ output i j) (at_ output i l)) eqn:A;
      destruct (Qle_bool (at_ output i l) (at_ output i j)) eqn:B;
      try reflexivity; exfalso.
    + apply Qle_bool_iff in A, B. apply Hneq. now apply Qle_antisym.
    + assert (A' : ~ at_ output i j <= at_ output i l)
        by (intros H; apply Qle_bool_iff in H; congruence).
      assert (B' : ~ at_ output i l <= at_ output i j)
        by (intros H; apply Qle_bool_iff in H; congruence).
      apply Qnot_le_lt in A'. apply B'. now apply Qlt_le_weak.
Qed.

(** What [accuracy] says of one entry: the count behind it, and how far
    the rounding takes it from 100 times count / N. *)
Lemma rounded_entry (select : tensor2 Q -> nat -> nat -> list nat)
  (output : tensor2 Q) (target : list Z) (maxk k : nat) :
  topk_contract select ->
  nrows output <> 0%nat ->
  (maxk <= ncols output)%nat -> (k <= maxk)%nat ->
  let h := Rounded.picked select output target maxk k in
  let a := binary32 (Q_of_nat h
                     * binary32 (binary64 (100 / Q_of_nat (nrows output)))) in
  (hits_sure output target k <= h <= hits_possible output target k)%nat
  /\ (rows_distinct output -> h = hits_possible output target k)
  /\ Qabs (a - 100 * (Q_of_nat h / Q_of_nat (nrows output)))
     <= 100 * (Q_of_nat h / Q_of_nat (nrows output)) * pow2 (-22)
  /\ 0 <= a <= 100 * (1 + pow2 (-22)).
Proof.
  intros Hsel Hn Hmaxk Hk h a.
  pose proof (picked_between select Hsel output target maxk Hmaxk k Hk) as B.
  fold h in B.
  split; [exact B|]. split.
  - intros Hd. rewrite (hits_sure_possible_distinct output target k Hd) in B. lia.
  - apply entry_bounds; [exact Hn|]. apply picked_le.
Qed.

(** C1, with the conditions the code needs and the arithmetic it runs on.
    For a batch of [N] score vectors over [C] classes, [0 < N <= 2^24],
    [N] labels and a non-empty [ks] of positive integers up to [C],
    [accuracy] returns one entry per [k], in the order of [ks].  The entry
    is the float32 product of a count and of [100.0 / N]: the count of the
    examples whose label is among the first [k] classes [topk] returned for
    them, which every selection within the contract of [topk] places between
    the examples whose label has fewer than [k] other classes at its score
    or above, and those whose label has fewer than [k] classes above its
    score; the two are one number where no two classes score alike.  The
    entry is 100 times count / N up to a relative error of [2^-22], and lies
    in [[0, 100 * (1 + 2^-22)]]. *)
Theorem accuracy_rounded_percentages
  (select : tensor2 Q -> nat -> nat -> list nat)
  (output : tensor2 Q) (target : list Z) (ks : list nat)
  (Hsel : topk_contract select)
  (Hks : ks <> [])
  (Hn : nrows output <> 0%nat)
  (Hn24 : (Z.of_nat (nrows output) <= 2 ^ 24)%Z)
  (Hlen : length target = nrows output)
  (Hlab : Forall (fun t => 0 <= t < Z.of_nat (ncols output))%Z target)
  (Hk : Forall (fun k => 0 < k <= ncols output)%nat ks) :
  exists res,
    Rounded.accuracy binary64 binary32 select output target ks = inr res
    /\ Forall2 (fun k a =>
         exists h : nat,
           h = Rounded.picked select output target (list_max ks) k
           /\ (hits_sure output target k <= h <= hits_possible output target k)%nat
           /\ (rows_distinct output -> h = hits_possible output target k)
           /\ a = binary32 (Q_of_nat h
                            * binary32 (binary64 (100 / Q_of_nat (nrows output))))
           /\ Qabs (a - 100 * (Q_of_nat h / Q_of_nat (nrows output)))
              <= 100 * (Q_of_nat h / Q_of_nat (nrows output)) * pow2 (-22)
           /\ 0 <= a <= 100 * (1 + pow2 (-22)))
       ks res.
Proof.
  assert (Hle : Forall (fun k => (k <= ncols output)%nat) ks).
  { eapply Forall_impl; [|exact Hk]. cbn. intros k H. lia. }
  assert (Hmax : (list_max ks <= ncols output)%nat) by now apply list_max_le.
  eexists. split.
  - now apply rounded_accuracy_ok.
  - assert (Hin : forall k, In k ks -> (k <= list_max ks)%nat)
      by (intros k; apply list_max_ge).
    clear Hks Hk Hle. revert Hin Hmax. generalize (list_max ks) as maxk.
    intros maxk Hin Hmax.
    induction ks as [|k ks IH]; cbn [map]; constructor.
    + exists (Rounded.picked select output target maxk k).
      assert (Hkm : (k <= maxk)%nat) by (apply Hin; now left).
      destruct (rounded_entry select output target maxk k Hsel Hn Hmax Hkm)
        as (B & D & E & R).
      repeat split; try assumption; try apply B; try apply R.
    + apply IH. intros x Hx. apply Hin. now right.
Qed.

(** C7.  In the result of one call on a non-empty batch, the entry of a
    smaller [k] is at most the entry of a larger one: the first [k1] of the
    classes selected are among the first [k2], and rounding keeps the
    order. *)
Theorem accuracy_rounded_monotone
  (select : tensor2 Q -> nat -> nat -> list nat)
  (output : tensor2 Q) (target : list Z) (ks : list nat)
  (Hsel : topk_contract select)
  (Hks : ks <> [])
  (Hn : nrows output <> 0%nat)
  (Hn24 : (Z.of_nat (nrows output) <= 2 ^ 24)%Z)
  (Hlen : length target = nrows output)
  (Hk : Forall (fun k => (k <= ncols output)%nat) ks) :
  exists res,
    Rounded.accuracy binary64 binary32 select output target ks = inr res
    /\ length res = length ks
    /\ forall k1 a1 k2 a2,
         In (k1, a1) (combine ks res) -> In (k2, a2) (combine ks res) ->
         (k1 <= k2)%nat -> a1 <= a2.
Proof.
  assert (Hmax : (list_max ks <= ncols output)%nat) by now apply list_max_le.
  eexists. split; [now apply rounded_accuracy_ok|].
  split; [apply length_map|].
  set (f := fun k => binary32
     (Q_of_nat (Rounded.picked select output target (list_max ks) k)
      * binary32 (binary64 (100 / Q_of_nat (nrows output))))).
  assert (Hcomb : forall l k a, In (k, a) (combine l (map f l)) -> a = f k).
  { induction l as [|x l IH]; cbn; intros k a H; [destruct H|].
    destruct H as [[= <- <-]|H]; [reflexivity|now apply IH]. }
  intros k1 a1 k2 a2 H1 H2 Hle.
  apply Hcomb in H1, H2. subst a1 a2. unfold f.
  destruct (percent_unit32_between (nrows output) Hn) as (U0 & _).
  apply binary32_mono.
  - apply Qmult_le_0_compat; [apply Q_of_nat_nonneg|exact U0].
  - apply Qmult_le_compat_r; [|exact U0].
    apply Q_of_nat_le. now apply picked_mono.
Qed.

(** C8, in the arithmetic of the code.  On a batch of [N] examples,
    [0 < N <= 2^24], with labels in [[0, C)], every label is among the [C]
    classes selected and the top-[C] entry is the float32 product of [N] and
    of [100.0 / N]: 100 up to a relative error of [2^-22]. *)
Theorem accuracy_rounded_all_classes
  (select : tensor2 Q -> nat -> nat -> list nat)
  (output : tensor2 Q) (target : list Z)
  (Hsel : topk_contract select)
  (Hn : nrows output <> 0%nat)
  (Hn24 : (Z.of_nat (nrows output) <= 2 ^ 24)%Z)
  (Hlen : length target = nrows output)
  (Hlab : Forall (fun t => 0 <= t < Z.of_nat (ncols output))%Z target) :
  exists a,
    Rounded.accuracy binary64 binary32 select output target [ncols output]
    = inr [a]
    /\ a = binary32 (Q_of_nat (nrows output)
                     * binary32 (binary64 (100 / Q_of_nat (nrows output))))
    /\ Qabs (a - 100) <= 100 * pow2 (-22).
Proof.
  assert (Hm : list_max [ncols output] = ncols output) by (cbn; lia).
  eexists. split; [|split; [reflexivity|]].
  - rewrite (rounded_accuracy_ok binary64 binary32 select Hsel output target
               [ncols output]); try assumption;
      [|discriminate|repeat constructor].
    cbn [map]. rewrite Hm.
    rewrite (picked_all_classes select Hsel output target (ncols output));
      try assumption; [reflexivity|lia|reflexivity].
  - destruct (entry_bounds (nrows output) (nrows output) Hn (Nat.le_refl _))
      as [E _]. cbn zeta in E.
    assert (E1 : 100 * (Q_of_nat (nrows output) / Q_of_nat (nrows output)) == 100)
      by (field; now apply Q_of_nat_nonzero).
    rewrite E1 in E. exact E.
Qed.

Lemma accuracy_rounded_percentages_witness :
  exists res,
    Rounded.accuracy binary64 binary32 sorted_select scores_same_top
                     sample_labels [1; 2]%nat = inr res
    /\ Forall2 (fun k a =>
         exists h : nat,
           h = Rounded.picked sorted_select scores_same_top sample_labels
                              (list_max [1; 2]%nat) k
           /\ (hits_sure scores_same_top sample_labels k <= h
               <= hits_possible scores_same_top sample_labels k)%nat
           /\ (rows_distinct scores_same_top
               -> h = hits_possible scores_same_top sample_labels k)
           /\ a = binary32 (Q_of_nat h
                            * binary32 (binary64
                                (100 / Q_of_nat (nrows scores_same_top))))
           /\ Qabs (a - 100 * (Q_of_nat h / Q_of_nat (nrows scores_same_top)))
              <= 100 * (Q_of_nat h / Q_of_nat (nrows scores_same_top))
                 * pow2 (-22)
           /\ 0 <= a <= 100 * (1 + pow2 (-22)))
       [1; 2]%nat res.
Proof.
  apply accuracy_rounded_percentages.
  - apply sorted_select_contract.
  - discriminate.
  - discriminate.
  - cbn. lia.
  - reflexivity.
  - repeat constructor; cbn; lia.
  - repeat constructor.
Defined.

(** C1 as stated fails on the inputs the code does not serve, an empty
    [topk] and an empty batch, and on a batch of 45 examples that are all
    right: the entry is [100 + 2^-17], past 100. *)
Lemma accuracy_rounded_claim_fails :
  Rounded.accuracy binary64 binary32 sorted_select scores_same_top
                   sample_labels [] = inl ValueError
  /\ Rounded.accuracy binary64 binary32 sorted_select scores_empty []
                      [1%nat] = inl ZeroDivisionError
  /\ (exists a,
        Rounded.accuracy binary64 binary32 sorted_select scores_one_class
                         labels_one_class [1%nat] = inr [a]
        /\ a == 100 + (1 # 131072))
  /\ ~ (forall (select : tensor2 Q -> nat -> nat -> list nat)
               (output : tensor2 Q) (target : list Z) (ks : list nat),
           topk_contract select ->
           length target = nrows output ->
           Forall (fun t => 0 <= t < Z.of_nat (ncols output))%Z target ->
           Forall (fun k => 0 < k <= ncols output)%nat ks ->
           exists res,
             Rounded.accuracy binary64 binary32 select output target ks
             = inr res
             /\ Forall2 (fun k a =>
                  (exists h : nat,
                     (hits_sure output target k <= h
                      <= hits_possible output target k)%nat
                     /\ a == 100 * (Q_of_nat h / Q_of_nat (nrows output)))
                  /\ 0 <= a <= 100) ks res).
Proof.
  split; [reflexivity|]. split; [reflexivity|]. split.
  - eexists. split; [vm_compute; reflexivity|]. reflexivity.
  - intros H.
    destruct (H sorted_select scores_one_class labels_one_class [1%nat])
      as (res & Hres & Hall).
    + apply sorted_select_contract.
    + reflexivity.
    + apply Forall_forall. intros x Hx. apply repeat_spec in Hx. subst x.
      cbn. lia.
    + repeat constructor.
    + vm_compute in Hres. injection Hres as <-.
      inversion Hall as [|? ? ? ? [_ [_ Hb]] _]; subst.
      vm_compute in Hb. apply Hb. reflexivity.
Qed.

Lemma accuracy_rounded_monotone_witness :
  exists res,
    Rounded.accuracy binary64 binary32 sorted_select scores_same_top
                     sample_labels [1; 2]%nat = inr res
    /\ length res = length [1; 2]%nat
    /\ forall k1 a1 k2 a2,
         In (k1, a1) (combine [1; 2]%nat res) ->
         In (k2, a2) (combine [1; 2]%nat res) ->
         (k1 <= k2)%nat -> a1 <= a2.
Proof.
  apply accuracy_rounded_monotone.
  - apply sorted_select_contract.
  - discriminate.
  - discriminate.
  - cbn. lia.
  - reflexivity.
  - repeat constructor.
Defined.

Lemma accuracy_rounded_all_classes_witness :
  exists a,
    Rounded.accuracy binary64 binary32 sorted_select scores_same_top
                     sample_labels [ncols scores_same_top] = inr [a]
    /\ a = binary32 (Q_of_nat (nrows scores_same_top)
                     * binary32 (binary64
                         (100 / Q_of_nat (nrows scores_same_top))))
    /\ Qabs (a - 100) <= 100 * pow2 (-22).
Proof.
  apply accuracy_rounded_all_classes.
  - apply sorted_select_contract.
  - discriminate.
  - cbn. lia.
  - reflexivity.
  - repeat constructor; cbn; lia.
Defined.

(** C8 as stated fails on 45 examples of one class: every label is found,
    and the entry is [100 + 2^-17] (100.00000762939453). *)
Lemma accuracy_all_classes_not_100 :
  (exists a,
      Rounded.accuracy binary64 binary32 sorted_select scores_one_class
                       labels_one_class [ncols scores_one_class] = inr [a]
      /\ a == 100 + (1 # 131072) /\ ~ a == 100)
  /\ ~ (forall (select : tensor2 Q -> nat -> nat -> list nat)
               (output : tensor2 Q) (target : list Z),
           topk_contract select ->
           nrows output <> 0%nat ->
           length target = nrows output ->
           Forall (fun t => 0 <= t < Z.of_nat (ncols output))%Z target ->
           exists a,
             Rounded.accuracy binary64 binary32 select output target
                              [ncols output] = inr [a]
             /\ a == 100).
Proof.
  split.
  - eexists. split; [vm_compute; reflexivity|]. split; [reflexivity|discriminate].
  - intros H.
    destruct (H sorted_select scores_one_class labels_one_class)
      as (a & Ha & E).
    + apply sorted_select_contract.
    + discriminate.
    + reflexivity.
    + apply Forall_forall. intros x Hx. apply repeat_spec in Hx. subst x.
      cbn. lia.
    + vm_compute in Ha. injection Ha as <-. discriminate E.
Qed.

(** ** The exact layer within the rounded one *)

Lemma rounded_accuracy_loop_exact (correct : tensor2 bool) (batch_size : nat)
  (ks : list nat) :
  Rounded.accuracy_loop (fun q => q) (fun q => q) correct batch_size ks
  = accuracy_loop correct batch_size ks.
Proof.
  induction ks as [|k ks IH]; cbn [Rounded.accuracy_loop accuracy_loop];
    [reflexivity|].
  rewrite IH. reflexivity.
Qed.

(** With no rounding, and the selection that puts the smaller index first
    among equal scores, [Rounded.accuracy] is [accuracy]. *)
Lemma rounded_accuracy_exact (output : tensor2 Q) (target : list Z)
  (ks : list nat) :
  Rounded.accuracy (fun q => q) (fun q => q) sorted_select output target ks
  = accuracy output target ks.
Proof.
  unfold Rounded.accuracy, accuracy. destruct ks as [|k0 ks0] eqn:E;
    [reflexivity|]. rewrite <- E.
  unfold Rounded.topk, topk.
  destruct (ncols output <? list_max ks)%nat; [reflexivity|]. cbn [bind ret].
  unfold expand_as. cbn [ncols nrows transpose].
  assert (Hloop : forall other : tensor2 Z,
    Rounded.accuracy_loop (fun q => q) (fun q => q)
      (tensor_eq (transpose {| nrows := nrows output; ncols := list_max ks;
                   at_ := fun i r =>
                     nth r (sorted_select output (list_max ks) i) 0%nat |})
                 other) (length target) ks
    = accuracy_loop
      (tensor_eq (transpose {| nrows := nrows output; ncols := list_max ks;
                   at_ := fun i r =>
                     nth r (argsort_desc (at_ output i) (ncols output)) 0%nat |})
                 other) (length target) ks).
  { intros other. rewrite rounded_accuracy_loop_exact.
    apply accuracy_loop_ext. intros k.
    apply count_true_ext; cbn; try reflexivity.
    intros i j Hi _. unfold sorted_select.
    rewrite nth_firstn_lt by lia. reflexivity. }
  destruct (length target =? nrows output)%nat; cbn [bind ret]; [apply Hloop|].
  destruct (length target =? 1)%nat; cbn [bind ret]; [apply Hloop|reflexivity].
Qed.

(** ** The numbers rounding leaves alone *)

Lemma round_half_even_Z (m : Z) : round_half_even (inject_Z m) = m.
Proof.
  unfold round_half_even. rewrite Qfloor_Z.
  assert (E : (inject_Z m - inject_Z m ?= 1 # 2) = Lt).
  { apply Qlt_alt.
    setoid_replace (inject_Z m - inject_Z m) with 0 by ring. reflexivity. }
  now rewrite E.
Qed.

(** A positive number that is a whole number of units of its last place. *)
Lemma round_pos_exact (p : Z) (q : Q) (m : Z) :
  0 < q -> q / pow2 (binade q - p + 1) == inject_Z m -> round_pos p q == q.
Proof.
  intros Hq H. unfold round_pos.
  rewrite (round_half_even_comp _ _ H), round_half_even_Z.
  rewrite <- H. field.
  pose proof (pow2_pos (binade q - p + 1)). lra.
Qed.

Lemma pow2_le_inv (a b : Z) : pow2 a <= pow2 b -> (a <= b)%Z.
Proof. intros H. apply (Qpower_le_compat_l_inv 2); [assumption | reflexivity]. Qed.

(** The integers up to [2^p] are numbers of [p] bits. *)
Lemma round_to_int (p z : Z) :
  (0 < p)%Z -> (0 < z <= 2 ^ p)%Z -> round_to p (inject_Z z) == inject_Z z.
Proof.
  intros Hp Hz.
  assert (Hq : 0 < inject_Z z).
  { change 0 with (inject_Z 0). rewrite <- Zlt_Qlt. lia. }
  unfold round_to.
  assert (C : (inject_Z z ?= 0) = Gt) by now apply Qgt_alt.
  rewrite C.
  destruct (binade_spec (inject_Z z) Hq) as [Bl Bu].
  assert (Hzp : inject_Z z <= pow2 p).
  { rewrite pow2_Z by lia. rewrite <- Zle_Qle. lia. }
  assert (He : (binade (inject_Z z) <= p)%Z) by (apply pow2_le_inv; lra).
  destruct (Z.eq_dec (binade (inject_Z z)) p) as [E|NE].
  - apply (round_pos_exact p _ (2 ^ (p - 1))); [exact Hq|].
    rewrite E in *.
    replace (p - p + 1)%Z with 1%Z by lia.
    assert (Eq : inject_Z z == pow2 p) by lra.
    rewrite Eq. rewrite <- pow2_Z by lia.
    replace p with ((p - 1) + 1)%Z at 1 by lia.
    rewrite pow2_double. change (pow2 1) with 2. field.
  - set (k := (p - 1 - binade (inject_Z z))%Z).
    assert (Hk : (0 <= k)%Z) by (unfold k; lia).
    apply (round_pos_exact p _ (z * 2 ^ k)); [exact Hq|].
    replace (binade (inject_Z z) - p + 1)%Z with (- k)%Z by (unfold k; lia).
    unfold pow2. rewrite Qpower_opp. fold (pow2 k).
    rewrite inject_Z_mult, <- pow2_Z by exact Hk.
    field. pose proof (pow2_pos k). lra.
Qed.

Lemma binary64_int (z : Z) :
  (0 < z <= 2 ^ 53)%Z -> binary64 (inject_Z z) == inject_Z z.
Proof. apply round_to_int. reflexivity. Qed.

Lemma binary64_near (x : Q) :
  Qabs (binary64 x - x) <= (1 # 9007199254740992) * Qabs x.
Proof.
  pose proof (round_to_near 53 x) as H.
  assert (E : pow2 (- (53)) == 1 # 9007199254740992) by reflexivity.
  rewrite E in H. rewrite Qmult_comm. exact H.
Qed.

(** ** AverageMeter in binary64 *)

Lemma Qabs_bounds (x : Q) : - Qabs x <= x <= Qabs x.
Proof. apply Qabs_Qle_condition. apply Qle_refl. Qed.

(** One update of the running sum: the product is rounded, then the sum.
    [E - 1] bounds the relative error so far, [A] is the sum of the
    magnitudes so far. *)
Lemma accumulate_step_error (E A S s vn t s' : Q) :
  1 <= E -> 0 <= A -> Qabs S <= A ->
  Qabs (s - S) <= (E - 1) * A ->
  Qabs (t - vn) <= (1 # 9007199254740992) * Qabs vn ->
  Qabs (s' - (s + t)) <= (1 # 9007199254740992) * Qabs (s + t) ->
  Qabs (s' - (S + vn))
  <= (E * ((1 + (1 # 9007199254740992)) * (1 + (1 # 9007199254740992))) - 1)
     * (A + Qabs vn)
  /\ Qabs (S + vn) <= A + Qabs vn.
Proof.
  intros HE HA HS Hs Ht Hs'.
  pose proof (Qabs_nonneg vn) as B0. pose proof (Qabs_bounds vn) as [B1 B2].
  set (B := Qabs vn) in *.
  apply Qabs_Qle_condition in HS, Hs, Ht.
  assert (P0 : 0 <= (E - 1) * A) by (apply Qmult_le_0_compat; lra).
  assert (R0 : 0 <= (E - 1) * B) by (apply Qmult_le_0_compat; lra).
  assert (EP : (E - 1) * A == E * A - A) by ring.
  assert (ER : (E - 1) * B == E * B - B) by ring.
  rewrite EP in Hs, P0. rewrite ER in R0.
  set (P := E * A) in *. set (R := E * B) in *.
  assert (Hst : Qabs (s + t) <= P + (1 + (1 # 9007199254740992)) * B).
  { apply Qabs_Qle_condition. split; lra. }
  apply Qabs_Qle_condition in Hs'.
  assert (EG : (E * ((1 + (1 # 9007199254740992)) * (1 + (1 # 9007199254740992))) - 1)
               * (A + B)
               == ((1 + (1 # 9007199254740992)) * (1 + (1 # 9007199254740992)))
                  * (P + R) - (A + B)) by (unfold P, R; ring).
  split.
  - rewrite EG. apply Qabs_Qle_condition. split; lra.
  - apply Qabs_Qle_condition. split; lra.
Qed.

Lemma growth_ge_1 (u : Q) (m : nat) : 0 <= u -> 1 <= growth u m.
Proof.
  intros Hu. induction m as [|m IH]; cbn [growth]; [apply Qle_refl|].
  setoid_replace 1 with (1 * 1) at 1 by ring.
  apply Qmult_le_compat_nonneg; split; lra.
Qed.

Lemma growth_two (u : Q) (m : nat) :
  growth u (2 * S m) == (1 + u) * (1 + u) * growth u (2 * m).
Proof.
  replace (2 * S m)%nat with (S (S (2 * m))) by lia.
  cbn [growth]. ring.
Qed.

Lemma float_weighted_abs_nonneg (l : list (Q * Z)) :
  Forall (fun p => (0 < snd p)%Z) l -> 0 <= float_weighted_abs l.
Proof.
  induction 1 as [|[v n] l Hn _ IH]; cbn [float_weighted_abs]; [apply Qle_refl|].
  cbn in Hn.
  assert (Hq : 0 <= inject_Z n)
    by (change 0 with (inject_Z 0); rewrite <- Zle_Qle; lia).
  pose proof (Qabs_nonneg v) as Hv.
  assert (0 <= Qabs v * inject_Z n) by now apply Qmult_le_0_compat.
  lra.
Qed.

(** The running sum of a run of updates and its weighted sum: every update
    rounds twice. *)
Lemma float_accumulate_error (l : list (Q * Z)) :
  Forall (fun p => (0 < snd p)%Z) l ->
  forall E A S s,
    1 <= E -> 0 <= A -> Qabs S <= A ->
    Qabs (s - S) <= (E - 1) * A ->
    Qabs (float_accumulate s l - (S + float_weighted_sum l))
    <= (E * growth u64 (2 * length l) - 1) * (A + float_weighted_abs l)
    /\ Qabs (S + float_weighted_sum l) <= A + float_weighted_abs l.
Proof.
  induction 1 as [|[v n] l Hn Hl IH]; intros E A S s HE HA HS Hs.
  - cbn [float_accumulate float_weighted_sum float_weighted_abs length growth
         Nat.mul].
    setoid_replace (S + 0) with S by ring.
    setoid_replace (A + 0) with A by ring.
    setoid_replace (E * 1 - 1) with (E - 1) by ring.
    split; assumption.
  - cbn in Hn.
    assert (Hq : 0 <= inject_Z n)
      by (change 0 with (inject_Z 0); rewrite <- Zle_Qle; lia).
    cbn [float_accumulate float_weighted_sum float_weighted_abs length].
    set (vn := v * inject_Z n).
    set (t := binary64 vn). set (s' := binary64 (s + t)).
    assert (Eabs : Qabs v * inject_Z n == Qabs vn).
    { unfold vn. rewrite Qabs_Qmult, (Qabs_pos (inject_Z n)) by exact Hq.
      reflexivity. }
    destruct (accumulate_step_error E A S s vn t s' HE HA HS Hs
                (binary64_near vn) (binary64_near (s + t))) as [Herr Habs].
    set (E' := E * ((1 + (1 # 9007199254740992)) * (1 + (1 # 9007199254740992)))) in *.
    assert (HE' : 1 <= E').
    { unfold E'. lra. }
    assert (HA' : 0 <= A + Qabs vn) by (pose proof (Qabs_nonneg vn); lra).
    destruct (IH E' (A + Qabs vn) (S + vn) s' HE' HA' Habs Herr) as [IH1 IH2].
    assert (EG : E * growth u64 (2 * Datatypes.S (length l))
                 == E' * growth u64 (2 * length l)).
    { rewrite growth_two. unfold E', u64. ring. }
    rewrite EG, Eabs.
    setoid_replace (S + (vn + float_weighted_sum l))
      with (S + vn + float_weighted_sum l) by ring.
    setoid_replace (A + (Qabs vn + float_weighted_abs l))
      with (A + Qabs vn + float_weighted_abs l) by ring.
    split; assumption.
Qed.

#[export] Instance binary64_comp : Proper (Qeq ==> Qeq) binary64.
Proof. intros x y E. unfold binary64. now rewrite E. Qed.

Lemma float_accumulate_comp (l : list (Q * Z)) (s s' : Q) :
  s == s' -> float_accumulate s l == float_accumulate s' l.
Proof.
  revert s s'. induction l as [|[v n] l IH]; intros s s' E; cbn [float_accumulate].
  - exact E.
  - apply IH. now rewrite E.
Qed.

(** The quotient of the running sum by the count is rounded once more. *)
Lemma mean_error (E A S s c a : Q) :
  1 <= E -> 0 <= A -> 0 < c -> Qabs S <= A ->
  Qabs (s - S) <= (E - 1) * A ->
  Qabs (a - s / c) <= u64 * Qabs (s / c) ->
  Qabs (a - S / c) <= (E * (1 + u64) - 1) * (A / c).
Proof.
  intros HE HA Hc HS Hs Ha. unfold u64 in *.
  assert (Hic : 0 < / c) by now apply Qinv_lt_0_compat.
  apply Qabs_Qle_condition in HS, Hs.
  destruct HS as [S1 S2]. destruct Hs as [s1 s2].
  apply (Qmult_le_compat_r _ _ (/ c)) in S1, S2, s1, s2; try lra.
  assert (HZ : 0 <= A / c) by (apply Qle_shift_div_l; lra).
  assert (E1 : - A * / c == - (A / c)) by (unfold Qdiv; ring).
  assert (E2 : S * / c == S / c) by reflexivity.
  assert (E3 : A * / c == A / c) by reflexivity.
  assert (E4 : - ((E - 1) * A) * / c == - (E * (A / c) - A / c))
    by (unfold Qdiv; ring).
  assert (E5 : (s - S) * / c == s / c - S / c) by (unfold Qdiv; ring).
  assert (E6 : (E - 1) * A * / c == E * (A / c) - A / c) by (unfold Qdiv; ring).
  rewrite E1, E2 in S1. rewrite E2, E3 in S2.
  rewrite E4, E5 in s1. rewrite E5, E6 in s2.
  assert (EG : (E * (1 + (1 # 9007199254740992)) - 1) * (A / c)
               == (1 + (1 # 9007199254740992)) * (E * (A / c)) - A / c) by ring.
  assert (P0 : 0 <= (E - 1) * (A / c)) by (apply Qmult_le_0_compat; lra).
  assert (EP : (E - 1) * (A / c) == E * (A / c) - A / c) by ring.
  rewrite EP in P0.
  set (X := s / c) in *. set (Y := S / c) in *. set (Z := A / c) in *.
  set (P := E * Z) in *.
  assert (HX : Qabs X <= P) by (apply Qabs_Qle_condition; split; lra).
  apply Qabs_Qle_condition in Ha.
  rewrite EG. apply Qabs_Qle_condition. split; lra.
Qed.

Lemma int_total_weight_nonneg (l : list (Q * Z)) :
  Forall (fun p => (0 < snd p)%Z) l -> (0 <= int_total_weight l)%Z.
Proof.
  induction 1 as [|[v n] l Hn _ IH]; cbn in *; lia.
Qed.

Lemma int_total_weight_pos (l : list (Q * Z)) :
  Forall (fun p => (0 < snd p)%Z) l -> l <> [] -> (0 < int_total_weight l)%Z.
Proof.
  intros H Hl. destruct H as [|[v n] l Hn H]; [congruence|]. cbn in *.
  apply int_total_weight_nonneg in H. lia.
Qed.

Section FloatMeter.

Variable single : Q -> Q.
Variable tensor_div : Q -> Q -> Q.

(** One update by a Python float with a positive int weight. *)
Lemma float_update_step (m : Rounded.AverageMeter) (p : Rounded.py)
  (c : Z) (v : Q) (n : Z) :
  Rounded.sum m = Rounded.Py p -> Rounded.count m = Rounded.PyInt c ->
  (0 <= c)%Z -> (0 < n)%Z ->
  let s' := binary64 (Rounded.to_float binary64 p
                      + binary64 (v * binary64 (inject_Z n))) in
  Rounded.update binary64 single tensor_div m
    (Rounded.Py (Rounded.PyFloat v)) (Rounded.PyInt n)
  = ({| Rounded.name := Rounded.name m; Rounded.fmt := Rounded.fmt m;
        Rounded.val := Rounded.Py (Rounded.PyFloat v);
        Rounded.avg :=
          Rounded.Finite (Rounded.Py (Rounded.PyFloat
            (binary64 (s' / binary64 (inject_Z (c + n))))));
        Rounded.sum := Rounded.Py (Rounded.PyFloat s');
        Rounded.count := Rounded.PyInt (c + n) |}, None).
Proof.
  intros Hs Hc H0 Hn s'.
  unfold Rounded.update. rewrite Hs, Hc.
  cbn [Rounded.mul Rounded.add Rounded.py_mul Rounded.py_add Rounded.to_float].
  assert (Hz : Rounded.py_is_zero (Rounded.PyInt (c + n)) = false).
  { unfold Rounded.py_is_zero. cbn [Rounded.py_value].
    apply Qeq_bool_false_iff. intros E.
    assert (L : 0 < inject_Z (c + n))
      by (change 0 with (inject_Z 0); rewrite <- Zlt_Qlt; lia).
    rewrite E in L. now apply Qlt_irrefl in L. }
  destruct p as [z|q]; cbn [Rounded.py_add Rounded.to_float Rounded.div];
    unfold Rounded.py_div; rewrite Hz; reflexivity.
Qed.

(** The loop invariant of a run of such updates. *)
Lemma float_updates_from (l : list (Q * Z)) :
  Forall (fun p => (0 < snd p)%Z) l ->
  forall m0 p0 c0,
    Rounded.sum m0 = Rounded.Py p0 -> Rounded.count m0 = Rounded.PyInt c0 ->
    (0 <= c0)%Z -> (c0 + int_total_weight l <= 2 ^ 53)%Z ->
    exists m p,
      Rounded.updates binary64 single tensor_div m0 (float_updates l) = (m, None)
      /\ Rounded.name m = Rounded.name m0 /\ Rounded.fmt m = Rounded.fmt m0
      /\ Rounded.count m = Rounded.PyInt (c0 + int_total_weight l)
      /\ Rounded.sum m = Rounded.Py p
      /\ Rounded.to_float binary64 p
         == float_accumulate (Rounded.to_float binary64 p0) l
      /\ (l <> [] ->
          exists s a,
            p = Rounded.PyFloat s
            /\ Rounded.avg m = Rounded.Finite (Rounded.Py (Rounded.PyFloat a))
            /\ a == binary64 (s / inject_Z (c0 + int_total_weight l))).
Proof.
  induction 1 as [|[v n] l Hn Hl IH]; intros m0 p0 c0 Hs Hc H0 Htot.
  - exists m0, p0. cbn. rewrite Z.add_0_r.
    repeat split; try assumption; try reflexivity. congruence.
  - cbn in Hn. cbn [int_total_weight] in Htot.
    pose proof (int_total_weight_nonneg l Hl) as Hw.
    cbn [float_updates map fst snd Rounded.updates].
    rewrite (float_update_step m0 p0 c0 v n Hs Hc H0 Hn). cbn zeta.
    set (s1 := binary64 (Rounded.to_float binary64 p0
                         + binary64 (v * binary64 (inject_Z n)))).
    set (m1 := {| Rounded.name := Rounded.name m0; Rounded.fmt := Rounded.fmt m0;
                  Rounded.val := Rounded.Py (Rounded.PyFloat v);
                  Rounded.avg := _;
                  Rounded.sum := Rounded.Py (Rounded.PyFloat s1);
                  Rounded.count := Rounded.PyInt (c0 + n) |}).
    destruct (IH m1 (Rounded.PyFloat s1) (c0 + n)%Z eq_refl eq_refl)
      as (m & p & Hm & Hname & Hfmt & Hcount & Hsum & Hacc & Havg); [lia|lia|].
    assert (En : binary64 (inject_Z n) == inject_Z n)
      by (apply binary64_int; lia).
    assert (Es1 : s1 == binary64 (Rounded.to_float binary64 p0
                                  + binary64 (v * inject_Z n))).
    { unfold s1. now rewrite En. }
    exists m, p. fold (float_updates l). split; [exact Hm|].
    cbn [int_total_weight].
    replace (c0 + (n + int_total_weight l))%Z
      with (c0 + n + int_total_weight l)%Z by lia.
    repeat split; try assumption.
    + rewrite Hacc. cbn [float_accumulate Rounded.to_float].
      now apply float_accumulate_comp.
    + intros _. destruct l as [|q l'].
      * cbn in Hm. injection Hm as <-. cbn in Hsum. injection Hsum as <-.
        exists s1. eexists. split; [reflexivity|]. split; [reflexivity|].
        cbn [int_total_weight]. rewrite Z.add_0_r.
        rewrite (binary64_int (c0 + n)) by (cbn [int_total_weight] in Htot; lia).
        reflexivity.
      * apply Havg. discriminate.
Qed.

End FloatMeter.

(** A run of updates by Python floats with positive int weights, from a
    fresh meter. *)
Lemma float_run_mean (nm f : string)
  (single : Q -> Q) (tensor_div : Q -> Q -> Q) (l : list (Q * Z)) :
  l <> [] ->
  Forall (fun p => (0 < snd p)%Z) l ->
  (int_total_weight l <= 2 ^ 53)%Z ->
  exists m s a,
    Rounded.updates binary64 single tensor_div
      (Rounded.AverageMeter_init nm f) (float_updates l) = (m, None)
    /\ Rounded.count m = Rounded.PyInt (int_total_weight l)
    /\ Rounded.sum m = Rounded.Py (Rounded.PyFloat s)
    /\ s == float_accumulate 0 l
    /\ Rounded.avg m = Rounded.Finite (Rounded.Py (Rounded.PyFloat a))
    /\ a == binary64 (s / inject_Z (int_total_weight l))
    /\ Qabs (a - float_weighted_sum l / inject_Z (int_total_weight l))
       <= gamma u64 (2 * length l + 1)
          * (float_weighted_abs l / inject_Z (int_total_weight l)).
Proof.
  intros Hl Hw Htot.
  destruct (float_updates_from single tensor_div l Hw
              (Rounded.AverageMeter_init nm f) (Rounded.PyInt 0) 0%Z
              eq_refl eq_refl)
    as (m & p & Hm & _ & _ & Hc & Hs & Hacc & Havg); [lia|lia|].
  destruct (Havg Hl) as (s & a & -> & Ha & Ea).
  rewrite Z.add_0_l in Hc, Ea.
  cbn [Rounded.to_float] in Hacc.
  assert (E0 : binary64 (inject_Z 0) == 0) by reflexivity.
  assert (Es : s == float_accumulate 0 l).
  { rewrite Hacc. now apply float_accumulate_comp. }
  exists m, s, a. repeat split; try assumption.
  pose proof (int_total_weight_pos l Hw Hl) as Hpos.
  assert (Hq : 0 < inject_Z (int_total_weight l))
    by (change 0 with (inject_Z 0); rewrite <- Zlt_Qlt; lia).
  destruct (float_accumulate_error l Hw 1 0 0 0) as [Herr Habs];
    try lra; try (cbn; lra).
  assert (G1 : 1 <= growth u64 (2 * length l))
    by (apply growth_ge_1; unfold u64; lra).
  pose proof (float_weighted_abs_nonneg l Hw) as HA.
  replace (2 * length l + 1)%nat with (S (2 * length l)) by lia.
  unfold gamma. cbn [growth].
  setoid_replace ((1 + u64) * growth u64 (2 * length l) - 1)
    with (growth u64 (2 * length l) * (1 + u64) - 1) by ring.
  apply (mean_error _ _ _ s); try assumption.
  - setoid_replace (0 + float_weighted_sum l) with (float_weighted_sum l)
      in Habs by ring.
    setoid_replace (0 + float_weighted_abs l) with (float_weighted_abs l)
      in Habs by ring.
    exact Habs.
  - rewrite Es.
    setoid_replace (0 + float_weighted_sum l) with (float_weighted_sum l)
      in Herr by ring.
    setoid_replace (0 + float_weighted_abs l) with (float_weighted_abs l)
      in Herr by ring.
    setoid_replace (1 * growth u64 (2 * length l) - 1)
      with (growth u64 (2 * length l) - 1) in Herr by ring.
    exact Herr.
  - rewrite Ea. unfold u64. apply binary64_near.
Qed.




(** ** accuracy with a single label, and the top-1 prediction *)

#[export] Instance binary32_comp : Proper (Qeq ==> Qeq) binary32.
Proof. intros x y E. unfold binary32. now rewrite E. Qed.

Lemma binary32_hundredfold (h : nat) :
  (100 * Z.of_nat h <= 2 ^ 24)%Z ->
  binary32 (Q_of_nat h * binary32 (binary64 (100 / Q_of_nat 1)))
  == 100 * Q_of_nat h.
Proof.
  intros Hh.
  assert (E100 : binary32 (binary64 (100 / Q_of_nat 1)) == 100)
    by (vm_compute; reflexivity).
  rewrite E100.
  assert (Ez : Q_of_nat h * 100 == inject_Z (100 * Z.of_nat h)).
  { unfold Q_of_nat. rewrite inject_Z_mult. change (inject_Z 100) with 100. ring. }
  rewrite Ez.
  destruct (Z.eq_dec (Z.of_nat h) 0) as [E0|N0].
  - unfold Q_of_nat. rewrite E0. reflexivity.
  - unfold binary32. rewrite round_to_int; [|reflexivity|lia].
    unfold Q_of_nat. rewrite inject_Z_mult. reflexivity.
Qed.

(** X6.  One label for several score vectors is accepted: it is compared with
    the predictions of every example, and the count is multiplied by
    [100.0 / 1], 1 being the number of labels.  The entry for [k] is 100
    times the number of examples that have the label among the first [k]
    classes selected for them, exactly (up to 167772 examples), so it can
    exceed 100. *)
Theorem accuracy_single_label
  (select : tensor2 Q -> nat -> nat -> list nat)
  (output : tensor2 Q) (t : Z) (ks : list nat)
  (Hsel : topk_contract select)
  (Hks : ks <> [])
  (Hle : Forall (fun k => (k <= ncols output)%nat) ks)
  (Hn : (100 * Z.of_nat (nrows output) <= 2 ^ 24)%Z) :
  exists res,
    Rounded.accuracy binary64 binary32 select output [t] ks = inr res
    /\ Forall2 (fun k a =>
         exists h : nat,
           h = Rounded.picked select output (repeat t (nrows output))
                              (list_max ks) k
           /\ (hits_sure output (repeat t (nrows output)) k <= h
               <= hits_possible output (repeat t (nrows output)) k)%nat
           /\ a == 100 * Q_of_nat h)
       ks res.
Proof.
  assert (Hmax : (list_max ks <= ncols output)%nat) by now apply list_max_le.
  assert (Hcount : forall (other : tensor2 Z) k,
    In k ks ->
    (forall i j, (j < nrows output)%nat -> at_ other i j = t) ->
    count_true (take_rows k
      (tensor_eq (transpose
         {| nrows := nrows output; ncols := list_max ks;
            at_ := fun i r => nth r (select output (list_max ks) i) 0%nat |})
         other))
    = Rounded.picked select output (repeat t (nrows output)) (list_max ks) k).
  { intros other k Hk Hother.
    rewrite <- (count_true_picked select Hsel output (repeat t (nrows output))
                  (list_max ks) Hmax k) by now apply list_max_ge.
    apply count_true_ext; cbn; try reflexivity.
    intros i j _ Hj. rewrite Hother by exact Hj.
    now rewrite nth_repeat_lt by exact Hj. }
  exists (map (fun k =>
            binary32 (Q_of_nat (Rounded.picked select output
                                  (repeat t (nrows output)) (list_max ks) k)
                      * binary32 (binary64 (100 / Q_of_nat 1)))) ks).
  split.
  - unfold Rounded.accuracy. destruct ks as [|k0 ks0] eqn:Eks; [congruence|].
    rewrite <- Eks in *. clear Hks.
    unfold Rounded.topk. apply Nat.ltb_ge in Hmax as Hlt. rewrite Hlt.
    cbn [bind ret]. unfold expand_as. cbn [ncols nrows transpose length].
    destruct (Nat.eqb_spec 1 (nrows output)) as [H1|H1]; cbn [Nat.eqb bind ret];
      rewrite rounded_accuracy_loop_ok by discriminate; cbn [length];
      f_equal; apply map_ext_in; intros k Hk; f_equal; f_equal; f_equal;
      apply Hcount; try exact Hk.
    + intros i j Hj. cbn. rewrite <- H1 in Hj.
      assert (j = 0)%nat as -> by lia. reflexivity.
    + intros i j _. reflexivity.
  - assert (Hin : forall k, In k ks -> (k <= list_max ks)%nat)
      by (intros k; apply list_max_ge).
    clear Hks Hle Hcount. revert Hin Hmax. generalize (list_max ks) as maxk.
    intros maxk Hin Hmax.
    induction ks as [|k ks IH]; cbn [map]; constructor.
    + eexists. split; [reflexivity|]. split.
      * apply (picked_between select Hsel output _ maxk Hmax k).
        apply Hin. now left.
      * apply binary32_hundredfold.
        pose proof (picked_le select output (repeat t (nrows output)) maxk k).
        lia.
    + apply IH. intros x Hx. apply Hin. now right.
Qed.

Lemma accuracy_single_label_witness :
  Rounded.picked sorted_select scores_same_top
                 (repeat 0%Z (nrows scores_same_top)) (list_max [1%nat]) 1
  = 2%nat
  /\ exists res,
      Rounded.accuracy binary64 binary32 sorted_select scores_same_top
                       [0%Z] [1%nat] = inr res
      /\ Forall2 (fun k a =>
           exists h : nat,
             h = Rounded.picked sorted_select scores_same_top
                                (repeat 0%Z (nrows scores_same_top))
                                (list_max [1%nat]) k
             /\ (hits_sure scores_same_top
                           (repeat 0%Z (nrows scores_same_top)) k <= h
                 <= hits_possible scores_same_top
                                  (repeat 0%Z (nrows scores_same_top)) k)%nat
             /\ a == 100 * Q_of_nat h)
         [1%nat] res.
Proof.
  split; [vm_compute; reflexivity|].
  apply (accuracy_single_label sorted_select scores_same_top 0%Z [1%nat]).
  - apply sorted_select_contract.
  - discriminate.
  - repeat constructor.
  - vm_compute. discriminate.
Defined.

(** Where one class scores above all the others, every selection starts
    with it. *)
Lemma select_head_strict_max (select : tensor2 Q -> nat -> nat -> list nat)
  (t : tensor2 Q) (k i j : nat) :
  topk_contract select ->
  (1 <= k <= ncols t)%nat -> (i < nrows t)%nat -> strict_max t i j ->
  exists rest, select t k i = j :: rest.
Proof.
  intros Hsel Hk Hi [Hj Hstrict].
  destruct (Hsel t k i) as (Hlen & Hnd & Hlt & Hsorted & Hrest); [lia|exact Hi|].
  destruct (select t k i) as [|x rest] eqn:E; [cbn in Hlen; lia|].
  exists rest. f_equal.
  destruct (Nat.eq_dec x j) as [|Hx]; [assumption|]. exfalso.
  assert (Hxc : (x < ncols t)%nat) by (apply Hlt; now left).
  pose proof (Hstrict x Hxc Hx) as Hless.
  destruct (in_dec Nat.eq_dec j (x :: rest)) as [Hin|Hnin].
  - destruct (In_nth _ _ 0%nat Hin) as (a & Ha & Ea).
    rewrite Hlen in Ha.
    assert (L : at_ t i (nth a (x :: rest) 0%nat)
                <= at_ t i (nth 0 (x :: rest) 0%nat)) by (apply Hsorted; lia).
    rewrite Ea in L. cbn in L. lra.
  - assert (L : at_ t i j <= at_ t i x)
      by (apply Hrest; [now left|exact Hj|exact Hnin]).
    lra.
Qed.

Lemma argmax_row_strict_max (t : tensor2 Q) (i j : nat) :
  (i < nrows t)%nat -> strict_max t i j -> argmax_row t i = j.
Proof.
  intros Hi Hj. assert (Hc : (1 <= ncols t)%nat) by (destruct Hj; lia).
  destruct (select_head_strict_max sorted_select t (ncols t) i j
              sorted_select_contract) as (rest & E); [lia|exact Hi|exact Hj|].
  unfold sorted_select in E.
  rewrite firstn_all2 in E by (rewrite argsort_desc_length; lia).
  unfold argmax_row. now rewrite E.
Qed.

(** X21.  Where every example has one class that scores above all the
    others, the class [torch.max] picks for it, as [predict] does, is the
    class that decides its top-1 accuracy: on the same scores the top-1
    entry of [accuracy] is the float32 percentage of examples whose
    prediction is the label. *)
Theorem top1_is_prediction
  (select : tensor2 Q -> nat -> nat -> list nat)
  (t : tensor2 Q) (target : list Z) (probs : list Q) (preds : list nat)
  (Hsel : topk_contract select)
  (Hmax : max_dim1 t = inr (probs, preds))
  (Hlen : length target = nrows t)
  (Hn : nrows t <> 0%nat)
  (Hn24 : (Z.of_nat (nrows t) <= 2 ^ 24)%Z)
  (Hone : forall i, (i < nrows t)%nat -> exists j, strict_max t i j) :
  Rounded.accuracy binary64 binary32 select t target [1%nat]
  = inr [binary32 (Q_of_nat (agreements preds target)
                   * binary32 (binary64 (100 / Q_of_nat (nrows t))))].
Proof.
  unfold max_dim1 in Hmax.
  destruct (Nat.eqb_spec (ncols t) 0) as [Hc|Hc]; [discriminate|].
  injection Hmax as _ <-.
  rewrite (rounded_accuracy_ok binary64 binary32 select Hsel t target [1%nat]);
    try assumption; [|discriminate|repeat constructor; lia].
  cbn [map]. change (list_max [1%nat]) with 1%nat.
  assert (E : Rounded.picked select t target 1 1
              = agreements (map (argmax_row t) (seq 0 (nrows t))) target).
  { unfold agreements, Rounded.picked. rewrite <- Hlen, filter_combine_seq.
    f_equal. apply filter_ext_in. intros j Hj. apply in_seq in Hj.
    rewrite Nat.sub_0_r.
    destruct (Hone j) as (x & Hx); [lia|].
    destruct (select_head_strict_max select t 1 j x Hsel) as (rest & Es);
      [lia|lia|exact Hx|].
    rewrite Es, (argmax_row_strict_max t j x) by (try exact Hx; lia).
    cbn. now rewrite orb_false_r. }
  now rewrite E.
Qed.

Lemma top1_is_prediction_witness :
  Rounded.accuracy binary64 binary32 sorted_select scores_same_top
                   sample_labels [1%nat]
  = inr [binary32 (Q_of_nat (agreements [0; 0]%nat sample_labels)
                   * binary32 (binary64
                       (100 / Q_of_nat (nrows scores_same_top))))].
Proof.
  apply (top1_is_prediction sorted_select scores_same_top sample_labels
           [9 # 10; 8 # 10]).
  - apply sorted_select_contract.
  - reflexivity.
  - reflexivity.
  - discriminate.
  - vm_compute. discriminate.
  - intros i Hi. exists 0%nat. split; [cbn; lia|].
    intros j' Hj' Hne. cbn in Hi, Hj'.
    destruct i as [|[|i]]; [| |lia];
      (destruct j' as [|[|j']]; [congruence| |lia]); reflexivity.
Defined.

(** ** AverageMeter in binary64: order, bounds, equal weights *)

Lemma float_weighted_sum_perm (l l' : list (Q * Z)) :
  Permutation l l' -> float_weighted_sum l == float_weighted_sum l'.
Proof.
  induction 1 as [|[v n] l l' _ IH|[v n] [v' n'] l|l l' l'' _ IH1 _ IH2]; cbn.
  - reflexivity.
  - now rewrite IH.
  - ring.
  - now rewrite IH1.
Qed.

Lemma float_weighted_abs_perm (l l' : list (Q * Z)) :
  Permutation l l' -> float_weighted_abs l == float_weighted_abs l'.
Proof.
  induction 1 as [|[v n] l l' _ IH|[v n] [v' n'] l|l l' l'' _ IH1 _ IH2]; cbn.
  - reflexivity.
  - now rewrite IH.
  - ring.
  - now rewrite IH1.
Qed.

Lemma int_total_weight_perm (l l' : list (Q * Z)) :
  Permutation l l' -> int_total_weight l = int_total_weight l'.
Proof.
  induction 1 as [|[v n] l l' _ IH|[v n] [v' n'] l|l l' l'' _ IH1 _ IH2]; cbn;
    lia.
Qed.

(** X7.  The order of the updates matters to the average through rounding
    only: two runs of the same updates by Python floats, in any two orders,
    leave the same count, and averages that differ by at most twice the
    bound of the rounding error of one run.  They do differ: 0.1, 0.2, 0.3
    give 0.20000000000000004, and 0.19999999999999998 in the reverse
    order. *)
Theorem updates_order_rounding (nm f : string)
  (single : Q -> Q) (tensor_div : Q -> Q -> Q) (l l' : list (Q * Z))
  (Hperm : Permutation l l')
  (Hl : l <> [])
  (Hv : Forall (fun p => moderate_double (fst p)) l)
  (Hw : Forall (fun p => (0 < snd p)%Z) l)
  (Htot : (int_total_weight l <= 2 ^ 53)%Z) :
  exists m m' a a',
    Rounded.updates binary64 single tensor_div
      (Rounded.AverageMeter_init nm f) (float_updates l) = (m, None)
    /\ Rounded.updates binary64 single tensor_div
         (Rounded.AverageMeter_init nm f) (float_updates l') = (m', None)
    /\ Rounded.count m' = Rounded.count m
    /\ Rounded.avg m = Rounded.Finite (Rounded.Py (Rounded.PyFloat a))
    /\ Rounded.avg m' = Rounded.Finite (Rounded.Py (Rounded.PyFloat a'))
    /\ Qabs (a - a')
       <= 2 * (gamma u64 (2 * length l + 1)
               * (float_weighted_abs l / inject_Z (int_total_weight l))).
Proof.
  assert (Hl' : l' <> []).
  { intros ->. apply Permutation_sym, Permutation_nil in Hperm. contradiction. }
  assert (Hw' : Forall (fun p => (0 < snd p)%Z) l')
    by (eapply Permutation_Forall; eassumption).
  pose proof (int_total_weight_perm l l' Hperm) as Et.
  assert (Htot' : (int_total_weight l' <= 2 ^ 53)%Z) by lia.
  destruct (float_run_mean nm f single tensor_div l Hl Hw Htot)
    as (m & s & a & Hm & Hc & _ & _ & Ha & _ & Hb).
  destruct (float_run_mean nm f single tensor_div l' Hl' Hw' Htot')
    as (m' & s' & a' & Hm' & Hc' & _ & _ & Ha' & _ & Hb').
  exists m, m', a, a'. repeat split; try assumption.
  - rewrite Hc, Hc'. now rewrite Et.
  - rewrite <- (Permutation_length Hperm), <- Et in Hb'.
    rewrite <- (float_weighted_sum_perm l l' Hperm) in Hb'.
    rewrite <- (float_weighted_abs_perm l l' Hperm) in Hb'.
    set (mu := float_weighted_sum l / inject_Z (int_total_weight l)) in *.
    set (B := gamma u64 (2 * length l + 1)
              * (float_weighted_abs l / inject_Z (int_total_weight l))) in *.
    apply Qabs_Qle_condition in Hb, Hb'. apply Qabs_Qle_condition.
    split; lra.
Qed.

Lemma updates_order_rounding_witness :
  exists m m' a a',
    Rounded.updates binary64 binary32 (fun x c => binary32 (x / c))
      (Rounded.AverageMeter_init "Loss" ":6.2f") (float_updates tenths_up)
    = (m, None)
    /\ Rounded.updates binary64 binary32 (fun x c => binary32 (x / c))
         (Rounded.AverageMeter_init "Loss" ":6.2f")
         (float_updates (rev tenths_up)) = (m', None)
    /\ Rounded.count m' = Rounded.count m
    /\ Rounded.avg m = Rounded.Finite (Rounded.Py (Rounded.PyFloat a))
    /\ Rounded.avg m' = Rounded.Finite (Rounded.Py (Rounded.PyFloat a'))
    /\ Qabs (a - a')
       <= 2 * (gamma u64 (2 * length tenths_up + 1)
               * (float_weighted_abs tenths_up
                  / inject_Z (int_total_weight tenths_up))).
Proof.
  apply (updates_order_rounding "Loss" ":6.2f" binary32
           (fun x c => binary32 (x / c)) tenths_up (rev tenths_up)).
  - apply Permutation_rev.
  - discriminate.
  - repeat (constructor;
            [split; [vm_compute; reflexivity
                    |right; split; vm_compute; discriminate]|]).
    constructor.
  - repeat constructor.
  - vm_compute. discriminate.
Defined.

(** The two orders of the example. *)
Example updates_order_matters :
  exists m m' a a',
    Rounded.updates binary64 binary32 (fun x c => binary32 (x / c))
      (Rounded.AverageMeter_init "Loss" ":6.2f") (float_updates tenths_up)
    = (m, None)
    /\ Rounded.updates binary64 binary32 (fun x c => binary32 (x / c))
         (Rounded.AverageMeter_init "Loss" ":6.2f")
         (float_updates (rev tenths_up)) = (m', None)
    /\ Rounded.avg m = Rounded.Finite (Rounded.Py (Rounded.PyFloat a))
    /\ Rounded.avg m' = Rounded.Finite (Rounded.Py (Rounded.PyFloat a'))
    /\ a - a' == 1 # 18014398509481984.
Proof.
  do 4 eexists. split; [vm_compute; reflexivity|].
  split; [vm_compute; reflexivity|]. repeat split; vm_compute; reflexivity.
Qed.

Lemma float_weighted_abs_nonneg_values (l : list (Q * Z)) :
  Forall (fun p => 0 <= fst p) l ->
  float_weighted_abs l == float_weighted_sum l.
Proof.
  induction 1 as [|[v n] l Hv _ IH]; cbn in *; [reflexivity|].
  now rewrite IH, Qabs_pos by exact Hv.
Qed.

Lemma float_weighted_sum_bounds (lo hi : Q) (l : list (Q * Z)) :
  Forall (fun p => (0 < snd p)%Z) l ->
  Forall (fun p => lo <= fst p <= hi) l ->
  lo * inject_Z (int_total_weight l) <= float_weighted_sum l
  <= hi * inject_Z (int_total_weight l).
Proof.
  intros Hw Hb.
  induction Hw as [|[v n] l Hn Hw IH];
    cbn [float_weighted_sum int_total_weight snd] in *.
  - setoid_replace (lo * inject_Z 0) with 0 by ring.
    setoid_replace (hi * inject_Z 0) with 0 by ring.
    split; apply Qle_refl.
  - inversion Hb as [|? ? [Hlo Hhi] Hb']; subst. cbn in Hlo, Hhi.
    destruct (IH Hb') as [I1 I2].
    assert (Hq : 0 <= inject_Z n)
      by (change 0 with (inject_Z 0); rewrite <- Zle_Qle; lia).
    rewrite inject_Z_plus.
    assert (L : lo * inject_Z n <= v * inject_Z n)
      by now apply Qmult_le_compat_r.
    assert (U : v * inject_Z n <= hi * inject_Z n)
      by now apply Qmult_le_compat_r.
    split; lra.
Qed.

(** X8.  The average of values between [lo >= 0] and [hi] is, up to the
    rounding of the run, a number between them: it is within the relative
    error bound of the weighted mean, which lies in [[lo, hi]].  The average
    itself can leave the interval: three updates by 0.1 average
    0.10000000000000002. *)
Theorem avg_between_bounds (nm f : string)
  (single : Q -> Q) (tensor_div : Q -> Q -> Q) (lo hi : Q) (l : list (Q * Z))
  (Hl : l <> [])
  (Hv : Forall (fun p => moderate_double (fst p)) l)
  (Hw : Forall (fun p => (0 < snd p)%Z) l)
  (Htot : (int_total_weight l <= 2 ^ 53)%Z)
  (Hlo : 0 <= lo)
  (Hb : Forall (fun p => lo <= fst p <= hi) l) :
  exists m a mu,
    Rounded.updates binary64 single tensor_div
      (Rounded.AverageMeter_init nm f) (float_updates l) = (m, None)
    /\ Rounded.avg m = Rounded.Finite (Rounded.Py (Rounded.PyFloat a))
    /\ mu == float_weighted_sum l / inject_Z (int_total_weight l)
    /\ lo <= mu <= hi
    /\ Qabs (a - mu) <= gamma u64 (2 * length l + 1) * mu.
Proof.
  destruct (float_run_mean nm f single tensor_div l Hl Hw Htot)
    as (m & s & a & Hm & _ & _ & _ & Ha & _ & Hbound).
  exists m, a, (float_weighted_sum l / inject_Z (int_total_weight l)).
  split; [exact Hm|]. split; [exact Ha|]. split; [reflexivity|].
  pose proof (int_total_weight_pos l Hw Hl) as Hpos.
  assert (Hq : 0 < inject_Z (int_total_weight l))
    by (change 0 with (inject_Z 0); rewrite <- Zlt_Qlt; lia).
  destruct (float_weighted_sum_bounds lo hi l Hw Hb) as [B1 B2].
  split.
  - split.
    + apply Qle_shift_div_l; assumption.
    + apply Qle_shift_div_r; assumption.
  - rewrite float_weighted_abs_nonneg_values in Hbound; [exact Hbound|].
    eapply Forall_impl; [|exact Hb]. cbn. intros p [H _]. lra.
Qed.

Lemma avg_between_bounds_witness :
  exists m a mu,
    Rounded.updates binary64 binary32 (fun x c => binary32 (x / c))
      (Rounded.AverageMeter_init "Loss" ":6.2f") (float_updates three_tenths)
    = (m, None)
    /\ Rounded.avg m = Rounded.Finite (Rounded.Py (Rounded.PyFloat a))
    /\ mu == float_weighted_sum three_tenths
             / inject_Z (int_total_weight three_tenths)
    /\ one_tenth <= mu <= one_tenth
    /\ Qabs (a - mu) <= gamma u64 (2 * length three_tenths + 1) * mu.
Proof.
  apply (avg_between_bounds "Loss" ":6.2f" binary32
           (fun x c => binary32 (x / c)) one_tenth one_tenth three_tenths).
  - discriminate.
  - apply Forall_forall. intros p Hp. apply repeat_spec in Hp. subst p.
    split; [vm_compute; reflexivity|right; split; vm_compute; discriminate].
  - apply Forall_forall. intros p Hp. apply repeat_spec in Hp. subst p.
    reflexivity.
  - vm_compute. discriminate.
  - vm_compute. discriminate.
  - apply Forall_forall. intros p Hp. apply repeat_spec in Hp. subst p.
    split; apply Qle_refl.
Defined.




(** The example of the weight that does not cancel. *)
Example equal_weights_rounding :
  exists m m' a a',
    Rounded.updates binary64 binary32 (fun x c => binary32 (x / c))
      (Rounded.AverageMeter_init "Loss" ":6.2f") (float_updates tenths_by_three)
    = (m, None)
    /\ Rounded.updates binary64 binary32 (fun x c => binary32 (x / c))
         (Rounded.AverageMeter_init "Loss" ":6.2f")
         (float_updates (map (fun p => (fst p, 1%Z)) tenths_by_three))
       = (m', None)
    /\ Rounded.avg m = Rounded.Finite (Rounded.Py (Rounded.PyFloat a))
    /\ Rounded.avg m' = Rounded.Finite (Rounded.Py (Rounded.PyFloat a'))
    /\ a' == binary64 (3 # 10)
    /\ a' - a == 1 # 18014398509481984.
Proof.
  do 4 eexists. split; [vm_compute; reflexivity|].
  split; [vm_compute; reflexivity|]. repeat split; vm_compute; reflexivity.
Qed.
